(** * terry: a fuzzing harness around radamsa and francis

    A shallow embedding of [main.go] and the properties of its netstring
    codec, its connector, its generator and fixer clients and its main loop.

    Go values are modelled as follows.
    - [[]byte] is [list byte]; [string] is [string]; [len] is a [Z].
    - [int], [int64], [uint64] and [time.Duration] are [Z] with the
      wrap-around of the machine type written where the code computes.
    - A function with effects is a function of the state it reads and
      changes, returning an outcome (a value, [os.Exit], or a run-time
      panic), the new state and the effects it performed, in order.
    - What the environment answers (the network, the file system, the
      target) is an oracle indexed by the number of calls made so far. *)

From Stdlib Require Import ZArith List String Ascii Lia Bool.
From Stdlib Require Import Strings.Byte.
Import ListNotations.
Open Scope list_scope.
Open Scope Z_scope.

(** ** Bytes *)

Definition len {A : Type} (l : list A) : Z := Z.of_nat (List.length l).

Definition byteZ (b : byte) : Z := Z.of_N (Byte.to_N b).

Definition Zbyte (z : Z) : byte :=
  match Byte.of_N (Z.to_N z) with
  | Some b => b
  | None => x00
  end.

Definition bytes_of (s : string) : list byte := list_byte_of_string s.

(** [const MAXLEN = 10 * 1024 * 1024] *)
Definition MAXLEN : Z := 10 * 1024 * 1024.

(** ** Errors *)

(** Go's [error] values met in the program: the two sentinels of [io], the
    errors the program builds with [fmt.Errorf] (format and arguments kept
    apart), and errors of the operating system, the network or francis. *)
Inductive error : Type :=
| io_EOF
| io_ErrUnexpectedEOF
| Errorf (format : string) (args : list (list byte))
| SysError (msg : string).

(** ** strconv *)

Module strconv.

Inductive Err : Type := ErrSyntax | ErrRange.

(** [strconv.IntSize] on a 64-bit platform; [int] is [int64] there. *)
Definition IntSize : Z := 64.

Definition wrap_uint64 (z : Z) : Z := z mod 2 ^ 64.

Definition wrap_int64 (z : Z) : Z := (z + 2 ^ 63) mod 2 ^ 64 - 2 ^ 63.

(** [lower(c)]: [c | ('x' - 'X')]. *)
Definition lower (c : Z) : Z := Z.lor c 32.

(** The digit loop of [ParseUint] in base 10 (so [base0] is false and an
    underscore is no digit). [n] is the [uint64] accumulated so far;
    [cutoff] is [maxUint64/10 + 1]. *)
Fixpoint parseDigits (s : list byte) (maxVal n : Z) : Z * option Err :=
  match s with
  | [] => (n, None)
  | b :: s' =>
      let c := byteZ b in
      let od :=
        if (48 <=? c) && (c <=? 57) then Some (c - 48)
        else if (97 <=? lower c) && (lower c <=? 122)
             then Some (lower c - 97 + 10)
             else None in
      match od with
      | None => (0, Some ErrSyntax)
      | Some d =>
          if d >=? 10 then (0, Some ErrSyntax)
          else if n >=? (2 ^ 64 - 1) / 10 + 1 then (maxVal, Some ErrRange)
          else
            let n10 := wrap_uint64 (n * 10) in
            let n1 := wrap_uint64 (n10 + d) in
            if (n1 <? n10) || (n1 >? maxVal) then (maxVal, Some ErrRange)
            else parseDigits s' maxVal n1
      end
  end.

(** [ParseUint(s, 10, bitSize)] *)
Definition ParseUint (s : list byte) (bitSize : Z) : Z * option Err :=
  match s with
  | [] => (0, Some ErrSyntax)
  | _ =>
      let bitSize := if bitSize =? 0 then IntSize else bitSize in
      parseDigits s (2 ^ bitSize - 1) 0
  end.

(** [ParseInt(s, 10, bitSize)]: the value is returned with the error, and
    the caller reads it also when the error is not nil. *)
Definition ParseInt (s : list byte) (bitSize : Z) : Z * option Err :=
  match s with
  | [] => (0, Some ErrSyntax)
  | c0 :: tl =>
      let '(neg, s1) :=
        if Byte.eqb c0 "+"%byte then (false, tl)
        else if Byte.eqb c0 "-"%byte then (true, tl)
        else (false, s) in
      let '(un, err) := ParseUint s1 bitSize in
      match err with
      | Some ErrSyntax => (0, Some ErrSyntax)
      | _ =>
          let bitSize := if bitSize =? 0 then IntSize else bitSize in
          let cutoff := 2 ^ (bitSize - 1) in
          if negb neg && (un >=? cutoff) then (cutoff - 1, Some ErrRange)
          else if neg && (un >? cutoff) then (- cutoff, Some ErrRange)
          else
            let n := wrap_int64 un in
            (if neg then wrap_int64 (- n) else n, None)
      end
  end.

(** The decimal digits of a [uint64], most significant first: the loop of
    [formatBits] for base 10, one digit for each turn. Twenty digits
    write every [uint64]. *)
Fixpoint formatBits (fuel : nat) (u : Z) (acc : list byte) : list byte :=
  match fuel with
  | O => Zbyte (48 + u) :: acc
  | S fuel' =>
      if u <? 10 then Zbyte (48 + u) :: acc
      else formatBits fuel' (u / 10) (Zbyte (48 + u mod 10) :: acc)
  end.

(** [FormatInt(i, 10)], which is what the verb [%d] prints for an [int]. *)
Definition FormatInt (i : Z) : list byte :=
  if i <? 0 then "-"%byte :: formatBits 19 (wrap_uint64 (- i)) []
  else formatBits 19 i [].

End strconv.

(** ** crypto/sha1 *)

Module sha1.

Definition w32 (z : Z) : Z := z mod 2 ^ 32.

(** [bits.RotateLeft32] *)
Definition rotl (k x : Z) : Z :=
  w32 (Z.lor (Z.shiftl x k) (Z.shiftr x (32 - k))).

(** [^b] on a [uint32] *)
Definition not32 (b : Z) : Z := 2 ^ 32 - 1 - b.

(** The message followed by [0x80], zeros up to 56 modulo 64, and the length
    in bits as a big-endian [uint64]. *)
Definition be_bytes (n : nat) (z : Z) : list byte :=
  map (fun i => Zbyte (Z.shiftr z (8 * Z.of_nat i) mod 256)) (rev (seq 0 n)).

Definition pad (msg : list byte) : list byte :=
  let l := len msg in
  msg ++ x80 :: repeat x00 (Z.to_nat ((55 - l) mod 64))
      ++ be_bytes 8 ((8 * l) mod 2 ^ 64).

(** Big-endian 32-bit words of a block. *)
Fixpoint words (p : list byte) : list Z :=
  match p with
  | b0 :: b1 :: b2 :: b3 :: p' =>
      Z.lor (Z.shiftl (byteZ b0) 24)
        (Z.lor (Z.shiftl (byteZ b1) 16)
           (Z.lor (Z.shiftl (byteZ b2) 8) (byteZ b3))) :: words p'
  | _ => []
  end.

(** The message schedule: [n] more words after the words [w] (kept newest
    first), each the rotation of the exclusive or of the words 3, 8, 14 and
    16 places back. *)
Fixpoint schedule (n : nat) (w : list Z) : list Z :=
  match n with
  | O => w
  | S n' =>
      let x := Z.lxor (Z.lxor (nth 2 w 0) (nth 7 w 0))
                      (Z.lxor (nth 13 w 0) (nth 15 w 0)) in
      schedule n' (rotl 1 x :: w)
  end.

Definition round_f (i : Z) (b c d : Z) : Z :=
  if i <? 20 then Z.lor (Z.land b c) (Z.land (not32 b) d)
  else if i <? 40 then Z.lxor (Z.lxor b c) d
  else if i <? 60 then Z.lor (Z.land (Z.lor b c) d) (Z.land b c)
  else Z.lxor (Z.lxor b c) d.

Definition round_k (i : Z) : Z :=
  if i <? 20 then 0x5A827999
  else if i <? 40 then 0x6ED9EBA1
  else if i <? 60 then 0x8F1BBCDC
  else 0xCA62C1D6.

Definition state : Type := Z * Z * Z * Z * Z.

Fixpoint rounds (ws : list Z) (i : Z) (st : state) : state :=
  match ws with
  | [] => st
  | w :: ws' =>
      let '(a, b, c, d, e) := st in
      let t := w32 (rotl 5 a + round_f i b c d + e + w + round_k i) in
      rounds ws' (i + 1) (t, a, rotl 30 b, c, d)
  end.

(** One 64-byte chunk of [block]. *)
Definition block1 (h : state) (p : list byte) : state :=
  let ws := rev (schedule 64 (rev (words p))) in
  let '(h0, h1, h2, h3, h4) := h in
  let '(a, b, c, d, e) := rounds ws 0 h in
  (w32 (h0 + a), w32 (h1 + b), w32 (h2 + c), w32 (h3 + d), w32 (h4 + e)).

Fixpoint block (fuel : nat) (h : state) (p : list byte) : state :=
  match fuel with
  | O => h
  | S fuel' =>
      if len p <? 64 then h
      else block fuel' (block1 h (firstn 64 p)) (skipn 64 p)
  end.

Definition init : state :=
  (0x67452301, 0xEFCDAB89, 0x98BADCFE, 0x10325476, 0xC3D2E1F0).

(** [sha1.Sum]: the 20 bytes of the digest. *)
Definition Sum (msg : list byte) : list byte :=
  let p := pad msg in
  let '(h0, h1, h2, h3, h4) := block (List.length p) init p in
  be_bytes 4 h0 ++ be_bytes 4 h1 ++ be_bytes 4 h2 ++ be_bytes 4 h3
    ++ be_bytes 4 h4.

(** A [hash.Hash] made by [sha1.New()]: [Write] adds bytes, never fails, and
    [Sum(b)] appends to [b] the digest of all that was written. *)
Record Hash : Type := { written : list byte }.

Definition New : Hash := {| written := [] |}.

Definition Write (h : Hash) (p : list byte) : Hash :=
  {| written := written h ++ p |}.

Definition HashSum (h : Hash) (b : list byte) : list byte :=
  b ++ Sum (written h).

End sha1.

(** ** encoding/hex *)

Module hex.

Definition hextable : list ascii :=
  list_ascii_of_string "0123456789abcdef".

Definition hexdigit (z : Z) : ascii := nth (Z.to_nat z) hextable "0"%char.

(** [hex.EncodeToString] *)
Fixpoint EncodeToString (src : list byte) : string :=
  match src with
  | [] => EmptyString
  | b :: src' =>
      String (hexdigit (Z.shiftr (byteZ b) 4))
        (String (hexdigit (Z.land (byteZ b) 15)) (EncodeToString src'))
  end.

End hex.

(** ** path *)

Module path.

Definition is_slash (c : ascii) : bool := Ascii.eqb c "/"%char.
Definition is_dot (c : ascii) : bool := Ascii.eqb c "."%char.

(** True when the input ends here or continues with a slash. *)
Definition at_end (p : list ascii) : bool :=
  match p with
  | [] => true
  | c :: _ => is_slash c
  end.

(** The default case of [Clean]: copy the element up to the next slash. The
    buffer [out] is kept last byte first. *)
Fixpoint copy_elem (p out : list ascii) : list ascii * list ascii :=
  match p with
  | [] => ([], out)
  | c :: p' => if is_slash c then (p, out) else copy_elem p' (c :: out)
  end.

(** Backtracking for [..]: [out.w--] was done and gave [popped]; go on
    while [out.w > dotdot && out.index(out.w) != '/']. *)
Fixpoint backtrack (out : list ascii) (popped : ascii) (dotdot : nat)
  : list ascii :=
  match out with
  | [] => []
  | c :: out' =>
      if Nat.ltb dotdot (List.length out) && negb (is_slash popped)
      then backtrack out' c dotdot
      else out
  end.

Fixpoint clean_loop (fuel : nat) (rooted : bool) (p out : list ascii)
  (dotdot : nat) : list ascii :=
  match fuel with
  | O => out
  | S fuel' =>
      match p with
      | [] => out
      | c :: p1 =>
          if is_slash c then
            (* empty path element *)
            clean_loop fuel' rooted p1 out dotdot
          else if is_dot c && at_end p1 then
            (* . element *)
            clean_loop fuel' rooted p1 out dotdot
          else if is_dot c && negb (at_end p1) && is_dot (hd "/"%char p1)
                  && at_end (tl p1) then
            (* .. element: remove to last / *)
            let p2 := tl p1 in
            if Nat.ltb dotdot (List.length out) then
              (* can backtrack *)
              clean_loop fuel' rooted p2
                (backtrack (tl out) (hd "/"%char out) dotdot) dotdot
            else if negb rooted then
              (* cannot backtrack, but not rooted, so append .. element *)
              let out1 :=
                if Nat.ltb 0 (List.length out) then "/"%char :: out
                else out in
              let out2 := "."%char :: "."%char :: out1 in
              clean_loop fuel' rooted p2 out2 (List.length out2)
            else clean_loop fuel' rooted p2 out dotdot
          else
            (* real path element; add slash if needed *)
            let out1 :=
              if (rooted && negb (Nat.eqb (List.length out) 1))
                 || (negb rooted && negb (Nat.eqb (List.length out) 0))
              then "/"%char :: out
              else out in
            let '(p', out2) := copy_elem p out1 in
            clean_loop fuel' rooted p' out2 dotdot
      end
  end.

(** [path.Clean] *)
Definition Clean (path : string) : string :=
  match list_ascii_of_string path with
  | [] => "."%string
  | c0 :: tl0 =>
      let rooted := is_slash c0 in
      let out :=
        if rooted
        then clean_loop (S (List.length tl0)) true tl0 ["/"%char] 1
        else clean_loop (S (S (List.length tl0))) false (c0 :: tl0) [] 0 in
      match out with
      | [] => "."%string
      | _ => string_of_list_ascii (rev out)
      end
  end.

(** [strings.Join(elem, "/")] *)
Fixpoint join_slash (elem : list string) : string :=
  match elem with
  | [] => EmptyString
  | [e] => e
  | e :: elem' => (e ++ "/" ++ join_slash elem')%string
  end.

(** [path.Join]: empty elements in front are ignored, the rest is joined
    with slashes and cleaned. *)
Fixpoint Join (elem : list string) : string :=
  match elem with
  | [] => EmptyString
  | e :: elem' =>
      if String.eqb e EmptyString then Join elem'
      else Clean (join_slash elem)
  end.

End path.

(** ** Effects *)

(** An argument of [log.Printf] or [fmt.Printf]. *)
Inductive LogArg : Type :=
| L_str (s : string)
| L_err (e : error)
| L_int (z : Z).

(** What the program does to the world, in the order it does it. *)
Inductive Event : Type :=
| EvSleep (d : Z)                                   (* time.Sleep *)
| EvDial (network address : string)                 (* net.Dial *)
| EvStat (name : string)                            (* os.Stat *)
| EvGlob (pattern : string)                         (* filepath.Glob *)
| EvStart (cmd : list string)                       (* exec.Cmd.Start *)
| EvMkdirAll (name : string) (perm : Z)             (* os.MkdirAll *)
| EvWriteFile (name : string) (data : list byte) (perm : Z)
| EvConnWrite (data : list byte)                    (* fixConn.Write *)
| EvReadBytes (delim : byte)                        (* bufio ReadBytes *)
| EvMake (n : Z)                                    (* make([]byte, n) *)
| EvReadFull (n : Z)                                (* io.ReadFull *)
| EvReadByte                                        (* bufio ReadByte *)
| EvRun (timeout : Z) (cmd : list string)           (* francis.Run *)
| EvLog (format : string) (args : list LogArg).     (* package log *)

Inductive Outcome (A : Type) : Type :=
| Val (a : A)              (* the call returns *)
| Exit (code : Z)          (* os.Exit: the process ends *)
| Panic (reason : string)  (* a run-time panic *)
| OutOfFuel.               (* the bound of a loop of the model was met *)

Arguments Val {A} a.
Arguments Exit {A} code.
Arguments Panic {A} reason.
Arguments OutOfFuel {A}.

Definition M (S A : Type) : Type := S -> Outcome A * S * list Event.

Definition ret {S A : Type} (a : A) : M S A := fun s => (Val a, s, []).

(** The result of a run, after the effects [evs] that came before it. *)
Definition after {S A : Type} (evs : list Event)
  (r : Outcome A * S * list Event) : Outcome A * S * list Event :=
  let '(o, s, ev) := r in (o, s, evs ++ ev).

(** Sequencing: [k] runs when [m] returns; an exit or a panic ends it. *)
Definition bind {S A B : Type} (m : M S A) (k : A -> M S B) : M S B :=
  fun s =>
    match m s with
    | (Val a, s1, ev1) => after ev1 (k a s1)
    | (Exit c, s1, ev1) => (Exit c, s1, ev1)
    | (Panic r, s1, ev1) => (Panic r, s1, ev1)
    | (OutOfFuel, s1, ev1) => (OutOfFuel, s1, ev1)
    end.

Declare Scope go_scope.
Delimit Scope go_scope with go.

Notation "x <- m ;; k" := (bind m (fun x => k))
  (at level 61, m at next level, right associativity) : go_scope.
Notation "' pat <- m ;; k" :=
  (bind m (fun x => match x with pat => k end))
  (at level 61, pat pattern, m at next level, right associativity) : go_scope.
Notation "m ;; k" := (bind m (fun _ => k))
  (at level 61, right associativity) : go_scope.

Open Scope go_scope.

Definition emit {S : Type} (e : Event) : M S unit :=
  fun s => (Val tt, s, [e]).

Definition get {S : Type} : M S S := fun s => (Val s, s, []).

Definition put {S : Type} (s : S) : M S unit := fun _ => (Val tt, s, []).

Definition os_Exit {S A : Type} (code : Z) : M S A :=
  fun s => (Exit code, s, []).

Definition panic {S A : Type} (reason : string) : M S A :=
  fun s => (Panic reason, s, []).

(** [log.Printf] *)
Definition log_Printf {S : Type} (format : string) (args : list LogArg)
  : M S unit :=
  emit (EvLog format args).

(** [log.Fatalf]: [Printf], then [os.Exit(1)]. *)
Definition log_Fatalf {S A : Type} (format : string) (args : list LogArg)
  : M S A :=
  emit (EvLog format args) ;; os_Exit 1.

(** ** Readers *)

(** A [bufio.Reader] over a connection: the bytes the peer sends that were
    not read yet, and the error a read meets when they are used up
    ([io.EOF] when the peer closed the connection). *)
Record Reader : Type := { unread : list byte; at_end : error }.

Definition set_unread (r : Reader) (u : list byte) : Reader :=
  {| unread := u; at_end := at_end r |}.

(** The bytes up to and with the first [delim], and the rest. *)
Fixpoint cut (delim : byte) (u : list byte)
  : option (list byte * list byte) :=
  match u with
  | [] => None
  | b :: u' =>
      if Byte.eqb b delim then Some ([b], u')
      else match cut delim u' with
           | Some (line, rest) => Some (b :: line, rest)
           | None => None
           end
  end.

(** [ReadBytes] of a [bufio.Reader]: when the data ends before the delimiter,
    what was read is returned with the error. *)
Definition ReadBytes (delim : byte) : M Reader (list byte * option error) :=
  r <- get ;;
  emit (EvReadBytes delim) ;;
  match cut delim (unread r) with
  | Some (line, rest) => put (set_unread r rest) ;; ret (line, None)
  | None => put (set_unread r []) ;; ret (unread r, Some (at_end r))
  end.

(** [make([]byte, n)]: panics when [n] is negative. *)
Definition make_bytes {S : Type} (n : Z) : M S (list byte) :=
  emit (EvMake n) ;;
  if n <? 0 then panic "makeslice: len out of range"
  else ret (repeat x00 (Z.to_nat n)).

(** [io.ReadFull(r, buf)]: fills [buf]; with nothing to fill nothing is
    read; fewer bytes than [len(buf)] is an error. Returns the buffer as
    the call leaves it. *)
Definition io_ReadFull (buf : list byte)
  : M Reader (list byte * Z * option error) :=
  r <- get ;;
  emit (EvReadFull (len buf)) ;;
  if len buf =? 0 then ret (buf, 0, None)
  else if len buf <=? len (unread r) then
    put (set_unread r (skipn (List.length buf) (unread r))) ;;
    ret (firstn (List.length buf) (unread r), len buf, None)
  else
    put (set_unread r []) ;;
    ret (unread r ++ skipn (List.length (unread r)) buf, len (unread r),
         Some (match unread r, at_end r with
               | [], e => e
               | _, io_EOF => io_ErrUnexpectedEOF
               | _, e => e
               end)).

(** [ReadByte] of a [bufio.Reader] *)
Definition ReadByte : M Reader (byte * option error) :=
  r <- get ;;
  emit EvReadByte ;;
  match unread r with
  | b :: rest => put (set_unread r rest) ;; ret (b, None)
  | [] => ret (x00, Some (at_end r))
  end.

(** ** The netstring codec *)

Definition strconv_error (e : option strconv.Err) : bool :=
  match e with
  | Some _ => true
  | None => false
  end.

(** [readNetString] *)
Definition readNetString : M Reader (list byte * option error) :=
  '(lenBytes, err) <- ReadBytes ":"%byte ;;
  match err with
  | Some e => ret ([], Some e)
  | None =>
      let '(i, perr) := strconv.ParseInt (removelast lenBytes) 0 in
      let dataLen := i in (* 0 on error, safe to check this first *)
      if dataLen >? MAXLEN then
        ret ([], Some (Errorf "Proposed Length > MAXLEN" []))
      else if strconv_error perr then
        ret ([], Some (Errorf "Error Parsing Length %#v" [lenBytes]))
      else
        data <- make_bytes dataLen ;;
        '(data, _, err) <- io_ReadFull data ;;
        match err with
        | Some _ => ret ([], Some (Errorf "Error reading data" []))
        | None =>
            '(b, err) <- ReadByte ;;
            match err with
            | Some _ => ret ([], Some (Errorf "Missing terminator" []))
            | None =>
                if negb (Byte.eqb b ","%byte)
                then ret ([], Some (Errorf "Missing terminator" []))
                else ret (data, None)
            end
        end
  end.

(** [fmt.Sprintf("%d:%s,", len(t), string(t))], as bytes. *)
Definition netstring (t : list byte) : list byte :=
  strconv.FormatInt (len t) ++ ":"%byte :: t ++ [","%byte].

(** [fixTest]: [conn] is the connection [rd] reads from; the result of
    [conn.Write] is not looked at. *)
Definition fixTest (t : list byte) : M Reader (list byte * option error) :=
  let s := netstring t in
  emit (EvConnWrite s) ;;
  '(fixed, err) <- readNetString ;;
  match err with
  | Some e => ret ([], Some e)
  | None => ret (fixed, None)
  end.

Definition mkReader (u : list byte) : Reader :=
  {| unread := u; at_end := io_EOF |}.

(** ** [hex.Dump] *)

Definition nl : string := String "010"%char EmptyString.

Definition toChar (b : byte) : ascii :=
  if (byteZ b <? 32) || (byteZ b >? 126) then "."%char else ascii_of_byte b.

(** One cell of a line of the dump: two characters, a space, one more space
    after the 8th cell, and a space and a bar after the 16th. *)
Definition dump_cell (used : Z) (body : string) : string :=
  (body ++ (if (used =? 7)%Z then "  "
            else if (used =? 15)%Z then "  |"
            else " "))%string.

Fixpoint dump_cells (n : nat) (used : Z) (line : list byte) : string :=
  match n with
  | O => EmptyString
  | S n' =>
      match line with
      | b :: line' =>
          (dump_cell used (hex.EncodeToString [b])
             ++ dump_cells n' (used + 1) line')%string
      | [] => (dump_cell used "  " ++ dump_cells n' (used + 1) [])%string
      end
  end.

Fixpoint dump_lines (fuel : nat) (off : Z) (data : list byte) : string :=
  match fuel with
  | O => EmptyString
  | S fuel' =>
      match data with
      | [] => EmptyString
      | _ =>
          let line := firstn 16 data in
          (hex.EncodeToString (sha1.be_bytes 4 off) ++ "  "
             ++ dump_cells 16 0 line
             ++ string_of_list_ascii (map toChar line) ++ "|" ++ nl
             ++ dump_lines fuel' (off + 16) (skipn 16 data))%string
      end
  end.

(** [hex.Dump]: it returns the dump as a string and writes nothing. *)
Definition hex_Dump (data : list byte) : string :=
  dump_lines (List.length data) 0 data.

(** ** The program *)

(** The command line. [args] is [flag.Args()], the target's command. *)
Record Flags : Type := {
  prog : string;          (* os.Args[0] *)
  flagFn : string;        (* -fn, ".cur_input" when not given *)
  flagDestDir : string;   (* -dest *)
  flagSrcDir : string;    (* -src *)
  flagServer : string;    (* -server *)
  flagFix : string;       (* -fix *)
  flagTimeout : Z;        (* -t, -1 when not given *)
  args : list string
}.

(** A connection as its reader sees it: the chunks of data that successive
    reads deliver, and how the stream ends: with [io.EOF] ([None]) or with
    an error. *)
Record Conn : Type := {
  conn_data : list (list byte);
  conn_err : option error
}.

(** [os.FileInfo], as far as the program looks at it. *)
Record FileInfo : Type := { IsDir : bool }.

(** What [francis.Run] returns with a nil error, as far as the program
    looks at it: the field [Extra], a slice of strings. *)
Record Info : Type := { Extra : list string }.

(** The environment: what the [k]-th call to the outside answers. *)
Record Env : Type := {
  env_Dial : nat -> string -> string -> Conn + error;
  env_Stat : nat -> string -> FileInfo + error;
  env_Glob : nat -> string -> list string;
  env_Start : nat -> list string -> option error;
  env_MkdirAll : nat -> string -> Z -> option error;
  env_WriteFile : nat -> string -> list byte -> Z -> option error;
  env_Run : nat -> Z -> list string -> Info * option error
}.

(** The state of the process: how many calls went outside, the reader of
    the fixer's connection ([None] when [fixConn] is nil), and [count]. *)
Record St : Type := {
  tick : nat;
  fixReader : option Reader;
  count : Z
}.

(** The file modes [0600] and [0700]. *)
Definition perm_0600 : Z := 6 * 64.
Definition perm_0700 : Z := 7 * 64.

Definition Millisecond : Z := 1000000.
Definition Second : Z := 1000000000.

Section Program.

Variable fl : Flags.
Variable env : Env.

(** A call to the outside: the oracle answers and the call is recorded. *)
Definition ask {A : Type} (answer : nat -> A) (e : Event) : M St A :=
  fun s =>
    (Val (answer (tick s)),
     {| tick := S (tick s); fixReader := fixReader s; count := count s |},
     [e]).

Definition net_Dial (network address : string) : M St (Conn + error) :=
  ask (fun k => env_Dial env k network address) (EvDial network address).

Definition ioutil_WriteFile (name : string) (data : list byte) (perm : Z)
  : M St (option error) :=
  ask (fun k => env_WriteFile env k name data perm)
      (EvWriteFile name data perm).

Definition francis_Run (timeout : Z) (cmd : list string)
  : M St (Info * option error) :=
  ask (fun k => env_Run env k timeout cmd) (EvRun timeout cmd).

Definition time_Sleep (d : Z) : M St unit := emit (EvSleep d).

(** The loop of [sleepyConnect]; [fuel] bounds its turns. *)
Fixpoint sleepyConnect_loop (fuel : nat) (dest : string) (zzz : Z)
  : M St (option Conn * option error) :=
  match fuel with
  | O => fun s => (OutOfFuel, s, [])
  | S fuel' =>
      if zzz >? 1 * Second then
        ret (None, Some (Errorf "connection to server timed out." []))
      else
        time_Sleep zzz ;;
        r <- net_Dial "tcp" dest ;;
        match r with
        | inl c => ret (Some c, None)
        | inr _ => sleepyConnect_loop fuel' dest (strconv.wrap_int64 (zzz * 2))
        end
  end.

(** [sleepyConnect] *)
Definition sleepyConnect (dest : string) : M St (option Conn * option error) :=
  sleepyConnect_loop 64 dest (1 * Millisecond).

(** [ioutil.ReadAll(io.TeeReader(conn, hsh))]: every chunk read is written
    to the hash and added to the result. *)
Fixpoint ReadAll_tee (chunks : list (list byte)) (hsh : sha1.Hash)
  (acc : list byte) : list byte * sha1.Hash :=
  match chunks with
  | [] => (acc, hsh)
  | p :: chunks' => ReadAll_tee chunks' (sha1.Write hsh p) (acc ++ p)
  end.

(** [ioutil.ReadAll(conn)] *)
Definition ioutil_ReadAll (conn : Conn) : list byte * option error :=
  (List.concat (conn_data conn), conn_err conn).

(** [getTest] *)
Definition getTest : M St (list byte * list byte) :=
  r <- net_Dial "tcp" "127.0.0.1:4141" ;;
  match r with
  | inr e =>
      log_Fatalf "[SAD] Unable to connect to radamsa server: %s" [L_err e]
  | inl conn =>
      let hsh := sha1.New in
      let '(raw, hsh) := ReadAll_tee (conn_data conn) hsh [] in
      match conn_err conn with
      | Some e => log_Fatalf "[SAD] Error reading from server: %s" [L_err e]
      | None => ret (raw, sha1.HashSum hsh [])
      end
  end.

(** [stageTest] *)
Definition stageTest (raw : list byte) : M St unit :=
  err <- ioutil_WriteFile (path.Join [flagDestDir fl; flagFn fl]) raw perm_0600 ;;
  match err with
  | Some e => log_Fatalf "[SAD] failed to create test file: %s" [L_err e]
  | None => ret tt
  end.

(** [saveTest]. The string [hex.Dump] returns is not used. *)
Definition saveTest (fn : string) (raw : list byte) : M St unit :=
  err <- ioutil_WriteFile (path.Join [flagDestDir fl; "crashes"; fn]%string)
           raw perm_0600 ;;
  match err with
  | Some e =>
      log_Printf ("[SUPER SAD] failed to write crashfile!: %s" ++ nl)
        [L_err e] ;;
      let _ := hex_Dump raw in
      log_Fatalf ("[SUPER SAD] (that hexdump was the last test)" ++ nl) []
  | None => ret tt
  end.

(** [fixTest(test, fixConn, fixReader)] run on the reader of the state. *)
Definition with_fixReader {A : Type} (m : M Reader A) : M St A :=
  fun s =>
    match fixReader s with
    | None => (Panic "invalid memory address or nil pointer dereference", s, [])
    | Some r =>
        let '(o, r', ev) := m r in
        (o, {| tick := tick s; fixReader := Some r'; count := count s |}, ev)
    end.

Definition incr_count : M St unit :=
  fun s =>
    (Val tt,
     {| tick := tick s; fixReader := fixReader s;
        count := strconv.wrap_int64 (count s + 1) |},
     []).

(** One turn of the [for] loop of [main]. [testCmd] is the target's command
    with the markers replaced. Both [continue] and the end of the body
    return. *)
Definition iteration (testCmd : list string) : M St unit :=
  '(test, sha) <- getTest ;;
  if len test >? MAXLEN then ret tt
  else
    fixConn <- (s <- get ;; ret (fixReader s)) ;;
    test <- match fixConn with
            | Some _ =>
                '(test, err) <- with_fixReader (fixTest test) ;;
                match err with
                | Some e => log_Fatalf "[SAD] failed to fix test: %s" [L_err e]
                | None => ret test
                end
            | None => ret test
            end ;;
    stageTest test ;;
    incr_count ;;
    '(ci, err) <- francis_Run (flagTimeout fl) testCmd ;;
    match err with
    | None =>
        match Extra ci with
        | [] => panic "index out of range"
        | extra0 :: _ =>
            log_Printf "[HAPPY] Crash! - %s" [L_str extra0] ;;
            saveTest (hex.EncodeToString sha ++ ".raw")%string test
        end
    | Some _ => ret tt
    end.

(** The first [n] turns of the loop, which itself has no end. *)
Fixpoint main_loop (n : nat) (testCmd : list string) : M St unit :=
  match n with
  | O => ret tt
  | S n' => iteration testCmd ;; main_loop n' testCmd
  end.

(** *** Startup *)

Definition os_Stat (name : string) : M St (FileInfo + error) :=
  ask (fun k => env_Stat env k name) (EvStat name).

Definition filepath_Glob (pattern : string) : M St (list string) :=
  ask (fun k => env_Glob env k pattern) (EvGlob pattern).

Definition exec_Start (cmd : list string) : M St (option error) :=
  ask (fun k => env_Start env k cmd) (EvStart cmd).

Definition os_MkdirAll (name : string) (perm : Z) : M St (option error) :=
  ask (fun k => env_MkdirAll env k name perm) (EvMkdirAll name perm).

(** [strings.Join(elem, " ")] *)
Fixpoint join_space (elem : list string) : string :=
  match elem with
  | [] => EmptyString
  | [e] => e
  | e :: elem' => (e ++ " " ++ join_space elem')%string
  end.

(** Lines 160 to 187 of [main]: the address of the generator, after the
    checks of the corpus and the start of a local radamsa when [-src] is
    given. *)
Definition start_generator : M St string :=
  if len (list_byte_of_string (flagSrcDir fl)) >? 0 then
    r <- os_Stat (flagSrcDir fl) ;;
    match r with
    | inr e => log_Fatalf "[SAD] unable to open -src dir: %s" [L_err e]
    | inl fi =>
        if negb (IsDir fi) then log_Fatalf "[SAD] -src is not a directory." []
        else
          files <- filepath_Glob (path.Join [flagSrcDir fl; "*"]%string) ;;
          (if len files <? 1
           then log_Printf ("[WARNING] no files in source directory!" ++ nl) []
           else ret tt) ;;
          log_Printf ("[HAPPY] source dir looks ok..." ++ nl) [] ;;
          err <- exec_Start
                   ["radamsa"; "-n"; "inf"; "-o"; ":4141"; "-r";
                    flagSrcDir fl]%string ;;
          match err with
          | Some e =>
              log_Fatalf "[SAD] Unable to launch radamsa server: %s" [L_err e]
          | None => ret "127.0.0.1:4141"%string
          end
    end
  else ret (flagServer fl).

(** Lines 189 to 197: connect to the generator and read what it sends until
    it closes the connection. *)
Definition check_generator (srvAddr : string) : M St unit :=
  '(conn, err) <- sleepyConnect srvAddr ;;
  match err, conn with
  | Some e, _ =>
      log_Fatalf "[SAD] Unable to connect to radamsa server: %s" [L_err e]
  | None, None =>
      panic "invalid memory address or nil pointer dereference"
  | None, Some c =>
      let '(_, err) := ioutil_ReadAll c in
      match err with
      | Some e => log_Fatalf "[SAD] Error reading from server: %s" [L_err e]
      | None => log_Printf ("[HAPPY] radamsa server is running..." ++ nl) []
      end
  end.

(** Lines 199 to 215: the destination directory. *)
Definition check_dest : M St unit :=
  r <- os_Stat (flagDestDir fl) ;;
  match r with
  | inl fi =>
      if negb (IsDir fi) then log_Fatalf "[SAD] -dest is not a directory." []
      else ret tt
  | inr _ =>
      (* Make the crashdir at the same time *)
      err <- os_MkdirAll (path.Join [flagDestDir fl; "crashes"]%string)
               perm_0700 ;;
      match err with
      | Some e => log_Fatalf "[SAD] failed to create -dest: %s" [L_err e]
      | None => ret tt
      end
  end ;;
  err <- ioutil_WriteFile (path.Join [flagDestDir fl; flagFn fl])
           (bytes_of "test") perm_0600 ;;
  match err with
  | Some e => log_Fatalf "[SAD] failed to create test file: %s" [L_err e]
  | None => log_Printf ("[HAPPY] dest dir looks ok..." ++ nl) []
  end.

(** Lines 217 to 224: every [@@] becomes the path of the staged file. *)
Fixpoint substitute (testCmd : list string) : list string * Z :=
  match testCmd with
  | [] => ([], 0)
  | elem :: testCmd' =>
      let '(cmd, sub) := substitute testCmd' in
      if String.eqb elem "@@"
      then (path.Join [flagDestDir fl; flagFn fl] :: cmd, sub + 1)
      else (elem :: cmd, sub)
  end.

(** Lines 230 to 239: the connection to the fixer, when [-fix] is given. *)
Definition reader_of (c : Conn) : Reader :=
  {| unread := List.concat (conn_data c);
     at_end := match conn_err c with
               | Some e => e
               | None => io_EOF
               end |}.

Definition dial_fixer : M St unit :=
  if negb (String.eqb (flagFix fl) "") then
    r <- net_Dial "unix" (flagFix fl) ;;
    match r with
    | inr e => log_Fatalf "[SAD] Unable to dial fix socket: %s" [L_err e]
    | inl c =>
        s <- get ;;
        put {| tick := tick s; fixReader := Some (reader_of c);
               count := count s |}
    end
  else ret tt.

(** [main], with the first [n] turns of its loop. The reporter it starts
    only reads [count] and the clock. *)
Definition main (n : nat) : M St unit :=
  log_Printf ("%s - performing startup checks..." ++ nl) [L_str (prog fl)] ;;
  let testCmd := args fl in
  if len testCmd <? 2 then
    log_Fatalf ("[SAD] Minimum target command is: /path/to/target @@" ++ nl) []
  else if negb (len (list_byte_of_string (flagServer fl)) =? 0)
          && negb (len (list_byte_of_string (flagSrcDir fl)) =? 0) then
    log_Fatalf ("[SAD] -src and -server cannot be used together." ++ nl) []
  else if (len (list_byte_of_string (flagServer fl)) =? 0)
          && (len (list_byte_of_string (flagSrcDir fl)) =? 0) then
    log_Fatalf
      ("[SAD] need a corpus directory (-src) or a radamsa server address (-server)"
         ++ nl) []
  else
    srvAddr <- start_generator ;;
    check_generator srvAddr ;;
    check_dest ;;
    let '(testCmd, sub) := substitute testCmd in
    if sub =? 0 then
      log_Fatalf "[SAD] No substitute markers ( @@ ) in supplied command" []
    else
      log_Printf ("[CALM] Will be fuzzing: %s" ++ nl)
        [L_str (join_space testCmd)] ;;
      dial_fixer ;;
      log_Printf ("[HAPPY] everything looks good. Let's go!" ++ nl) [] ;;
      main_loop n testCmd.

End Program.

(** The state in which [main] starts. *)
Definition St0 : St := {| tick := 0; fixReader := None; count := 0 |}.


(** ** Vocabulary of the statements *)

(** A decimal digit, [0] to [9]. *)
Definition is_digit (b : byte) : Prop := 48 <= byteZ b <= 57.

(** The number a string of digits writes, read after the number [n]. *)
Definition decimal_from (n : Z) (ds : list byte) : Z :=
  fold_left (fun a b => a * 10 + (byteZ b - 48)) ds n.

Definition decimal (ds : list byte) : Z := decimal_from 0 ds.

(** The state after [k] more calls to the outside. *)
Definition advance (k : nat) (s : St) : St :=
  {| tick := k + tick s; fixReader := fixReader s; count := count s |}.

(** [n] attempts to connect, the first after a sleep of [zzz], each later
    one after twice the sleep before. *)
Fixpoint attempts (n : nat) (dest : string) (zzz : Z) : list Event :=
  match n with
  | O => []
  | S n' => EvSleep zzz :: EvDial "tcp" dest :: attempts n' dest (2 * zzz)
  end.

(** The sleeps among some effects, and the time they take together. *)
Fixpoint sleeps (evs : list Event) : list Z :=
  match evs with
  | [] => []
  | EvSleep d :: evs' => d :: sleeps evs'
  | _ :: evs' => sleeps evs'
  end.

Definition total_sleep (evs : list Event) : Z :=
  fold_right Z.add 0 (sleeps evs).

(** How many times some effects dial. *)
Fixpoint dials (evs : list Event) : nat :=
  match evs with
  | [] => O
  | EvDial _ _ :: evs' => S (dials evs')
  | _ :: evs' => dials evs'
  end.

Definition timed_out : option Conn * option error :=
  (None, Some (Errorf "connection to server timed out." [])).

(** The path of the staged file and of the crash record of a digest. *)
Definition staged_path (fl : Flags) : string :=
  path.Join [flagDestDir fl; flagFn fl].

Definition crash_path (fl : Flags) (sha : list byte) : string :=
  path.Join [flagDestDir fl; "crashes"; hex.EncodeToString sha ++ ".raw"]%string.

(** The state after [count++]. *)
Definition counted (s : St) : St :=
  {| tick := tick s; fixReader := fixReader s;
     count := strconv.wrap_int64 (count s + 1) |}.

(** The step of the loop between fetching and staging, when it goes on to
    staging: without a fixer the candidate stays as it is; with a fixer,
    [fixTest] returns another candidate and no error. In [fix_step s raw
    test s' evf], [test] is the candidate to stage, [s'] the state and
    [evf] the effects of the step. *)
Inductive fix_step (s : St) (raw : list byte)
  : list byte -> St -> list Event -> Prop :=
| fix_step_none :
    fixReader s = None -> fix_step s raw raw s []
| fix_step_fixed (r r' : Reader) (fixed : list byte) (evf : list Event) :
    fixReader s = Some r ->
    fixTest raw r = (Val (fixed, None), r', evf) ->
    fix_step s raw fixed
      {| tick := tick s; fixReader := Some r'; count := count s |} evf.

(** A write of at most [MAXLEN] bytes, or an effect that is no write. *)
Definition small_write (e : Event) : Prop :=
  match e with
  | EvWriteFile _ data _ => len data <= MAXLEN
  | _ => True
  end.

(** A computation all of whose effects satisfy [P] and whose value, when it
    returns one, satisfies [Q], from every state. *)
Definition sat {S A : Type} (P : Event -> Prop) (Q : A -> Prop) (m : M S A)
  : Prop :=
  forall s, Forall P (snd (m s)) /\ forall a, fst (fst (m s)) = Val a -> Q a.

(** Environments for examples: the network answers by address, the file
    system by file name, the target always the same; directories exist. *)
Definition env_of (dial : string -> string -> Conn + error)
  (write : string -> option error) (run : Info * option error) : Env :=
  {| env_Dial := fun _ network address => dial network address;
     env_Stat := fun _ _ => inl {| IsDir := true |};
     env_Glob := fun _ _ => [];
     env_Start := fun _ _ => None;
     env_MkdirAll := fun _ _ _ => None;
     env_WriteFile := fun _ name _ _ => write name;
     env_Run := fun _ _ _ => run |}.

Definition sends (data : list byte) : Conn + error :=
  inl {| conn_data := [data]; conn_err := None |}.

Definition refused : Conn + error := inr (SysError "connection refused").

Definition crashes_with (extra0 : string) : Info * option error :=
  ({| Extra := [extra0] |}, None).

Definition no_crash : Info * option error :=
  ({| Extra := [] |}, Some (SysError "no crash detected")).

(** Flags with a remote generator and a fixer; the generator sends [A], the
    fixer answers [4:AAAA,] in two pieces, and the target crashes. *)
Definition demo_flags : Flags :=
  {| prog := "terry"; flagFn := ".cur_input"; flagDestDir := "work";
     flagSrcDir := ""; flagServer := "192.168.1.1:4141";
     flagFix := "/tmp/fix.sock"; flagTimeout := -1;
     args := ["target"; "@@"]%string |}.

Definition demo_env : Env :=
  env_of
    (fun network _ =>
       if String.eqb network "unix"
       then inl {| conn_data := [bytes_of "4:AA"; bytes_of "AA,"];
                   conn_err := None |}
       else sends (bytes_of "A"))
    (fun _ => None) (crashes_with "SIGSEGV").

(** The same flags without a fixer, where only the remote generator listens
    and nothing listens on this machine. *)
Definition remote_flags : Flags :=
  {| prog := "terry"; flagFn := ".cur_input"; flagDestDir := "work";
     flagSrcDir := ""; flagServer := "192.168.1.1:4141";
     flagFix := ""; flagTimeout := -1;
     args := ["target"; "@@"]%string |}.

Definition remote_env : Env :=
  env_of
    (fun _ address =>
       if String.eqb address "192.168.1.1:4141" then sends (bytes_of "A")
       else refused)
    (fun _ => None) (crashes_with "SIGSEGV").

(** An environment in which no address accepts a connection. *)
Definition refusing_env : Env :=
  env_of (fun _ _ => refused) (fun _ => None) no_crash.

(** The generator sends three bytes, the target crashes, and only the
    staged file can be written: there is no directory [crashes]. *)
Definition readonly_env : Env :=
  env_of (fun _ _ => sends [x00; x01; x02])
    (fun name =>
       if String.eqb name "work/.cur_input" then None
       else Some (SysError "no such file or directory"))
    (crashes_with "SIGSEGV").

(** A generator that sends one byte more than [MAXLEN]. *)
Definition flood : list byte := repeat x00 (Z.to_nat (MAXLEN + 1)).

Definition flood_conn : Conn := {| conn_data := [flood]; conn_err := None |}.

Definition flood_env : Env :=
  env_of (fun _ _ => inl flood_conn) (fun _ => None)
    (crashes_with "SIGSEGV").

(** The effects of the fixer client: a write to the connection, and what
    [readNetString] does. *)
Definition fixer_event (e : Event) : Prop :=
  match e with
  | EvConnWrite _ | EvReadBytes _ | EvMake _ | EvReadFull _ | EvReadByte =>
      True
  | _ => False
  end.

(** The files written by some effects, with the bytes written, in order. *)
Fixpoint writes (evs : list Event) : list (string * list byte) :=
  match evs with
  | [] => []
  | EvWriteFile name data _ :: evs' => (name, data) :: writes evs'
  | _ :: evs' => writes evs'
  end.

(** The state of a process whose fixer has the answer [4:AAAA,] ready. *)
Definition fixer_state : St :=
  {| tick := 0; fixReader := Some (mkReader (bytes_of "4:AAAA,"));
     count := 0 |}.

(** A path element that [Clean] keeps as it is: not empty, without a slash,
    and neither [.] nor [..]. *)
Definition no_slash (c : list ascii) : Prop :=
  Forall (fun a => path.is_slash a = false) c.

Definition plain_elem (c : list ascii) : Prop :=
  c <> [] /\ no_slash c /\ c <> ["."%char] /\ c <> ["."%char; "."%char].

(** Elements joined by slashes. *)
Fixpoint join_elems (elems : list (list ascii)) : list ascii :=
  match elems with
  | [] => []
  | [c] => c
  | c :: elems' => c ++ "/"%char :: join_elems elems'
  end.

(** A directory written as plain elements joined by slashes, after a slash
    when it is rooted: [work], [/path/to/workdir]. *)
Definition plain_dir (dest : string) : Prop :=
  exists (rooted : bool) (elems : list (list ascii)),
    elems <> [] /\ Forall plain_elem elems
    /\ list_ascii_of_string dest
       = (if rooted then ["/"%char] else []) ++ join_elems elems.

(** Bytes among which there is no colon. *)
Definition no_colon (u : list byte) : Prop :=
  Forall (fun b => Byte.eqb b ":"%byte = false) u.

(** How many times some effects run the target. *)
Fixpoint runs (evs : list Event) : nat :=
  match evs with
  | [] => O
  | EvRun _ _ :: evs' => S (runs evs')
  | _ :: evs' => runs evs'
  end.

(** A computation that, from every state in which [I] holds, ends in a
    state in which [I] holds, with effects that all satisfy [P] and, when
    it returns, a value that satisfies [Q]. *)
Definition keeps {A : Type} (I : St -> Prop) (P : Event -> Prop)
  (Q : A -> Prop) (m : M St A) : Prop :=
  forall s, I s ->
    I (snd (fst (m s))) /\ Forall P (snd (m s))
    /\ forall a, fst (fst (m s)) = Val a -> Q a.

(** An effect that is not a run of the target. *)
Definition not_run (e : Event) : Prop :=
  match e with
  | EvRun _ _ => False
  | _ => True
  end.

(** Computations that do not run the target and leave [count] as it is. *)
Definition quiet {A : Type} (m : M St A) : Prop :=
  forall c, keeps (fun s => count s = c) not_run (fun _ => True) m.

(** What a turn of the loop does, seen from [count] and the runs of the
    target: either the target is not run and [count] stays, or the staged
    file is written, the target is run once, right after, and [count] is
    one more. *)
Definition turn_like (fl : Flags) (cmd : list string) (m : M St unit)
  : Prop :=
  forall s,
    (runs (snd (m s)) = O /\ count (snd (fst (m s))) = count s)
    \/ (exists pre test tail,
           snd (m s)
           = pre ++ EvWriteFile (staged_path fl) test perm_0600
                 :: EvRun (flagTimeout fl) cmd :: tail
           /\ runs pre = O /\ runs tail = O
           /\ count (snd (fst (m s))) = strconv.wrap_int64 (count s + 1)).

(** Every run of the target among some effects comes right after a write
    of the file [p]; [prev] is the effect before the first of them. *)
Fixpoint runs_follow (p : string) (prev : option Event) (evs : list Event)
  : Prop :=
  match evs with
  | [] => True
  | e :: evs' =>
      match e with
      | EvRun _ _ =>
          match prev with
          | Some (EvWriteFile name _ _) => name = p
          | _ => False
          end
      | _ => True
      end
      /\ runs_follow p (Some e) evs'
  end.

(** An effect on the fixer: the connection to its socket, or a write to or
    a read from that connection. *)
Definition fixer_contact (e : Event) : Prop :=
  match e with
  | EvDial network _ => network = "unix"%string
  | _ => fixer_event e
  end.

(** An effect that creates no directory. *)
Definition not_mkdir (e : Event) : Prop :=
  match e with
  | EvMkdirAll _ _ => False
  | _ => True
  end.

(** The command of the target after the loop of lines 219 to 224, as one
    expression: each marker is the path of the staged file, every other
    element is as given. *)
Definition substituted (fl : Flags) (testCmd : list string) : list string :=
  map (fun elem => if String.eqb elem "@@" then staged_path fl else elem)
    testCmd.

(** A run of the target with the timeout of the flags and the substituted
    command, or an effect that is no run. *)
Definition runs_target (fl : Flags) (e : Event) : Prop :=
  match e with
  | EvRun timeout cmd =>
      timeout = flagTimeout fl /\ cmd = substituted fl (args fl)
  | _ => True
  end.

(** * Checks of the model on examples *)

Example ParseInt_42 : strconv.ParseInt (bytes_of "42") 0 = (42, None).
Proof. reflexivity. Qed.

Example ParseInt_minus5 : strconv.ParseInt (bytes_of "-5") 0 = (-5, None).
Proof. reflexivity. Qed.

Example ParseInt_syntax :
  strconv.ParseInt (bytes_of "4x2") 0 = (0, Some strconv.ErrSyntax).
Proof. reflexivity. Qed.

Example ParseInt_range :
  strconv.ParseInt (bytes_of "9223372036854775808") 0
  = (9223372036854775807, Some strconv.ErrRange).
Proof. vm_compute. reflexivity. Qed.

Example ParseInt_range_neg :
  strconv.ParseInt (bytes_of "-99999999999999999999999") 0
  = (-9223372036854775808, Some strconv.ErrRange).
Proof. vm_compute. reflexivity. Qed.

Example FormatInt_maxlen : strconv.FormatInt MAXLEN = bytes_of "10485760".
Proof. vm_compute. reflexivity. Qed.

Example sha1_abc :
  hex.EncodeToString (sha1.Sum (bytes_of "abc"))
  = "a9993e364706816aba3e25717850c26c9cd0d89d"%string.
Proof. vm_compute. reflexivity. Qed.

Example sha1_empty :
  hex.EncodeToString (sha1.Sum [])
  = "da39a3ee5e6b4b0d3255bfef95601890afd80709"%string.
Proof. vm_compute. reflexivity. Qed.

Example sha1_two_blocks :
  hex.EncodeToString (sha1.Sum (bytes_of
    "abcdbcdecdefdefgefghfghighijhijkijkljklmklmnlmnomnopnopq"))
  = "84983e441c3bd26ebaae4aa1f95129e5e54670f1"%string.
Proof. vm_compute. reflexivity. Qed.

Example path_Join_plain :
  path.Join ["work"; "crashes"; "x.raw"]%string = "work/crashes/x.raw"%string.
Proof. reflexivity. Qed.

Example path_Join_empty_dest :
  path.Join [""; "crashes"; "x.raw"]%string = "crashes/x.raw"%string.
Proof. reflexivity. Qed.

Example path_Join_dots :
  path.Join ["/a/./b/../c//"; ".cur_input"]%string = "/a/c/.cur_input"%string.
Proof. reflexivity. Qed.

Example path_Clean_updir :
  path.Clean "../../a/../../b" = "../../../b"%string.
Proof. reflexivity. Qed.

Example path_Clean_root : path.Clean "/../a/.." = "/"%string.
Proof. reflexivity. Qed.

Example readNetString_hello :
  readNetString (mkReader (bytes_of "5:hello,rest"))
  = (Val (bytes_of "hello", None), mkReader (bytes_of "rest"),
     [EvReadBytes ":"%byte; EvMake 5; EvReadFull 5; EvReadByte]).
Proof. reflexivity. Qed.

Example readNetString_empty :
  readNetString (mkReader (bytes_of "0:,"))
  = (Val ([], None), mkReader [],
     [EvReadBytes ":"%byte; EvMake 0; EvReadFull 0; EvReadByte]).
Proof. reflexivity. Qed.

Example readNetString_no_terminator :
  readNetString (mkReader (bytes_of "5:hello."))
  = (Val ([], Some (Errorf "Missing terminator" [])), mkReader [],
     [EvReadBytes ":"%byte; EvMake 5; EvReadFull 5; EvReadByte]).
Proof. reflexivity. Qed.

Example readNetString_negative :
  readNetString (mkReader (bytes_of "-5:hello,"))
  = (Panic "makeslice: len out of range", mkReader (bytes_of "hello,"),
     [EvReadBytes ":"%byte; EvMake (-5)]).
Proof. reflexivity. Qed.

Example hex_Dump_3 :
  hex_Dump [x00; x01; x02]
  = ("00000000  00 01 02                                          |...|"
       ++ nl)%string.
Proof. reflexivity. Qed.

Example hex_Dump_17 :
  hex_Dump (bytes_of "0123456789abcdefg")
  = ("00000000  30 31 32 33 34 35 36 37  38 39 61 62 63 64 65 66  |0123456789abcdef|"
       ++ nl ++
     "00000010  67                                                |g|"
       ++ nl)%string.
Proof. reflexivity. Qed.

(** The scenarios of a turn of the loop without a fixer. *)

Example turn_without_crash :
  iteration remote_flags
    (env_of (fun _ _ => sends (bytes_of "ABCD")) (fun _ => None) no_crash)
    ["target"; "work/.cur_input"]%string St0
  = (Val tt, {| tick := 3; fixReader := None; count := 1 |},
     [EvDial "tcp" "127.0.0.1:4141";
      EvWriteFile "work/.cur_input" (bytes_of "ABCD") perm_0600;
      EvRun (-1) ["target"; "work/.cur_input"]%string]).
Proof. reflexivity. Qed.

Example turn_with_crash :
  iteration remote_flags
    (env_of (fun _ _ => sends [x00; x01; x02]) (fun _ => None)
       (crashes_with "SIGSEGV"))
    ["target"; "work/.cur_input"]%string St0
  = (Val tt, {| tick := 4; fixReader := None; count := 1 |},
     [EvDial "tcp" "127.0.0.1:4141";
      EvWriteFile "work/.cur_input" [x00; x01; x02] perm_0600;
      EvRun (-1) ["target"; "work/.cur_input"]%string;
      EvLog "[HAPPY] Crash! - %s" [L_str "SIGSEGV"];
      EvWriteFile "work/crashes/0c7a623fd2bbc05b06423be359e4021d36e721ad.raw"
        [x00; x01; x02] perm_0600]).
Proof. vm_compute. reflexivity. Qed.

(** A crash reported without any [Extra] line stops the process before the
    record is written. *)
Example turn_with_crash_without_extra :
  iteration remote_flags
    (env_of (fun _ _ => sends (bytes_of "ABCD")) (fun _ => None)
       ({| Extra := [] |}, None))
    ["target"; "work/.cur_input"]%string St0
  = (Panic "index out of range",
     {| tick := 3; fixReader := None; count := 1 |},
     [EvDial "tcp" "127.0.0.1:4141";
      EvWriteFile "work/.cur_input" (bytes_of "ABCD") perm_0600;
      EvRun (-1) ["target"; "work/.cur_input"]%string]).
Proof. reflexivity. Qed.

(** Lengths with a minus sign. *)

Example readNetString_minus_zero :
  readNetString (mkReader (bytes_of "-0:,"))
  = (Val ([], None), mkReader [],
     [EvReadBytes ":"%byte; EvMake 0; EvReadFull 0; EvReadByte]).
Proof. reflexivity. Qed.

Example readNetString_minus_out_of_range :
  readNetString (mkReader (bytes_of "-9223372036854775809:x,"))
  = (Val ([], Some (Errorf "Error Parsing Length %#v"
                      [bytes_of "-9223372036854775809:"])),
     mkReader (bytes_of "x,"), [EvReadBytes ":"%byte]).
Proof. vm_compute. reflexivity. Qed.

(** * Properties *)

(** Comparisons of integers decided by linear arithmetic. *)
Ltac cmp_lia :=
  lazymatch goal with
  | |- (_ <=? _) = true => apply Z.leb_le; lia
  | |- (_ <=? _) = false => apply Z.leb_gt; lia
  | |- (_ <? _) = true => apply Z.ltb_lt; lia
  | |- (_ <? _) = false => apply Z.ltb_ge; lia
  | |- (_ >=? _) = _ => rewrite Z.geb_leb; cmp_lia
  | |- (_ >? _) = _ => rewrite Z.gtb_ltb; cmp_lia
  | |- (_ =? _) = true => apply Z.eqb_eq; lia
  | |- (_ =? _) = false => apply Z.eqb_neq; lia
  end.

Ltac is_true b := replace b with true by (symmetry; cmp_lia).
Ltac is_false b := replace b with false by (symmetry; cmp_lia).

(** ** Bytes and digits *)

Lemma byteZ_range (b : byte) : 0 <= byteZ b <= 255.
Proof.
  unfold byteZ. pose proof (Byte.to_N_bounded b). lia.
Qed.

Lemma byteZ_Zbyte (z : Z) : 0 <= z <= 255 -> byteZ (Zbyte z) = z.
Proof.
  intros Hz. unfold byteZ, Zbyte.
  pose proof (Byte.to_of_N_option_map (Z.to_N z)) as H.
  destruct (Byte.of_N (Z.to_N z)) as [b|] eqn:E; cbn in H.
  - destruct (Z.to_N z <=? 255)%N; [|discriminate].
    injection H as ->. lia.
  - destruct (Z.to_N z <=? 255)%N eqn:L; [discriminate|].
    apply N.leb_gt in L. lia.
Qed.

Lemma byteZ_inj (a b : byte) : byteZ a = byteZ b -> a = b.
Proof.
  unfold byteZ. intros H. apply N2Z.inj in H.
  pose proof (Byte.of_to_N a) as Ha. rewrite H, Byte.of_to_N in Ha.
  congruence.
Qed.

Lemma digit_not (b c : byte) :
  is_digit b -> ~ 48 <= byteZ c <= 57 -> Byte.eqb b c = false.
Proof.
  intros Hb Hc. destruct (Byte.eqb b c) eqn:E; [|reflexivity].
  apply Byte.byte_dec_bl in E. subst. contradiction.
Qed.

Lemma decimal_from_app (n : Z) (a b : list byte) :
  decimal_from n (a ++ b) = decimal_from (decimal_from n a) b.
Proof. apply fold_left_app. Qed.

Lemma decimal_from_ge (ds : list byte) :
  Forall is_digit ds -> forall n, 0 <= n -> n <= decimal_from n ds.
Proof.
  induction 1 as [|b ds Hb _ IH]; intros n Hn.
  - cbn. lia.
  - change (decimal_from n (b :: ds))
      with (decimal_from (n * 10 + (byteZ b - 48)) ds).
    unfold is_digit in Hb.
    specialize (IH (n * 10 + (byteZ b - 48))). lia.
Qed.

(** ** [strconv] *)

Lemma parseDigits_cons_digit (b : byte) (s : list byte) (maxVal n : Z) :
  is_digit b ->
  strconv.parseDigits (b :: s) maxVal n =
    if n >=? (2 ^ 64 - 1) / 10 + 1 then (maxVal, Some strconv.ErrRange)
    else
      let n10 := strconv.wrap_uint64 (n * 10) in
      let n1 := strconv.wrap_uint64 (n10 + (byteZ b - 48)) in
      if (n1 <? n10) || (n1 >? maxVal) then (maxVal, Some strconv.ErrRange)
      else strconv.parseDigits s maxVal n1.
Proof.
  intros [H1 H2]. cbn [strconv.parseDigits].
  is_true (48 <=? byteZ b).
  is_true (byteZ b <=? 57).
  cbn [andb].
  is_false (byteZ b - 48 >=? 10).
  reflexivity.
Qed.

(** The digit loop computes the number the digits write, or reports that it
    does not fit 64 bits. *)
Lemma parseDigits_digits (ds : list byte) :
  Forall is_digit ds ->
  forall n, 0 <= n <= 2 ^ 64 - 1 ->
  strconv.parseDigits ds (2 ^ 64 - 1) n =
    if decimal_from n ds <=? 2 ^ 64 - 1
    then (decimal_from n ds, None)
    else (2 ^ 64 - 1, Some strconv.ErrRange).
Proof.
  induction 1 as [|b ds Hb Hds IH]; intros n Hn.
  - cbn [strconv.parseDigits]. change (decimal_from n []) with n.
    is_true (n <=? 2 ^ 64 - 1). reflexivity.
  - rewrite parseDigits_cons_digit by assumption.
    change (decimal_from n (b :: ds))
      with (decimal_from (n * 10 + (byteZ b - 48)) ds).
    pose proof (decimal_from_ge ds Hds (n * 10 + (byteZ b - 48))) as Hge.
    unfold is_digit in Hb.
    change ((2 ^ 64 - 1) / 10 + 1) with 1844674407370955162.
    unfold strconv.wrap_uint64.
    destruct (n >=? 1844674407370955162) eqn:Hcut.
    + apply Z.geb_le in Hcut.
      is_false (decimal_from (n * 10 + (byteZ b - 48)) ds <=? 2 ^ 64 - 1).
      reflexivity.
    + rewrite Z.geb_leb in Hcut. apply Z.leb_gt in Hcut.
      rewrite (Z.mod_small (n * 10)) by lia.
      cbv zeta.
      destruct (n * 10 + (byteZ b - 48) <=? 2 ^ 64 - 1) eqn:Hfit.
      * apply Z.leb_le in Hfit.
        rewrite Z.mod_small by lia.
        is_false (n * 10 + (byteZ b - 48) <? n * 10).
        is_false (n * 10 + (byteZ b - 48) >? 2 ^ 64 - 1).
        cbn [orb]. apply IH. lia.
      * apply Z.leb_gt in Hfit.
        replace ((n * 10 + (byteZ b - 48)) mod 2 ^ 64)
          with (n * 10 + (byteZ b - 48) - 2 ^ 64).
        2:{ apply Z.mod_unique with (q := 1); lia. }
        is_true (n * 10 + (byteZ b - 48) - 2 ^ 64 <? n * 10).
        cbn [orb].
        is_false (decimal_from (n * 10 + (byteZ b - 48)) ds <=? 2 ^ 64 - 1).
        reflexivity.
Qed.

(** [ParseInt] on a string of digits: the number when it fits an [int], the
    largest [int] with [ErrRange] otherwise. *)
Lemma ParseInt_digits (ds : list byte) :
  ds <> [] -> Forall is_digit ds ->
  strconv.ParseInt ds 0 =
    if decimal ds <? 2 ^ 63 then (decimal ds, None)
    else (2 ^ 63 - 1, Some strconv.ErrRange).
Proof.
  intros Hne Hds. destruct ds as [|c0 tl]; [contradiction|].
  pose proof (Forall_inv Hds) as Hc0.
  pose proof (decimal_from_ge _ Hds 0 ltac:(lia)) as Hge.
  fold (decimal (c0 :: tl)) in Hge.
  unfold strconv.ParseInt.
  rewrite (digit_not c0 "+"%byte Hc0)
    by (change (byteZ "+"%byte) with 43; lia).
  rewrite (digit_not c0 "-"%byte Hc0)
    by (change (byteZ "-"%byte) with 45; lia).
  unfold strconv.ParseUint.
  change (if 0 =? 0 then strconv.IntSize else 0) with 64.
  rewrite (parseDigits_digits _ Hds 0) by lia.
  fold (decimal (c0 :: tl)).
  change (2 ^ (64 - 1)) with (2 ^ 63).
  destruct (decimal (c0 :: tl) <=? 2 ^ 64 - 1) eqn:H64.
  - apply Z.leb_le in H64.
    destruct (decimal (c0 :: tl) <? 2 ^ 63) eqn:H63.
    + apply Z.ltb_lt in H63.
      is_false (decimal (c0 :: tl) >=? 2 ^ 63).
      cbn [negb andb]. unfold strconv.wrap_int64.
      rewrite Z.mod_small by lia. f_equal. lia.
    + apply Z.ltb_ge in H63.
      is_true (decimal (c0 :: tl) >=? 2 ^ 63).
      reflexivity.
  - apply Z.leb_gt in H64.
    is_false (decimal (c0 :: tl) <? 2 ^ 63).
    reflexivity.
Qed.

Lemma formatBits_spec (fuel : nat) :
  forall u acc, 0 <= u < 10 ^ Z.of_nat (S fuel) ->
  exists ds,
    strconv.formatBits fuel u acc = ds ++ acc
    /\ ds <> [] /\ Forall is_digit ds /\ decimal ds = u.
Proof.
  assert (Hone : forall u acc, 0 <= u < 10 ->
            exists ds, Zbyte (48 + u) :: acc = ds ++ acc
                       /\ ds <> [] /\ Forall is_digit ds /\ decimal ds = u).
  { intros u acc Hu. exists [Zbyte (48 + u)].
    assert (Hb : byteZ (Zbyte (48 + u)) = 48 + u) by (apply byteZ_Zbyte; lia).
    repeat split.
    - discriminate.
    - constructor; [unfold is_digit; lia | constructor].
    - unfold decimal, decimal_from. cbn [fold_left]. lia. }
  induction fuel as [|fuel IH]; intros u acc Hu.
  - cbn [strconv.formatBits]. apply Hone. change (10 ^ Z.of_nat 1) with 10 in Hu.
    lia.
  - cbn [strconv.formatBits]. destruct (u <? 10) eqn:Hlt.
    + apply Z.ltb_lt in Hlt. apply Hone. lia.
    + apply Z.ltb_ge in Hlt.
      rewrite Nat2Z.inj_succ, Z.pow_succ_r in Hu by lia.
      destruct (IH (u / 10) (Zbyte (48 + u mod 10) :: acc)) as (ds & E & Hne & Hd & Hv).
      { split; [apply Z.div_pos; lia|].
        apply Z.div_lt_upper_bound; lia. }
      exists (ds ++ [Zbyte (48 + u mod 10)]).
      pose proof (Z.mod_pos_bound u 10 ltac:(lia)) as Hm.
      assert (Hb : byteZ (Zbyte (48 + u mod 10)) = 48 + u mod 10)
        by (apply byteZ_Zbyte; lia).
      repeat split.
      * rewrite E, <- app_assoc. reflexivity.
      * intros H. apply app_eq_nil in H. destruct H; discriminate.
      * apply Forall_app. split; [assumption|].
        constructor; [unfold is_digit; lia | constructor].
      * unfold decimal in *. rewrite decimal_from_app, Hv.
        unfold decimal_from. cbn [fold_left].
        rewrite Hb. pose proof (Z.div_mod u 10 ltac:(lia)). lia.
Qed.

(** [%d] writes a length in digits that read back as the length. *)
Lemma FormatInt_digits (n : Z) :
  0 <= n < 2 ^ 63 ->
  strconv.FormatInt n <> []
  /\ Forall is_digit (strconv.FormatInt n)
  /\ decimal (strconv.FormatInt n) = n.
Proof.
  intros Hn. unfold strconv.FormatInt.
  is_false (n <? 0).
  destruct (formatBits_spec 19 n []) as (ds & E & Hne & Hd & Hv).
  { change (10 ^ Z.of_nat 20) with 100000000000000000000. lia. }
  rewrite E, app_nil_r. auto.
Qed.

Lemma ParseInt_FormatInt (n : Z) :
  0 <= n < 2 ^ 63 -> strconv.ParseInt (strconv.FormatInt n) 0 = (n, None).
Proof.
  intros Hn. destruct (FormatInt_digits n Hn) as (Hne & Hd & Hv).
  rewrite ParseInt_digits by assumption. rewrite Hv.
  is_true (n <? 2 ^ 63). reflexivity.
Qed.

(** ** Readers *)

Lemma cut_digits (ds rest : list byte) :
  Forall is_digit ds ->
  cut ":"%byte (ds ++ ":"%byte :: rest) = Some (ds ++ [":"%byte], rest).
Proof.
  induction 1 as [|b ds Hb _ IH].
  - reflexivity.
  - cbn [cut app]. rewrite IH.
    rewrite (digit_not b ":"%byte Hb)
      by (change (byteZ ":"%byte) with 58; lia).
    reflexivity.
Qed.

Lemma len_app {A : Type} (a b : list A) : len (a ++ b) = len a + len b.
Proof. unfold len. rewrite length_app. lia. Qed.

Lemma len_cons {A : Type} (x : A) (l : list A) : len (x :: l) = 1 + len l.
Proof. unfold len. cbn [List.length]. lia. Qed.

Lemma len_nonneg {A : Type} (l : list A) : 0 <= len l.
Proof. unfold len. lia. Qed.

Lemma len_repeat {A : Type} (x : A) (n : Z) :
  0 <= n -> len (repeat x (Z.to_nat n)) = n.
Proof. intros Hn. unfold len. rewrite repeat_length. lia. Qed.

(** ** Running computations *)

Lemma after_nil {S A : Type} (r : Outcome A * S * list Event) :
  after [] r = r.
Proof. destruct r as [[o s] ev]. reflexivity. Qed.

Lemma after_after {S A : Type} (e1 e2 : list Event)
  (r : Outcome A * S * list Event) :
  after e1 (after e2 r) = after (e1 ++ e2) r.
Proof. destruct r as [[o s] ev]. cbn. rewrite app_assoc. reflexivity. Qed.

Lemma bind_val {S A B : Type} (m : M S A) (k : A -> M S B)
  (s s1 : S) (a : A) (ev1 : list Event) :
  m s = (Val a, s1, ev1) -> bind m k s = after ev1 (k a s1).
Proof. intros H. unfold bind. rewrite H. reflexivity. Qed.

Lemma bind_ret {S A B : Type} (a : A) (k : A -> M S B) (s : S) :
  bind (ret a) k s = k a s.
Proof. unfold bind, ret. apply after_nil. Qed.

Lemma bind_emit {S B : Type} (e : Event) (k : unit -> M S B) (s : S) :
  bind (emit e) k s = after [e] (k tt s).
Proof. reflexivity. Qed.

Lemma bind_get {S B : Type} (k : S -> M S B) (s : S) :
  bind get k s = k s s.
Proof. unfold bind, get. apply after_nil. Qed.

Lemma bind_put {S B : Type} (s' : S) (k : unit -> M S B) (s : S) :
  bind (put s') k s = k tt s'.
Proof. unfold bind, put. apply after_nil. Qed.

Lemma bind_bind {S A B C : Type} (m : M S A) (k : A -> M S B)
  (h : B -> M S C) (s : S) :
  bind (bind m k) h s = bind m (fun a => bind (k a) h) s.
Proof.
  unfold bind. destruct (m s) as [[[a| | |] s1] ev1]; try reflexivity.
  destruct (k a s1) as [[[b| | |] s2] ev2]; cbn; try reflexivity.
  destruct (h b s2) as [[o s3] ev3]. cbn. rewrite app_assoc. reflexivity.
Qed.

(** ** The netstring codec *)

Lemma ReadBytes_digits (ds u : list byte) (e : error) :
  Forall is_digit ds ->
  ReadBytes ":"%byte {| unread := ds ++ ":"%byte :: u; at_end := e |}
  = (Val (ds ++ [":"%byte], None), {| unread := u; at_end := e |},
     [EvReadBytes ":"%byte]).
Proof.
  intros Hds. unfold ReadBytes. rewrite bind_get, bind_emit.
  cbn [unread]. rewrite cut_digits by assumption. cbv beta iota.
  rewrite bind_put. reflexivity.
Qed.

Lemma make_bytes_ok {S : Type} (n : Z) (s : S) :
  0 <= n ->
  make_bytes n s = (Val (repeat x00 (Z.to_nat n)), s, [EvMake n]).
Proof.
  intros Hn. unfold make_bytes. rewrite bind_emit.
  is_false (n <? 0). reflexivity.
Qed.

Lemma make_bytes_negative {S : Type} (n : Z) (s : S) :
  n < 0 ->
  make_bytes n s
  = (@Panic (list byte) "makeslice: len out of range", s, [EvMake n]).
Proof.
  intros Hn. unfold make_bytes. rewrite bind_emit.
  is_true (n <? 0). reflexivity.
Qed.

Lemma io_ReadFull_ok (buf t u : list byte) (e : error) :
  len buf = len t ->
  io_ReadFull buf {| unread := t ++ u; at_end := e |}
  = (Val (t, len t, None), {| unread := u; at_end := e |},
     [EvReadFull (len t)]).
Proof.
  intros Hl. unfold io_ReadFull. rewrite bind_get, bind_emit. cbn [unread].
  assert (Hn : List.length buf = List.length t) by (unfold len in Hl; lia).
  rewrite Hl. destruct (len t =? 0) eqn:E0.
  - apply Z.eqb_eq in E0.
    assert (t = []).
    { destruct t; [reflexivity|]. rewrite len_cons in E0.
      pose proof (len_nonneg t). lia. }
    assert (buf = []) by (destruct buf; [reflexivity | subst; discriminate]).
    subst. reflexivity.
  - rewrite len_app. pose proof (len_nonneg u).
    is_true (len t <=? len t + len u).
    rewrite bind_put. unfold set_unread, ret. cbn [at_end].
    rewrite Hn, firstn_app, skipn_app, Nat.sub_diag, firstn_all, skipn_all.
    cbn [firstn skipn app]. rewrite app_nil_r. reflexivity.
Qed.

Lemma ReadByte_cons (b : byte) (u : list byte) (e : error) :
  ReadByte {| unread := b :: u; at_end := e |}
  = (Val (b, None), {| unread := u; at_end := e |}, [EvReadByte]).
Proof. reflexivity. Qed.

(** A frame whose digits write the length of its payload decodes to the
    payload, and the reader stands after the comma. *)
Lemma readNetString_frame (ds t u : list byte) (e : error) :
  ds <> [] -> Forall is_digit ds -> decimal ds = len t -> len t <= MAXLEN ->
  readNetString
    {| unread := ds ++ ":"%byte :: t ++ ","%byte :: u; at_end := e |}
  = (Val (t, None), {| unread := u; at_end := e |},
     [EvReadBytes ":"%byte; EvMake (len t); EvReadFull (len t); EvReadByte]).
Proof.
  intros Hne Hds Hv Hmax. unfold readNetString.
  erewrite bind_val by (apply ReadBytes_digits; assumption).
  cbv beta iota. rewrite removelast_last, ParseInt_digits, Hv by assumption.
  unfold MAXLEN in Hmax. is_true (len t <? 2 ^ 63). fold MAXLEN in Hmax.
  is_false (len t >? MAXLEN). cbn [strconv_error].
  erewrite bind_val by (apply make_bytes_ok, len_nonneg).
  erewrite bind_val
    by (apply io_ReadFull_ok, len_repeat, len_nonneg).
  cbv beta iota.
  erewrite bind_val by apply ReadByte_cons.
  reflexivity.
Qed.

(** A frame whose digits write more than [MAXLEN] is refused when its
    header has been read: nothing is made and no more is read. *)
Lemma readNetString_too_long (ds u : list byte) (e : error) :
  ds <> [] -> Forall is_digit ds -> MAXLEN < decimal ds ->
  readNetString {| unread := ds ++ ":"%byte :: u; at_end := e |}
  = (Val ([], Some (Errorf "Proposed Length > MAXLEN" [])),
     {| unread := u; at_end := e |}, [EvReadBytes ":"%byte]).
Proof.
  intros Hne Hds Hv. unfold readNetString.
  erewrite bind_val by (apply ReadBytes_digits; assumption).
  cbv beta iota. rewrite removelast_last, ParseInt_digits by assumption.
  destruct (decimal ds <? 2 ^ 63).
  - is_true (decimal ds >? MAXLEN). reflexivity.
  - reflexivity.
Qed.

Lemma bind_panic {S A B : Type} (m : M S A) (k : A -> M S B)
  (s s1 : S) (r : string) (ev1 : list Event) :
  m s = (Panic r, s1, ev1) -> bind m k s = (Panic r, s1, ev1).
Proof. intros H. unfold bind. rewrite H. reflexivity. Qed.

Lemma bind_exit {S A B : Type} (m : M S A) (k : A -> M S B)
  (s s1 : S) (c : Z) (ev1 : list Event) :
  m s = (Exit c, s1, ev1) -> bind m k s = (Exit c, s1, ev1).
Proof. intros H. unfold bind. rewrite H. reflexivity. Qed.

Lemma netstring_app (t rest : list byte) :
  netstring t ++ rest
  = strconv.FormatInt (len t) ++ ":"%byte :: t ++ ","%byte :: rest.
Proof.
  unfold netstring. rewrite <- app_assoc. cbn [app].
  rewrite <- app_assoc. reflexivity.
Qed.

(** What [netstring] writes, [readNetString] reads back. *)
Lemma readNetString_netstring (t rest : list byte) (e : error) :
  len t <= MAXLEN ->
  readNetString {| unread := netstring t ++ rest; at_end := e |}
  = (Val (t, None), {| unread := rest; at_end := e |},
     [EvReadBytes ":"%byte; EvMake (len t); EvReadFull (len t); EvReadByte]).
Proof.
  intros Hmax. rewrite netstring_app.
  pose proof (len_nonneg t) as H0.
  destruct (FormatInt_digits (len t)) as (Hne & Hd & Hv).
  { unfold MAXLEN in Hmax. lia. }
  apply readNetString_frame; assumption.
Qed.

(** C3. What [fixTest] writes for a candidate of at most [MAXLEN] bytes,
    [readNetString] reads back as the same bytes: the length in decimal, a
    colon, the bytes and a comma decode to the bytes, and the reader is left
    at the first byte after the comma, so that one frame was used. The
    empty candidate is written [0:,] and is read back as the empty
    candidate. *)
Theorem netstring_round_trip :
  (forall (t rest : list byte) (e : error),
      len t <= MAXLEN ->
      readNetString {| unread := netstring t ++ rest; at_end := e |}
      = (Val (t, None), {| unread := rest; at_end := e |},
         [EvReadBytes ":"%byte; EvMake (len t); EvReadFull (len t);
          EvReadByte]))
  /\ netstring [] = bytes_of "0:,".
Proof.
  split; [|reflexivity].
  intros t rest e Hmax. apply readNetString_netstring. exact Hmax.
Qed.

Lemma netstring_round_trip_witness :
  len (bytes_of "hello") <= MAXLEN
  /\ readNetString (mkReader (bytes_of "5:hello,7:goodbye,"))
     = (Val (bytes_of "hello", None), mkReader (bytes_of "7:goodbye,"),
        [EvReadBytes ":"%byte; EvMake 5; EvReadFull 5; EvReadByte]).
Proof.
  split; [vm_compute; discriminate|].
  apply (proj1 netstring_round_trip (bytes_of "hello")
           (bytes_of "7:goodbye,") io_EOF).
  vm_compute; discriminate.
Defined.

Lemma digits_10485760 :
  bytes_of "10485760" <> []
  /\ Forall is_digit (bytes_of "10485760")
  /\ decimal (bytes_of "10485760") = MAXLEN.
Proof.
  repeat split; try discriminate.
  repeat constructor; discriminate.
Qed.

(** C4. A frame that declares exactly [MAXLEN] bytes is read, and a frame
    whose digits declare more than [MAXLEN] is refused with the error
    [Proposed Length > MAXLEN] when only its header has been read: the
    reader still holds all that follows the colon, nothing was made and no
    payload was read. *)
Theorem readNetString_length_limit :
  (forall (data rest : list byte) (e : error),
      len data = MAXLEN ->
      readNetString
        {| unread := bytes_of "10485760:" ++ data ++ ","%byte :: rest;
           at_end := e |}
      = (Val (data, None), {| unread := rest; at_end := e |},
         [EvReadBytes ":"%byte; EvMake MAXLEN; EvReadFull MAXLEN;
          EvReadByte]))
  /\ (forall (ds rest : list byte) (e : error),
         ds <> [] -> Forall is_digit ds -> MAXLEN < decimal ds ->
         readNetString {| unread := ds ++ ":"%byte :: rest; at_end := e |}
         = (Val ([], Some (Errorf "Proposed Length > MAXLEN" [])),
            {| unread := rest; at_end := e |}, [EvReadBytes ":"%byte])).
Proof.
  split.
  - intros data rest e Hlen.
    destruct digits_10485760 as (Hne & Hd & Hv).
    change (bytes_of "10485760:" ++ data ++ ","%byte :: rest)
      with (bytes_of "10485760" ++ ":"%byte :: data ++ ","%byte :: rest).
    rewrite <- Hlen. apply readNetString_frame; try assumption.
    + congruence.
    + lia.
  - intros ds rest e. apply readNetString_too_long.
Qed.

Lemma readNetString_length_limit_witness :
  (len (repeat x00 (Z.to_nat MAXLEN)) = MAXLEN
   /\ readNetString
        {| unread := bytes_of "10485760:" ++ repeat x00 (Z.to_nat MAXLEN)
                       ++ ","%byte :: bytes_of "tail";
           at_end := io_EOF |}
      = (Val (repeat x00 (Z.to_nat MAXLEN), None),
         {| unread := bytes_of "tail"; at_end := io_EOF |},
         [EvReadBytes ":"%byte; EvMake MAXLEN; EvReadFull MAXLEN;
          EvReadByte]))
  /\ (MAXLEN < decimal (bytes_of "10485761")
      /\ readNetString (mkReader (bytes_of "10485761:payload,"))
         = (Val ([], Some (Errorf "Proposed Length > MAXLEN" [])),
            mkReader (bytes_of "payload,"), [EvReadBytes ":"%byte])).
Proof.
  assert (Hlen : len (repeat x00 (Z.to_nat MAXLEN)) = MAXLEN).
  { apply len_repeat. discriminate. }
  split; split.
  - exact Hlen.
  - apply (proj1 readNetString_length_limit). exact Hlen.
  - reflexivity.
  - apply (proj2 readNetString_length_limit (bytes_of "10485761")
             (bytes_of "payload,") io_EOF).
    + discriminate.
    + repeat constructor; discriminate.
    + reflexivity.
Defined.

Lemma ParseInt_minus_digits (ds : list byte) :
  ds <> [] -> Forall is_digit ds -> decimal ds <= 2 ^ 63 ->
  strconv.ParseInt ("-"%byte :: ds) 0 = (- decimal ds, None).
Proof.
  intros Hne Hds Hv.
  pose proof (decimal_from_ge _ Hds 0 ltac:(lia)) as Hge.
  fold (decimal ds) in Hge.
  unfold strconv.ParseInt.
  change (Byte.eqb "-"%byte "+"%byte) with false.
  change (Byte.eqb "-"%byte "-"%byte) with true.
  cbv beta iota. unfold strconv.ParseUint.
  destruct ds as [|c0 tl]; [contradiction|].
  change (if 0 =? 0 then strconv.IntSize else 0) with 64.
  rewrite (parseDigits_digits _ Hds 0) by lia.
  fold (decimal (c0 :: tl)).
  is_true (decimal (c0 :: tl) <=? 2 ^ 64 - 1).
  change (2 ^ (64 - 1)) with (2 ^ 63).
  is_false (decimal (c0 :: tl) >? 2 ^ 63).
  cbn [negb andb]. unfold strconv.wrap_int64. f_equal.
  assert (Hc : decimal (c0 :: tl) < 2 ^ 63 \/ decimal (c0 :: tl) = 2 ^ 63)
    by lia.
  destruct Hc as [Hc|Hc].
  - rewrite (Z.mod_small (decimal (c0 :: tl) + 2 ^ 63)) by lia.
    replace (decimal (c0 :: tl) + 2 ^ 63 - 2 ^ 63) with (decimal (c0 :: tl))
      by lia.
    rewrite Z.mod_small by lia. lia.
  - rewrite Hc. reflexivity.
Qed.

Lemma ReadBytes_minus_digits (ds u : list byte) (e : error) :
  Forall is_digit ds ->
  ReadBytes ":"%byte
    {| unread := "-"%byte :: ds ++ ":"%byte :: u; at_end := e |}
  = (Val ("-"%byte :: ds ++ [":"%byte], None), {| unread := u; at_end := e |},
     [EvReadBytes ":"%byte]).
Proof.
  intros Hds. unfold ReadBytes. rewrite bind_get, bind_emit.
  cbn [unread cut]. change (Byte.eqb "-"%byte ":"%byte) with false.
  rewrite cut_digits by assumption. cbv beta iota.
  rewrite bind_put. reflexivity.
Qed.

(** C5 (what the code does). A frame whose length is a minus sign and
    digits that write a number from 1 to 2^63 is not refused:
    [strconv.ParseInt] returns the negative number without an error, the
    only test of the length is [dataLen > MAXLEN], and [make] panics on the
    negative length. *)
Theorem readNetString_negative_length (ds rest : list byte) (e : error) :
  ds <> [] -> Forall is_digit ds -> 0 < decimal ds <= 2 ^ 63 ->
  readNetString
    {| unread := "-"%byte :: ds ++ ":"%byte :: rest; at_end := e |}
  = (Panic "makeslice: len out of range", {| unread := rest; at_end := e |},
     [EvReadBytes ":"%byte; EvMake (- decimal ds)]).
Proof.
  intros Hne Hds Hv. unfold readNetString.
  erewrite bind_val by (apply ReadBytes_minus_digits; assumption).
  cbv beta iota.
  change ("-"%byte :: ds ++ [":"%byte])
    with (("-"%byte :: ds) ++ [":"%byte]).
  rewrite removelast_last, ParseInt_minus_digits by (assumption || lia).
  unfold MAXLEN. is_false (- decimal ds >? 10 * 1024 * 1024).
  cbn [strconv_error].
  erewrite bind_panic by (apply make_bytes_negative; lia).
  reflexivity.
Qed.

Lemma readNetString_negative_length_witness :
  readNetString (mkReader (bytes_of "-5:hello,"))
  = (Panic "makeslice: len out of range", mkReader (bytes_of "hello,"),
     [EvReadBytes ":"%byte; EvMake (-5)]).
Proof.
  apply (readNetString_negative_length (bytes_of "5") (bytes_of "hello,")
           io_EOF).
  - discriminate.
  - repeat constructor; discriminate.
  - split; [reflexivity | discriminate].
Defined.

(** ** The connector *)

Lemma ask_run {A : Type} (answer : nat -> A) (e : Event) (s : St) :
  ask answer e s = (Val (answer (tick s)), advance 1 s, [e]).
Proof. reflexivity. Qed.

Lemma advance_advance (j k : nat) (s : St) :
  advance j (advance k s) = advance (j + k) s.
Proof. unfold advance. cbn. f_equal. lia. Qed.

Lemma sleepyConnect_loop_timeout (env : Env) (fuel : nat) (dest : string)
  (zzz : Z) (s : St) :
  Second < zzz ->
  sleepyConnect_loop env (S fuel) dest zzz s = (Val timed_out, s, []).
Proof.
  intros Hz. cbn [sleepyConnect_loop].
  is_true (zzz >? 1 * Second). reflexivity.
Qed.

Lemma sleepyConnect_loop_refused (env : Env) (fuel : nat) (dest : string)
  (zzz : Z) (s : St) (e : error) :
  0 < zzz <= Second ->
  env_Dial env (tick s) "tcp" dest = inr e ->
  sleepyConnect_loop env (S fuel) dest zzz s
  = after [EvSleep zzz; EvDial "tcp" dest]
      (sleepyConnect_loop env fuel dest (2 * zzz) (advance 1 s)).
Proof.
  intros Hz Hd. cbn [sleepyConnect_loop].
  is_false (zzz >? 1 * Second).
  unfold time_Sleep, net_Dial. rewrite bind_emit.
  erewrite bind_val by apply ask_run. rewrite Hd, after_after.
  unfold strconv.wrap_int64. unfold Second in Hz.
  rewrite Z.mod_small by lia.
  replace (zzz * 2 + 2 ^ 63 - 2 ^ 63) with (2 * zzz) by lia.
  reflexivity.
Qed.

Lemma sleepyConnect_loop_accepted (env : Env) (fuel : nat) (dest : string)
  (zzz : Z) (s : St) (c : Conn) :
  zzz <= Second ->
  env_Dial env (tick s) "tcp" dest = inl c ->
  sleepyConnect_loop env (S fuel) dest zzz s
  = (Val (Some c, None), advance 1 s, [EvSleep zzz; EvDial "tcp" dest]).
Proof.
  intros Hz Hd. cbn [sleepyConnect_loop].
  is_false (zzz >? 1 * Second).
  unfold time_Sleep, net_Dial. rewrite bind_emit.
  erewrite bind_val by apply ask_run. rewrite Hd. reflexivity.
Qed.

(** When every attempt is refused and [n] sleeps of at most a second are
    left, the loop makes [n] attempts and times out, with any fuel above
    [n]. *)
Lemma sleepyConnect_loop_refused_all (env : Env) (dest : string) :
  (forall k, exists e, env_Dial env k "tcp" dest = inr e) ->
  forall (n fuel : nat) (zzz : Z) (s : St),
    0 < zzz -> Second < zzz * 2 ^ Z.of_nat n ->
    (n <> O -> zzz * 2 ^ (Z.of_nat n - 1) <= Second) ->
    (n < fuel)%nat ->
    sleepyConnect_loop env fuel dest zzz s
    = (Val timed_out, advance n s, attempts n dest zzz).
Proof.
  intros Hrefuse. induction n as [|n IH]; intros fuel zzz s H0 Hup Hlow Hfuel.
  - destruct fuel as [|fuel]; [lia|].
    rewrite sleepyConnect_loop_timeout by (cbn in Hup; lia).
    destruct s. reflexivity.
  - destruct fuel as [|fuel]; [lia|].
    destruct (Hrefuse (tick s)) as [e He].
    rewrite Nat2Z.inj_succ in Hup, Hlow.
    replace (Z.succ (Z.of_nat n) - 1) with (Z.of_nat n) in Hlow by lia.
    rewrite Z.pow_succ_r in Hup by lia.
    specialize (Hlow ltac:(discriminate)).
    assert (Hpos : 1 <= 2 ^ Z.of_nat n) by (apply Z.pow_le_mono_r with (b := 0); lia).
    rewrite (sleepyConnect_loop_refused env fuel dest zzz s e) by (try assumption; nia).
    rewrite IH; try lia.
    + cbn [after attempts app]. rewrite advance_advance.
      replace (n + 1)%nat with (S n) by lia. reflexivity.
    + intros Hn. destruct n as [|n']; [contradiction|].
      rewrite Nat2Z.inj_succ in *.
      replace (Z.succ (Z.of_nat n') - 1) with (Z.of_nat n') by lia.
      rewrite Z.pow_succ_r in Hlow by lia. lia.
Qed.

(** Whatever the network answers, eleven turns end the loop that starts
    with a sleep of a millisecond. *)
Lemma sleepyConnect_loop_ends (env : Env) (dest : string) :
  forall (n : nat) (zzz : Z) (s : St),
    0 < zzz -> Second < zzz * 2 ^ Z.of_nat n ->
    fst (fst (sleepyConnect_loop env (S n) dest zzz s)) <> OutOfFuel.
Proof.
  induction n as [|n IH]; intros zzz s H0 Hup.
  - rewrite sleepyConnect_loop_timeout by (cbn in Hup; lia). discriminate.
  - destruct (Z.ltb Second zzz) eqn:Hz.
    + apply Z.ltb_lt in Hz. rewrite sleepyConnect_loop_timeout by assumption.
      discriminate.
    + apply Z.ltb_ge in Hz.
      destruct (env_Dial env (tick s) "tcp" dest) as [c|e] eqn:Hd.
      * erewrite sleepyConnect_loop_accepted by eassumption. discriminate.
      * erewrite sleepyConnect_loop_refused by (eassumption || lia).
        rewrite Nat2Z.inj_succ, Z.pow_succ_r in Hup by lia.
        specialize (IH (2 * zzz) (advance 1 s) ltac:(lia) ltac:(lia)).
        destruct (sleepyConnect_loop env (S n) dest (2 * zzz) (advance 1 s))
          as [[o s'] ev]. exact IH.
Qed.

(** C6. When the address never accepts a connection, [sleepyConnect] makes
    ten attempts, the first after a sleep of 1 ms and each later one after
    twice the sleep before (1, 2, 4, ... 512 ms, none above a second),
    sleeps 1023 ms in all, and returns the error [connection to server
    timed out.]; the same holds for every bound of eleven turns or more on
    its loop, so the loop ends by itself. *)
Theorem sleepyConnect_backoff (env : Env) (dest : string) (s : St) :
  (forall k, exists e, env_Dial env k "tcp" dest = inr e) ->
  sleepyConnect env dest s
  = (Val timed_out, advance 10 s, attempts 10 dest (1 * Millisecond))
  /\ (forall fuel, (11 <= fuel)%nat ->
        sleepyConnect_loop env fuel dest (1 * Millisecond) s
        = sleepyConnect env dest s)
  /\ sleeps (attempts 10 dest (1 * Millisecond))
     = map (fun k => 2 ^ k * Millisecond) [0; 1; 2; 3; 4; 5; 6; 7; 8; 9]
  /\ Forall (fun d => d <= 1 * Second)
       (sleeps (attempts 10 dest (1 * Millisecond)))
  /\ total_sleep (attempts 10 dest (1 * Millisecond)) = 1023 * Millisecond
  /\ dials (attempts 10 dest (1 * Millisecond)) = 10%nat.
Proof.
  intros Hrefuse.
  assert (Hloop : forall fuel, (11 <= fuel)%nat ->
            sleepyConnect_loop env fuel dest (1 * Millisecond) s
            = (Val timed_out, advance 10 s, attempts 10 dest (1 * Millisecond))).
  { intros fuel Hfuel.
    apply (sleepyConnect_loop_refused_all env dest Hrefuse 10 fuel);
      try reflexivity; try lia. intros _. discriminate. }
  split; [|split; [|split; [|split; [|split]]]].
  - apply Hloop. lia.
  - intros fuel Hfuel. unfold sleepyConnect.
    rewrite !Hloop by lia. reflexivity.
  - reflexivity.
  - cbn. repeat constructor; discriminate.
  - reflexivity.
  - reflexivity.
Qed.

Lemma sleepyConnect_backoff_witness :
  sleepyConnect refusing_env "10.0.0.1:4141" St0
  = (Val timed_out, advance 10 St0,
     attempts 10 "10.0.0.1:4141" (1 * Millisecond)).
Proof.
  apply (proj1 (sleepyConnect_backoff refusing_env "10.0.0.1:4141" St0
                  (fun k => ex_intro _ (SysError "connection refused")
                              eq_refl))).
Defined.

(** ** The generator client *)

Lemma ReadAll_tee_spec (chunks : list (list byte)) :
  forall (hsh : sha1.Hash) (acc : list byte),
    ReadAll_tee chunks hsh acc
    = (acc ++ List.concat chunks,
       {| sha1.written := sha1.written hsh ++ List.concat chunks |}).
Proof.
  induction chunks as [|p chunks IH]; intros hsh acc; cbn [ReadAll_tee List.concat].
  - rewrite !app_nil_r. destruct hsh. reflexivity.
  - rewrite IH. cbn [sha1.Write sha1.written]. rewrite <- !app_assoc.
    reflexivity.
Qed.

(** [getTest] dials [127.0.0.1:4141], and when the stream ends without an
    error it returns all the bytes of the stream with their SHA-1. *)
Lemma getTest_ok (env : Env) (s : St) (conn : Conn) :
  env_Dial env (tick s) "tcp" "127.0.0.1:4141" = inl conn ->
  conn_err conn = None ->
  getTest env s
  = (Val (List.concat (conn_data conn),
          sha1.Sum (List.concat (conn_data conn))),
     advance 1 s, [EvDial "tcp" "127.0.0.1:4141"]).
Proof.
  intros Hd He. unfold getTest, net_Dial.
  erewrite bind_val by apply ask_run. rewrite Hd. cbv beta iota.
  rewrite ReadAll_tee_spec, He. reflexivity.
Qed.

(** ** The loop *)

Lemma stageTest_ok (fl : Flags) (env : Env) (raw : list byte) (s : St) :
  env_WriteFile env (tick s) (staged_path fl) raw perm_0600 = None ->
  stageTest fl env raw s
  = (Val tt, advance 1 s, [EvWriteFile (staged_path fl) raw perm_0600]).
Proof.
  intros Hw. unfold stageTest, ioutil_WriteFile.
  erewrite bind_val by apply ask_run.
  fold (staged_path fl). rewrite Hw. reflexivity.
Qed.

Lemma incr_count_run (s : St) : incr_count s = (Val tt, counted s, []).
Proof. reflexivity. Qed.

(** The block [if fixConn != nil { ... }] of the loop, when it goes on. *)
Lemma fix_block (raw test : list byte) (s s2 : St) (evf : list Event) :
  fix_step s raw test s2 evf ->
  match fixReader s with
  | Some _ =>
      x <- with_fixReader (fixTest raw) ;;
      (let (test0, err) := x in
       match err with
       | Some e => log_Fatalf "[SAD] failed to fix test: %s" [L_err e]
       | None => ret test0
       end)
  | None => ret raw
  end s = (Val test, s2, evf).
Proof.
  intros [Hnone | r r' fixed evf' Hsome Hfix].
  - rewrite Hnone. reflexivity.
  - rewrite Hsome.
    assert (Hw : with_fixReader (fixTest raw) s
                 = (Val (fixed, None),
                    {| tick := tick s; fixReader := Some r'; count := count s |},
                    evf')).
    { unfold with_fixReader. rewrite Hsome, Hfix. reflexivity. }
    erewrite bind_val by exact Hw. cbn. rewrite app_nil_r. reflexivity.
Qed.

(** A turn of the loop in which the candidate is staged and the target is
    reported to have crashed: the effects up to the call of [saveTest], and
    the arguments of that call. *)
Lemma iteration_fault (fl : Flags) (env : Env) (cmd : list string) (s : St)
  (conn : Conn) (test : list byte) (s2 : St) (evf : list Event)
  (extra0 : string) (extras : list string) :
  env_Dial env (tick s) "tcp" "127.0.0.1:4141" = inl conn ->
  conn_err conn = None ->
  len (List.concat (conn_data conn)) <= MAXLEN ->
  fix_step (advance 1 s) (List.concat (conn_data conn)) test s2 evf ->
  env_WriteFile env (tick s2) (staged_path fl) test perm_0600 = None ->
  env_Run env (S (tick s2)) (flagTimeout fl) cmd
  = ({| Extra := extra0 :: extras |}, None) ->
  iteration fl env cmd s
  = after
      ([EvDial "tcp" "127.0.0.1:4141"] ++ evf
         ++ [EvWriteFile (staged_path fl) test perm_0600;
             EvRun (flagTimeout fl) cmd;
             EvLog "[HAPPY] Crash! - %s" [L_str extra0]])
      (saveTest fl env
         (hex.EncodeToString (sha1.Sum (List.concat (conn_data conn)))
            ++ ".raw")%string
         test (advance 1 (counted (advance 1 s2)))).
Proof.
  intros Hd He Hlen Hfix Hw Hrun. unfold iteration.
  erewrite bind_val by (apply getTest_ok; eassumption).
  cbv beta iota.
  is_false (len (List.concat (conn_data conn)) >? MAXLEN).
  rewrite bind_bind, bind_get, bind_ret.
  erewrite bind_val by (apply fix_block; eassumption).
  erewrite bind_val by (apply stageTest_ok; eassumption).
  erewrite bind_val by apply incr_count_run.
  unfold francis_Run. erewrite bind_val by apply ask_run.
  cbn [tick counted advance Nat.add]. rewrite Hrun. cbv beta iota.
  cbn [Extra]. unfold log_Printf. rewrite bind_emit.
  rewrite !after_after. f_equal.
  rewrite app_nil_r, <- !app_assoc. reflexivity.
Qed.

(** ** Archival *)

Lemma saveTest_ok (fl : Flags) (env : Env) (fn : string) (raw : list byte)
  (s : St) :
  env_WriteFile env (tick s)
    (path.Join [flagDestDir fl; "crashes"; fn]%string) raw perm_0600 = None ->
  saveTest fl env fn raw s
  = (Val tt, advance 1 s,
     [EvWriteFile (path.Join [flagDestDir fl; "crashes"; fn]%string) raw
        perm_0600]).
Proof.
  intros Hw. unfold saveTest, ioutil_WriteFile.
  erewrite bind_val by apply ask_run. rewrite Hw. reflexivity.
Qed.

Lemma saveTest_failed (fl : Flags) (env : Env) (fn : string)
  (raw : list byte) (s : St) (e : error) :
  env_WriteFile env (tick s)
    (path.Join [flagDestDir fl; "crashes"; fn]%string) raw perm_0600
  = Some e ->
  saveTest fl env fn raw s
  = (Exit 1, advance 1 s,
     [EvWriteFile (path.Join [flagDestDir fl; "crashes"; fn]%string) raw
        perm_0600;
      EvLog ("[SUPER SAD] failed to write crashfile!: %s" ++ nl) [L_err e];
      EvLog ("[SUPER SAD] (that hexdump was the last test)" ++ nl) []]).
Proof.
  intros Hw. unfold saveTest, ioutil_WriteFile.
  erewrite bind_val by apply ask_run. rewrite Hw. reflexivity.
Qed.

(** C9 (what the code does). When the crash record cannot be written,
    [saveTest] logs the error and the line [(that hexdump was the last
    test)] and exits with status 1, so the loop does not go on; between the
    two lines nothing is printed, since the string that [hex.Dump] returns
    is dropped. *)
Theorem saveTest_write_fails (fl : Flags) (env : Env) (fn : string)
  (raw : list byte) (s : St) (e : error) :
  env_WriteFile env (tick s)
    (path.Join [flagDestDir fl; "crashes"; fn]%string) raw perm_0600
  = Some e ->
  saveTest fl env fn raw s
  = (Exit 1, advance 1 s,
     [EvWriteFile (path.Join [flagDestDir fl; "crashes"; fn]%string) raw
        perm_0600;
      EvLog ("[SUPER SAD] failed to write crashfile!: %s" ++ nl) [L_err e];
      EvLog ("[SUPER SAD] (that hexdump was the last test)" ++ nl) []]).
Proof.
  intros Hw. unfold saveTest, ioutil_WriteFile.
  erewrite bind_val by apply ask_run. rewrite Hw. cbv beta iota zeta.
  unfold log_Printf, log_Fatalf. rewrite !bind_emit. reflexivity.
Qed.

Lemma saveTest_write_fails_witness :
  saveTest demo_flags readonly_env "da39.raw" [x00; x01; x02] St0
  = (Exit 1, advance 1 St0,
     [EvWriteFile "work/crashes/da39.raw" [x00; x01; x02] perm_0600;
      EvLog ("[SUPER SAD] failed to write crashfile!: %s" ++ nl)
        [L_err (SysError "no such file or directory")];
      EvLog ("[SUPER SAD] (that hexdump was the last test)" ++ nl) []]).
Proof.
  apply (saveTest_write_fails demo_flags readonly_env "da39.raw"
           [x00; x01; x02] St0 (SysError "no such file or directory")).
  reflexivity.
Defined.

(** Whatever the file system answers, [saveTest] first writes its bytes to
    the file of its name under [crashes]. *)
Lemma saveTest_writes (fl : Flags) (env : Env) (fn : string)
  (raw : list byte) (s : St) :
  exists o tail,
    saveTest fl env fn raw s
    = (o, advance 1 s,
       EvWriteFile (path.Join [flagDestDir fl; "crashes"; fn]%string) raw
         perm_0600 :: tail).
Proof.
  destruct (env_WriteFile env (tick s)
              (path.Join [flagDestDir fl; "crashes"; fn]%string) raw perm_0600)
    as [e|] eqn:Hw.
  - eexists _, _. apply saveTest_failed. exact Hw.
  - eexists _, _. apply saveTest_ok. exact Hw.
Qed.

Lemma fix_step_replies (s s2 : St) (raw test : list byte)
  (evf : list Event) :
  fix_step s raw test s2 evf ->
  (fixReader s = None -> test = raw /\ evf = [])
  /\ (forall r fixed rest,
        fixReader s = Some r ->
        unread r = netstring fixed ++ rest -> len fixed <= MAXLEN ->
        test = fixed).
Proof.
  intros [Hnone | r r' fixed evf' Hsome Hfix]; split.
  - auto.
  - intros r fixed rest Hr. congruence.
  - intros Hnone. congruence.
  - intros r0 fixed0 rest Hr Hu Hmax.
    assert (r0 = r) by congruence. subst r0.
    unfold fixTest in Hfix. rewrite bind_emit in Hfix.
    destruct r as [u e]. cbn [unread] in Hu. subst u.
    erewrite bind_val in Hfix
      by (apply readNetString_netstring; assumption).
    cbn in Hfix. congruence.
Qed.

(** When a turn of the loop ends the process, no later turn runs. *)
Lemma main_loop_stops (fl : Flags) (env : Env) (cmd : list string) (s s' : St)
  (c : Z) (ev : list Event) (n : nat) :
  iteration fl env cmd s = (Exit c, s', ev) ->
  main_loop fl env (S n) cmd s = (Exit c, s', ev).
Proof. intros H. cbn [main_loop]. apply bind_exit. exact H. Qed.

(** A turn in which the target crashed and the crash record cannot be
    written ends the process, after the two lines of [saveTest]. *)
Lemma iteration_save_fails (fl : Flags) (env : Env) (cmd : list string)
  (s : St) (conn : Conn) (test : list byte) (s2 : St) (evf : list Event)
  (extra0 : string) (extras : list string) (e : error) :
  env_Dial env (tick s) "tcp" "127.0.0.1:4141" = inl conn ->
  conn_err conn = None ->
  len (List.concat (conn_data conn)) <= MAXLEN ->
  fix_step (advance 1 s) (List.concat (conn_data conn)) test s2 evf ->
  env_WriteFile env (tick s2) (staged_path fl) test perm_0600 = None ->
  env_Run env (S (tick s2)) (flagTimeout fl) cmd
  = ({| Extra := extra0 :: extras |}, None) ->
  env_WriteFile env (S (S (tick s2)))
    (crash_path fl (sha1.Sum (List.concat (conn_data conn)))) test perm_0600
  = Some e ->
  iteration fl env cmd s
  = (Exit 1, advance 1 (advance 1 (counted (advance 1 s2))),
     [EvDial "tcp" "127.0.0.1:4141"] ++ evf
       ++ [EvWriteFile (staged_path fl) test perm_0600;
           EvRun (flagTimeout fl) cmd;
           EvLog "[HAPPY] Crash! - %s" [L_str extra0];
           EvWriteFile
             (crash_path fl (sha1.Sum (List.concat (conn_data conn))))
             test perm_0600;
           EvLog ("[SUPER SAD] failed to write crashfile!: %s" ++ nl)
             [L_err e];
           EvLog ("[SUPER SAD] (that hexdump was the last test)" ++ nl) []]).
Proof.
  intros Hd He Hlen Hfix Hw Hrun Hsave.
  rewrite (iteration_fault fl env cmd s conn test s2 evf extra0 extras)
    by assumption.
  erewrite saveTest_failed by exact Hsave.
  cbn [after]. rewrite <- ?app_assoc. reflexivity.
Qed.

(** C1 (amended). In a turn of the loop in which the target is reported to
    have crashed, the bytes written to the crash record are the bytes that
    were staged for that run: the candidate as the generator sent it when no
    fixer is configured, and the candidate that the fixer returned when one
    is configured. *)
Theorem crash_record_holds_staged_bytes (fl : Flags) (env : Env)
  (cmd : list string) (s : St) (conn : Conn) (test : list byte) (s2 : St)
  (evf : list Event) (extra0 : string) (extras : list string) :
  env_Dial env (tick s) "tcp" "127.0.0.1:4141" = inl conn ->
  conn_err conn = None ->
  len (List.concat (conn_data conn)) <= MAXLEN ->
  fix_step (advance 1 s) (List.concat (conn_data conn)) test s2 evf ->
  env_WriteFile env (tick s2) (staged_path fl) test perm_0600 = None ->
  env_Run env (S (tick s2)) (flagTimeout fl) cmd
  = ({| Extra := extra0 :: extras |}, None) ->
  (exists o s' tail,
      iteration fl env cmd s
      = (o, s',
         [EvDial "tcp" "127.0.0.1:4141"] ++ evf
           ++ [EvWriteFile (staged_path fl) test perm_0600;
               EvRun (flagTimeout fl) cmd;
               EvLog "[HAPPY] Crash! - %s" [L_str extra0];
               EvWriteFile
                 (crash_path fl (sha1.Sum (List.concat (conn_data conn))))
                 test perm_0600]
           ++ tail))
  /\ (fixReader s = None -> test = List.concat (conn_data conn))
  /\ (forall r fixed rest,
        fixReader s = Some r ->
        unread r = netstring fixed ++ rest -> len fixed <= MAXLEN ->
        test = fixed).
Proof.
  intros Hd He Hlen Hfix Hw Hrun.
  destruct (fix_step_replies _ _ _ _ _ Hfix) as [Hnone Hsome].
  split; [|split].
  - rewrite (iteration_fault fl env cmd s conn test s2 evf extra0 extras)
      by assumption.
    destruct (saveTest_writes fl env
                (hex.EncodeToString (sha1.Sum (List.concat (conn_data conn)))
                   ++ ".raw")%string
                test (advance 1 (counted (advance 1 s2))))
      as (o & tail & Hsave).
    rewrite Hsave. exists o, (advance 1 (advance 1 (counted (advance 1 s2)))), tail.
    cbn [after]. fold (crash_path fl (sha1.Sum (List.concat (conn_data conn)))).
    rewrite <- !app_assoc. reflexivity.
  - intros H. apply Hnone. exact H.
  - exact Hsome.
Qed.

Lemma crash_record_holds_staged_bytes_witness :
  exists o s' tail,
    iteration demo_flags demo_env ["target"; "work/.cur_input"]%string
      fixer_state
    = (o, s',
       [EvDial "tcp" "127.0.0.1:4141"]
         ++ [EvConnWrite (bytes_of "1:A,"); EvReadBytes ":"%byte; EvMake 4;
             EvReadFull 4; EvReadByte]
         ++ [EvWriteFile (staged_path demo_flags) (bytes_of "AAAA") perm_0600;
             EvRun (-1) ["target"; "work/.cur_input"]%string;
             EvLog "[HAPPY] Crash! - %s" [L_str "SIGSEGV"];
             EvWriteFile
               (crash_path demo_flags (sha1.Sum (bytes_of "A")))
               (bytes_of "AAAA") perm_0600]
         ++ tail).
Proof.
  apply (proj1
           (crash_record_holds_staged_bytes demo_flags demo_env
              ["target"; "work/.cur_input"]%string fixer_state
              {| conn_data := [bytes_of "A"]; conn_err := None |}
              (bytes_of "AAAA")
              {| tick := 1; fixReader := Some (mkReader []); count := 0 |}
              [EvConnWrite (bytes_of "1:A,"); EvReadBytes ":"%byte; EvMake 4;
               EvReadFull 4; EvReadByte]
              "SIGSEGV" []
              eq_refl eq_refl ltac:(vm_compute; discriminate)
              (fix_step_fixed (advance 1 fixer_state) (bytes_of "A")
                 (mkReader (bytes_of "4:AAAA,")) (mkReader [])
                 (bytes_of "AAAA") _ eq_refl eq_refl)
              eq_refl eq_refl)).
Defined.

(** C1, as stated, fails: the generator sends [A], the fixer answers
    [AAAA], the target crashes, and the crash record gets [AAAA], which is
    not what the generator sent. *)
Lemma crash_record_not_raw :
  iteration demo_flags demo_env ["target"; "work/.cur_input"]%string
    fixer_state
  = (Val tt,
     {| tick := 4; fixReader := Some (mkReader []); count := 1 |},
     [EvDial "tcp" "127.0.0.1:4141";
      EvConnWrite (bytes_of "1:A,"); EvReadBytes ":"%byte; EvMake 4;
      EvReadFull 4; EvReadByte;
      EvWriteFile "work/.cur_input" (bytes_of "AAAA") perm_0600;
      EvRun (-1) ["target"; "work/.cur_input"]%string;
      EvLog "[HAPPY] Crash! - %s" [L_str "SIGSEGV"];
      EvWriteFile "work/crashes/6dcd4ce23d88e2ee9568ba546c007c63d9131c1b.raw"
        (bytes_of "AAAA") perm_0600])
  /\ env_Dial demo_env 0 "tcp" "127.0.0.1:4141"
     = inl {| conn_data := [bytes_of "A"]; conn_err := None |}
  /\ bytes_of "AAAA" <> bytes_of "A".
Proof.
  split; [vm_compute; reflexivity|].
  split; [reflexivity | discriminate].
Qed.

(** ** Effects of a computation *)

Lemma sat_ret {S A : Type} (P : Event -> Prop) (Q : A -> Prop) (a : A) :
  Q a -> sat P Q (@ret S A a).
Proof.
  intros HQ s. cbn. split; [constructor|]. intros a' [= <-]. exact HQ.
Qed.

Lemma sat_bind {S A B : Type} (P : Event -> Prop) (Q1 : A -> Prop)
  (Q2 : B -> Prop) (m : M S A) (k : A -> M S B) :
  sat P Q1 m -> (forall a, Q1 a -> sat P Q2 (k a)) -> sat P Q2 (bind m k).
Proof.
  intros Hm Hk s. unfold bind. specialize (Hm s).
  destruct (m s) as [[[a| | |] s1] ev1]; cbn in Hm; destruct Hm as [Hev Hval];
    cbn; try (split; [assumption | discriminate]).
  specialize (Hk a (Hval a eq_refl) s1).
  destruct (k a s1) as [[o s2] ev2]. cbn in Hk |- *. destruct Hk as [Hev2 Hv2].
  split; [apply Forall_app; split; assumption | assumption].
Qed.

Lemma sat_weaken {S A : Type} (P P' : Event -> Prop) (Q Q' : A -> Prop)
  (m : M S A) :
  (forall e, P e -> P' e) -> (forall a, Q a -> Q' a) ->
  sat P Q m -> sat P' Q' m.
Proof.
  intros HP HQ Hm s. destruct (Hm s) as [Hev Hval]. split.
  - eapply Forall_impl; eassumption.
  - intros a Ha. apply HQ, Hval, Ha.
Qed.

Lemma sat_emit {S : Type} (P : Event -> Prop) (e : Event) :
  P e -> sat P (fun _ => True) (@emit S e).
Proof. intros HP s. cbn. split; [repeat constructor; assumption | trivial]. Qed.

Lemma sat_get {S : Type} (P : Event -> Prop) :
  sat P (fun _ => True) (@get S).
Proof. intros s. cbn. split; [constructor | trivial]. Qed.

Lemma sat_put {S : Type} (P : Event -> Prop) (s' : S) :
  sat P (fun _ => True) (put s').
Proof. intros s. cbn. split; [constructor | trivial]. Qed.

Lemma sat_exit {S A : Type} (P : Event -> Prop) (Q : A -> Prop) (c : Z) :
  sat P Q (@os_Exit S A c).
Proof. intros s. cbn. split; [constructor | discriminate]. Qed.

Lemma sat_panic {S A : Type} (P : Event -> Prop) (Q : A -> Prop)
  (r : string) :
  sat P Q (@panic S A r).
Proof. intros s. cbn. split; [constructor | discriminate]. Qed.

Lemma sat_Printf {S : Type} (P : Event -> Prop) (f : string)
  (a : list LogArg) :
  P (EvLog f a) -> sat P (fun _ => True) (@log_Printf S f a).
Proof. apply sat_emit. Qed.

Lemma sat_Fatalf {S A : Type} (P : Event -> Prop) (Q : A -> Prop)
  (f : string) (a : list LogArg) :
  P (EvLog f a) -> sat P Q (@log_Fatalf S A f a).
Proof.
  intros HP. unfold log_Fatalf.
  eapply sat_bind; [apply sat_emit, HP | intros; apply sat_exit].
Qed.

Lemma sat_ask {A : Type} (P : Event -> Prop) (answer : nat -> A)
  (e : Event) :
  P e -> sat P (fun _ => True) (ask answer e).
Proof. intros HP s. cbn. split; [repeat constructor; assumption | trivial]. Qed.

Lemma sat_with_fixReader {A : Type} (P : Event -> Prop) (Q : A -> Prop)
  (m : M Reader A) :
  sat P Q m -> sat P Q (with_fixReader m).
Proof.
  intros Hm s. unfold with_fixReader. destruct (fixReader s) as [r|].
  - specialize (Hm r). destruct (m r) as [[o r'] ev]. exact Hm.
  - cbn. split; [constructor | discriminate].
Qed.

(** The steps of [readNetString]. *)

Lemma sat_ReadBytes (delim : byte) :
  sat fixer_event (fun _ => True) (ReadBytes delim).
Proof.
  unfold ReadBytes.
  eapply sat_bind; [apply sat_get | intros r _].
  eapply sat_bind; [apply sat_emit; exact I | intros _ _].
  destruct (cut delim (unread r)) as [[line rest]|];
    (eapply sat_bind; [apply sat_put | intros; apply sat_ret; trivial]).
Qed.

Lemma sat_make_bytes {S : Type} (n : Z) :
  sat fixer_event (fun data => len data = n) (@make_bytes S n).
Proof.
  unfold make_bytes.
  eapply sat_bind; [apply sat_emit; exact I | intros _ _].
  destruct (n <? 0) eqn:Hn.
  - apply sat_panic.
  - apply sat_ret. apply Z.ltb_ge in Hn. apply len_repeat. exact Hn.
Qed.

Lemma sat_io_ReadFull (buf : list byte) :
  sat fixer_event (fun '(data, _, _) => len data = len buf)
    (io_ReadFull buf).
Proof.
  unfold io_ReadFull.
  eapply sat_bind; [apply sat_get | intros r _].
  eapply sat_bind; [apply sat_emit; exact I | intros _ _].
  destruct (len buf =? 0); [apply sat_ret; reflexivity|].
  destruct (len buf <=? len (unread r)) eqn:Hle.
  - apply Z.leb_le in Hle.
    eapply sat_bind; [apply sat_put | intros _ _]. apply sat_ret.
    unfold len in *. rewrite length_firstn. lia.
  - apply Z.leb_gt in Hle.
    eapply sat_bind; [apply sat_put | intros _ _]. apply sat_ret.
    unfold len in *. rewrite length_app, length_skipn. lia.
Qed.

Lemma sat_ReadByte : sat fixer_event (fun _ => True) ReadByte.
Proof.
  unfold ReadByte.
  eapply sat_bind; [apply sat_get | intros r _].
  eapply sat_bind; [apply sat_emit; exact I | intros _ _].
  destruct (unread r) as [|b rest].
  - apply sat_ret. trivial.
  - eapply sat_bind; [apply sat_put | intros; apply sat_ret; trivial].
Qed.

(** What [readNetString] returns without an error has at most [MAXLEN]
    bytes, and it only reads and allocates. *)
Lemma sat_readNetString :
  sat fixer_event (fun '(data, err) => err = None -> len data <= MAXLEN)
    readNetString.
Proof.
  unfold readNetString.
  eapply sat_bind; [apply sat_ReadBytes | intros [lenBytes err] _].
  destruct err as [e|]; [apply sat_ret; discriminate|].
  destruct (strconv.ParseInt (removelast lenBytes) 0) as [i perr].
  destruct (i >? MAXLEN) eqn:Hi; [apply sat_ret; discriminate|].
  rewrite Z.gtb_ltb in Hi. apply Z.ltb_ge in Hi.
  destruct (strconv_error perr); [apply sat_ret; discriminate|].
  eapply sat_bind; [apply sat_make_bytes | intros buf Hbuf].
  eapply sat_bind; [apply sat_io_ReadFull | intros [[data n] err] Hdata].
  destruct err as [e|]; [apply sat_ret; discriminate|].
  eapply sat_bind; [apply sat_ReadByte | intros [b err] _].
  destruct err as [e|]; [apply sat_ret; discriminate|].
  cbv beta iota in Hdata, Hbuf.
  destruct (negb (Byte.eqb b ","%byte)); apply sat_ret;
    [discriminate | intros _; lia].
Qed.

Lemma sat_fixTest (t : list byte) :
  sat fixer_event (fun '(data, err) => err = None -> len data <= MAXLEN)
    (fixTest t).
Proof.
  unfold fixTest.
  eapply sat_bind; [apply sat_emit; exact I | intros _ _].
  eapply sat_bind; [apply sat_readNetString | intros [fixed err] Hfixed].
  destruct err as [e|]; apply sat_ret; [discriminate | exact Hfixed].
Qed.

Lemma fixer_event_small (e : Event) : fixer_event e -> small_write e.
Proof. destruct e; cbn; trivial; contradiction. Qed.

(** The steps of the loop. *)

Lemma sat_getTest (env : Env) :
  sat small_write (fun _ => True) (getTest env).
Proof.
  unfold getTest, net_Dial.
  eapply sat_bind; [apply sat_ask; exact I | intros [conn|e] _].
  - destruct (ReadAll_tee (conn_data conn) sha1.New []) as [raw hsh].
    destruct (conn_err conn); [apply sat_Fatalf; exact I | apply sat_ret; trivial].
  - apply sat_Fatalf. exact I.
Qed.

Lemma sat_stageTest (fl : Flags) (env : Env) (raw : list byte) :
  len raw <= MAXLEN ->
  sat small_write (fun _ => True) (stageTest fl env raw).
Proof.
  intros Hraw. unfold stageTest, ioutil_WriteFile.
  eapply sat_bind; [apply sat_ask; exact Hraw | intros [e|] _].
  - apply sat_Fatalf. exact I.
  - apply sat_ret. trivial.
Qed.

Lemma sat_saveTest (fl : Flags) (env : Env) (fn : string) (raw : list byte) :
  len raw <= MAXLEN ->
  sat small_write (fun _ => True) (saveTest fl env fn raw).
Proof.
  intros Hraw. unfold saveTest, ioutil_WriteFile.
  eapply sat_bind; [apply sat_ask; exact Hraw | intros [e|] _].
  - eapply sat_bind; [apply sat_Printf; exact I | intros _ _].
    apply sat_Fatalf. exact I.
  - apply sat_ret. trivial.
Qed.

Lemma sat_iteration (fl : Flags) (env : Env) (cmd : list string) :
  sat small_write (fun _ => True) (iteration fl env cmd).
Proof.
  unfold iteration.
  eapply sat_bind; [apply sat_getTest | intros [test sha] _].
  destruct (len test >? MAXLEN) eqn:Hlen; [apply sat_ret; trivial|].
  rewrite Z.gtb_ltb in Hlen. apply Z.ltb_ge in Hlen.
  eapply sat_bind with (Q1 := fun _ => True).
  { eapply sat_bind; [apply sat_get | intros; apply sat_ret; trivial]. }
  intros fixConn _.
  eapply sat_bind with (Q1 := fun t => len t <= MAXLEN).
  { destruct fixConn as [r|]; [|apply sat_ret; exact Hlen].
    eapply sat_bind.
    - apply sat_with_fixReader.
      eapply sat_weaken; [apply fixer_event_small | | apply sat_fixTest].
      intros a Ha. exact Ha.
    - intros [fixed err] Hfixed. destruct err as [e|].
      + apply sat_Fatalf. exact I.
      + apply sat_ret. apply Hfixed. reflexivity. }
  intros staged Hstaged.
  eapply sat_bind; [apply sat_stageTest; exact Hstaged | intros _ _].
  eapply sat_bind with (Q1 := fun _ => True).
  { intros s. cbn. split; [constructor | trivial]. }
  intros _ _. unfold francis_Run.
  eapply sat_bind; [apply sat_ask; exact I | intros [ci err] _].
  destruct err as [e|]; [apply sat_ret; trivial|].
  destruct (Extra ci) as [|extra0 extras]; [apply sat_panic|].
  eapply sat_bind; [apply sat_Printf; exact I | intros _ _].
  apply sat_saveTest. exact Hstaged.
Qed.

Lemma sat_main_loop (fl : Flags) (env : Env) (cmd : list string) (n : nat) :
  sat small_write (fun _ => True) (main_loop fl env n cmd).
Proof.
  induction n as [|n IH]; cbn [main_loop].
  - apply sat_ret. trivial.
  - eapply sat_bind; [apply sat_iteration | intros _ _; exact IH].
Qed.

Lemma sat_sleepyConnect_loop (env : Env) (dest : string) (fuel : nat) :
  forall zzz,
    sat small_write (fun _ => True) (sleepyConnect_loop env fuel dest zzz).
Proof.
  induction fuel as [|fuel IH]; intros zzz; cbn [sleepyConnect_loop].
  - intros s. cbn. split; [constructor | trivial].
  - destruct (zzz >? 1 * Second); [apply sat_ret; trivial|].
    eapply sat_bind; [apply sat_emit; exact I | intros _ _].
    eapply sat_bind; [apply sat_ask; exact I | intros [c|e] _].
    + apply sat_ret. trivial.
    + apply IH.
Qed.

Lemma sat_seq {A : Type} (m : M St A) :
  sat small_write (fun _ => True) m ->
  forall (B : Type) (k : A -> M St B),
    (forall a, sat small_write (fun _ => True) (k a)) ->
    sat small_write (fun _ => True) (bind m k).
Proof. intros Hm B k Hk. eapply sat_bind; [exact Hm | intros a _; apply Hk]. Qed.

Lemma sat_start_generator (fl : Flags) (env : Env) :
  sat small_write (fun _ => True) (start_generator fl env).
Proof.
  unfold start_generator, os_Stat, filepath_Glob, exec_Start.
  destruct (len (list_byte_of_string (flagSrcDir fl)) >? 0);
    [|apply sat_ret; trivial].
  apply sat_seq; [apply sat_ask; exact I | intros [fi|e]].
  - destruct (negb (IsDir fi)); [apply sat_Fatalf; exact I|].
    apply sat_seq; [apply sat_ask; exact I | intros files].
    apply sat_seq.
    { destruct (len files <? 1);
        [apply sat_Printf; exact I | apply sat_ret; trivial]. }
    intros _. apply sat_seq; [apply sat_Printf; exact I | intros _].
    apply sat_seq; [apply sat_ask; exact I | intros [e|]].
    + apply sat_Fatalf. exact I.
    + apply sat_ret. trivial.
  - apply sat_Fatalf. exact I.
Qed.

Lemma sat_check_generator (env : Env) (srvAddr : string) :
  sat small_write (fun _ => True) (check_generator env srvAddr).
Proof.
  unfold check_generator, sleepyConnect.
  apply sat_seq; [apply sat_sleepyConnect_loop | intros [conn err]].
  destruct err as [e|]; [apply sat_Fatalf; exact I|].
  destruct conn as [c|]; [|apply sat_panic].
  destruct (ioutil_ReadAll c) as [data [e|]];
    [apply sat_Fatalf | apply sat_Printf]; exact I.
Qed.

Lemma sat_check_dest (fl : Flags) (env : Env) :
  sat small_write (fun _ => True) (check_dest fl env).
Proof.
  unfold check_dest, os_Stat, os_MkdirAll, ioutil_WriteFile.
  apply sat_seq; [apply sat_ask; exact I | intros r].
  apply sat_seq.
  { destruct r as [fi|e].
    - destruct (negb (IsDir fi));
        [apply sat_Fatalf; exact I | apply sat_ret; trivial].
    - apply sat_seq; [apply sat_ask; exact I | intros [e'|]].
      + apply sat_Fatalf. exact I.
      + apply sat_ret. trivial. }
  intros _. apply sat_seq.
  { apply sat_ask. cbn. discriminate. }
  intros [e|]; [apply sat_Fatalf | apply sat_Printf]; exact I.
Qed.

Lemma sat_dial_fixer (fl : Flags) (env : Env) :
  sat small_write (fun _ => True) (dial_fixer fl env).
Proof.
  unfold dial_fixer, net_Dial.
  destruct (negb (String.eqb (flagFix fl) "")); [|apply sat_ret; trivial].
  apply sat_seq; [apply sat_ask; exact I | intros [c|e]].
  - apply sat_seq; [apply sat_get | intros s]. apply sat_put.
  - apply sat_Fatalf. exact I.
Qed.

Lemma sat_main (fl : Flags) (env : Env) (n : nat) :
  sat small_write (fun _ => True) (main fl env n).
Proof.
  unfold main.
  apply sat_seq; [apply sat_Printf; exact I | intros _].
  destruct (len (args fl) <? 2); [apply sat_Fatalf; exact I|].
  destruct (_ && _); [apply sat_Fatalf; exact I|].
  destruct (_ && _); [apply sat_Fatalf; exact I|].
  apply sat_seq; [apply sat_start_generator | intros srvAddr].
  apply sat_seq; [apply sat_check_generator | intros _].
  apply sat_seq; [apply sat_check_dest | intros _].
  destruct (substitute fl (args fl)) as [testCmd sub].
  destruct (sub =? 0); [apply sat_Fatalf; exact I|].
  apply sat_seq; [apply sat_Printf; exact I | intros _].
  apply sat_seq; [apply sat_dial_fixer | intros _].
  apply sat_seq; [apply sat_Printf; exact I | intros _].
  apply sat_main_loop.
Qed.

(** C10. Every file that the loop writes, in any number of turns, from any
    state and with any answers of the generator, the fixer, the file system
    and the target, gets at most [MAXLEN] bytes; the writes of the staged
    file are among them. The same holds for the whole of [main], whose
    startup writes the four bytes [test] to the staged file. *)
Theorem staged_writes_bounded (fl : Flags) (env : Env) (cmd : list string)
  (n : nat) (s : St) :
  Forall small_write (snd (main_loop fl env n cmd s))
  /\ Forall small_write (snd (main fl env n s)).
Proof.
  split; [apply (sat_main_loop fl env cmd n s) | apply (sat_main fl env n s)].
Qed.

(** ** Paths *)

Lemma at_end_elem (c rest : list ascii) :
  no_slash c -> path.at_end rest = true ->
  path.at_end (c ++ rest) = match c with [] => true | _ => false end.
Proof.
  intros Hc Hrest. destruct c as [|a c]; [exact Hrest|].
  cbn. exact (Forall_inv Hc).
Qed.

Lemma copy_elem_elem (c rest out : list ascii) :
  no_slash c -> path.at_end rest = true ->
  path.copy_elem (c ++ rest) out = (rest, rev c ++ out).
Proof.
  intros Hc Hrest. revert out.
  induction Hc as [|a c Ha _ IH]; intros out.
  - cbn [app rev]. destruct rest as [|b rest]; [reflexivity|].
    cbn in Hrest |- *. rewrite Hrest. reflexivity.
  - cbn [app path.copy_elem rev]. rewrite Ha, IH, <- app_assoc. reflexivity.
Qed.

Lemma is_dot_eq (a : ascii) : path.is_dot a = true -> a = "."%char.
Proof. unfold path.is_dot. apply Ascii.eqb_eq. Qed.

(** At the start of a plain element, [Clean] takes its default case. *)
Lemma clean_loop_elem (fuel : nat) (rooted : bool) (c rest out : list ascii)
  (dotdot : nat) :
  plain_elem c -> path.at_end rest = true ->
  path.clean_loop (S fuel) rooted (c ++ rest) out dotdot
  = path.clean_loop fuel rooted rest
      (rev c ++
       (if (rooted && negb (Nat.eqb (List.length out) 1))
           || (negb rooted && negb (Nat.eqb (List.length out) 0))
        then "/"%char :: out else out))
      dotdot.
Proof.
  intros (Hne & Hns & Hdot & Hdotdot) Hrest.
  destruct c as [|c0 ct]; [contradiction|].
  pose proof (Forall_inv Hns) as H0. pose proof (Forall_inv_tail Hns) as Ht.
  cbn [app path.clean_loop]. cbv beta in H0. rewrite H0.
  rewrite (at_end_elem ct rest Ht Hrest).
  assert (H1 : path.is_dot c0 && match ct with [] => true | _ => false end
               = false).
  { destruct (path.is_dot c0) eqn:Hd; [|reflexivity].
    destruct ct; [|reflexivity]. apply is_dot_eq in Hd. congruence. }
  rewrite H1.
  assert (H2 : path.is_dot c0
               && negb match ct with [] => true | _ => false end
               && path.is_dot (hd "/"%char (ct ++ rest))
               && path.at_end (tl (ct ++ rest)) = false).
  { destruct (path.is_dot c0) eqn:Hd; [|reflexivity].
    destruct ct as [|c1 ct']; [reflexivity|].
    cbn [negb andb app hd tl].
    destruct (path.is_dot c1) eqn:Hd1; [|reflexivity].
    rewrite (at_end_elem ct' rest (Forall_inv_tail Ht) Hrest).
    destruct ct'; [|reflexivity].
    apply is_dot_eq in Hd, Hd1. congruence. }
  rewrite H2.
  change (c0 :: ct ++ rest) with ((c0 :: ct) ++ rest).
  rewrite copy_elem_elem by assumption. reflexivity.
Qed.

Lemma join_elems_cons (c : list ascii) (elems : list (list ascii)) :
  elems <> [] ->
  join_elems (c :: elems) = c ++ "/"%char :: join_elems elems.
Proof. destruct elems; [contradiction | reflexivity]. Qed.

(** [Clean] copies plain elements and the slashes between them. *)
Lemma clean_loop_elems (rooted : bool) (dotdot : nat)
  (elems : list (list ascii)) :
  Forall plain_elem elems -> elems <> [] ->
  forall (fuel : nat) (out : list ascii),
    (List.length (join_elems elems) < fuel)%nat ->
    (rooted = true -> out <> []) ->
    path.clean_loop fuel rooted (join_elems elems) out dotdot
    = rev (join_elems elems) ++
      (if (rooted && negb (Nat.eqb (List.length out) 1))
          || (negb rooted && negb (Nat.eqb (List.length out) 0))
       then "/"%char :: out else out).
Proof.
  induction 1 as [|c elems Hc Helems IH]; intros Hne fuel out Hfuel Hout;
    [contradiction|].
  destruct fuel as [|fuel]; [lia|].
  destruct elems as [|c' elems].
  - cbn [join_elems]. rewrite <- (app_nil_r c) at 1.
    rewrite clean_loop_elem by (assumption || reflexivity).
    destruct fuel; reflexivity.
  - rewrite join_elems_cons in * by discriminate.
    rewrite clean_loop_elem by (assumption || reflexivity).
    rewrite length_app in Hfuel. cbn [List.length] in Hfuel.
    destruct fuel as [|fuel]; [lia|].
    cbn [path.clean_loop]. change (path.is_slash "/"%char) with true.
    cbv iota.
    set (out1 := if (rooted && negb (Nat.eqb (List.length out) 1))
                    || (negb rooted && negb (Nat.eqb (List.length out) 0))
                 then "/"%char :: out else out).
    assert (Hlen : (List.length out <= List.length out1)%nat).
    { unfold out1. destruct (_ || _); cbn [List.length]; lia. }
    destruct Hc as (Hcne & _).
    assert (Hc1 : (1 <= List.length c)%nat).
    { destruct c; [contradiction | cbn; lia]. }
    rewrite IH.
    + assert (Hsl : (rooted && negb (Nat.eqb (List.length (rev c ++ out1)) 1))
                    || (negb rooted
                        && negb (Nat.eqb (List.length (rev c ++ out1)) 0))
                    = true).
      { rewrite length_app, length_rev.
        destruct rooted; cbn [andb orb negb].
        - assert (1 <= List.length out)%nat.
          { destruct out; [exfalso; apply Hout; reflexivity | cbn; lia]. }
          rewrite orb_false_r.
          destruct (Nat.eqb_spec (List.length c + List.length out1) 1);
            [lia | reflexivity].
        - destruct (Nat.eqb_spec (List.length c + List.length out1) 0);
            [lia | reflexivity]. }
      rewrite Hsl. rewrite rev_app_distr. cbn [rev].
      rewrite <- !app_assoc. reflexivity.
    + discriminate.
    + lia.
    + intros _ H. apply app_eq_nil in H. destruct H as [H _].
      destruct c; [contradiction | ].
      cbn in H. apply app_eq_nil in H. destruct H; discriminate.
Qed.

Lemma list_ascii_of_string_app (a b : string) :
  list_ascii_of_string (a ++ b)
  = list_ascii_of_string a ++ list_ascii_of_string b.
Proof. induction a as [|c a IH]; cbn; [|rewrite IH]; reflexivity. Qed.

Lemma join_elems_app (a b : list (list ascii)) :
  a <> [] -> b <> [] ->
  join_elems (a ++ b) = join_elems a ++ "/"%char :: join_elems b.
Proof.
  intros Ha Hb. induction a as [|c a IH]; [contradiction|].
  destruct a as [|c' a].
  - cbn [app]. rewrite join_elems_cons by assumption. reflexivity.
  - cbn [app] in *. rewrite join_elems_cons by discriminate.
    rewrite IH by discriminate.
    rewrite (join_elems_cons c) by discriminate.
    rewrite <- app_assoc. reflexivity.
Qed.

(** [Clean] leaves a path of plain elements as it is. *)
Lemma Clean_plain (p : string) (rooted : bool) (elems : list (list ascii)) :
  elems <> [] -> Forall plain_elem elems ->
  list_ascii_of_string p
  = (if rooted then ["/"%char] else []) ++ join_elems elems ->
  path.Clean p = p.
Proof.
  intros Hne Hel Hp. unfold path.Clean. rewrite Hp.
  assert (Hs : string_of_list_ascii
                 ((if rooted then ["/"%char] else []) ++ join_elems elems)
               = p).
  { rewrite <- Hp. apply string_of_list_ascii_of_string. }
  clear Hp.
  assert (Hj : join_elems elems <> []).
  { destruct elems as [|c elems]; [contradiction|].
    pose proof (Forall_inv Hel) as (Hc & _).
    destruct elems; cbn [join_elems]; destruct c; try contradiction;
      discriminate. }
  destruct rooted; cbn [app] in *.
  - change (path.is_slash "/"%char) with true. cbv iota.
    rewrite (clean_loop_elems true 1 elems Hel Hne) by (lia || discriminate).
    cbn [List.length Nat.eqb negb andb orb].
    destruct (rev (join_elems elems) ++ ["/"%char]) eqn:E.
    { apply app_eq_nil in E. destruct E; discriminate. }
    rewrite <- E, rev_app_distr, rev_involutive. exact Hs.
  - assert (H0 : path.is_slash (hd "/"%char (join_elems elems)) = false).
    { destruct elems as [|c elems]; [contradiction|].
      pose proof (Forall_inv Hel) as (Hc & Hns & _).
      destruct c as [|a c]; [contradiction|].
      replace (hd "/"%char (join_elems ((a :: c) :: elems))) with a
        by (destruct elems; reflexivity).
      exact (Forall_inv Hns). }
    pose proof (clean_loop_elems false 0 elems Hel Hne
                  (S (List.length (join_elems elems))) []
                  ltac:(lia) ltac:(discriminate)) as Hloop.
    cbn [List.length Nat.eqb negb andb orb] in Hloop.
    rewrite app_nil_r in Hloop.
    destruct (join_elems elems) as [|c0 tl0]; [contradiction|].
    cbn [hd] in H0. rewrite H0.
    cbn [List.length] in Hloop. rewrite Hloop.
    destruct (rev (c0 :: tl0)) eqn:E2.
    { apply (f_equal (@rev ascii)) in E2. rewrite rev_involutive in E2.
      discriminate. }
    rewrite <- E2, rev_involutive. exact Hs.
Qed.

Lemma plain_crashes : plain_elem (list_ascii_of_string "crashes").
Proof.
  repeat split; try discriminate. repeat constructor.
Qed.

Lemma hexdigit_no_slash (z : Z) : path.is_slash (hex.hexdigit z) = false.
Proof.
  unfold hex.hexdigit. generalize (Z.to_nat z) as n. intros n.
  do 17 (destruct n as [|n]; [reflexivity|]). destruct n; reflexivity.
Qed.

Lemma EncodeToString_no_slash (src : list byte) :
  no_slash (list_ascii_of_string (hex.EncodeToString src)).
Proof.
  induction src as [|b src IH]; cbn [hex.EncodeToString list_ascii_of_string].
  - constructor.
  - repeat constructor; try apply hexdigit_no_slash. exact IH.
Qed.

(** The name of a crash record is a plain path element. *)
Lemma plain_crash_name (sha : list byte) :
  plain_elem (list_ascii_of_string (hex.EncodeToString sha ++ ".raw")).
Proof.
  rewrite list_ascii_of_string_app.
  assert (Hlen : (4 <= List.length
                         (list_ascii_of_string (hex.EncodeToString sha)
                            ++ list_ascii_of_string ".raw"))%nat).
  { rewrite length_app. cbn. lia. }
  repeat split.
  - intros H. rewrite H in Hlen. cbn in Hlen. lia.
  - apply Forall_app. split; [apply EncodeToString_no_slash|].
    repeat constructor.
  - intros H. rewrite H in Hlen. cbn in Hlen. lia.
  - intros H. rewrite H in Hlen. cbn in Hlen. lia.
Qed.

(** Under a destination directory of plain elements, [path.Join] puts
    [/crashes/] and the name after the directory. *)
Lemma Join_crashes (dest fn : string) :
  plain_dir dest -> plain_elem (list_ascii_of_string fn) ->
  path.Join [dest; "crashes"; fn]%string
  = (dest ++ "/crashes/" ++ fn)%string.
Proof.
  intros (rooted & elems & Hne & Hel & Hdest) Hfn.
  assert (Hd : String.eqb dest EmptyString = false).
  { destruct dest; [|reflexivity]. cbn in Hdest.
    destruct rooted; [discriminate|]. cbn in Hdest.
    destruct elems as [|c elems]; [contradiction|].
    pose proof (Forall_inv Hel) as (Hc & _).
    destruct elems; cbn in Hdest; destruct c; try contradiction;
      discriminate. }
  cbn [path.Join]. rewrite Hd. cbn [path.join_slash].
  change (dest ++ "/" ++ "crashes" ++ "/" ++ fn)%string
    with (dest ++ "/crashes/" ++ fn)%string.
  apply (Clean_plain _ rooted
           (elems ++ [list_ascii_of_string "crashes";
                      list_ascii_of_string fn])).
  - intros H. apply app_eq_nil in H. destruct H; discriminate.
  - apply Forall_app. split; [assumption|].
    constructor; [apply plain_crashes|].
    constructor; [assumption | constructor].
  - rewrite list_ascii_of_string_app, Hdest, join_elems_app
      by (assumption || discriminate).
    rewrite <- app_assoc. reflexivity.
Qed.

Example plain_dir_work : plain_dir "work".
Proof.
  exists false, [list_ascii_of_string "work"].
  repeat split; try discriminate. repeat constructor; try discriminate.
Qed.

Example plain_dir_rooted : plain_dir "/path/to/workdir".
Proof.
  exists true, [list_ascii_of_string "path"; list_ascii_of_string "to";
                list_ascii_of_string "workdir"].
  repeat split; try discriminate.
  repeat constructor; try discriminate.
Qed.

Lemma writes_app (a b : list Event) : writes (a ++ b) = writes a ++ writes b.
Proof.
  induction a as [|e a IH]; [reflexivity|].
  destruct e; cbn [writes app]; rewrite ?IH; reflexivity.
Qed.

Lemma writes_fixer_events (evs : list Event) :
  Forall fixer_event evs -> writes evs = [].
Proof.
  induction 1 as [|e evs He _ IH]; [reflexivity|].
  destruct e; cbn in He; try contradiction; exact IH.
Qed.

Lemma fix_step_events (s s2 : St) (raw test : list byte)
  (evf : list Event) :
  fix_step s raw test s2 evf -> Forall fixer_event evf.
Proof.
  intros [Hnone | r r' fixed evf' Hsome Hfix]; [constructor|].
  pose proof (sat_fixTest raw r) as [Hev _]. rewrite Hfix in Hev. exact Hev.
Qed.

(** C2. In a turn of the loop in which the target is reported to have
    crashed, two files are written: the staged file, and the crash record,
    whose name is [path.Join] of the destination directory, [crashes], and
    the hexadecimal SHA-1 of the bytes the generator sent followed by
    [.raw]. The bytes the fixer returned, when there is a fixer, have no
    part in the name. When the destination directory is written as plain
    elements, that path is the directory, [/crashes/], and the name. *)
Theorem crash_record_name (fl : Flags) (env : Env) (cmd : list string)
  (s : St) (conn : Conn) (test : list byte) (s2 : St) (evf : list Event)
  (extra0 : string) (extras : list string) :
  env_Dial env (tick s) "tcp" "127.0.0.1:4141" = inl conn ->
  conn_err conn = None ->
  len (List.concat (conn_data conn)) <= MAXLEN ->
  fix_step (advance 1 s) (List.concat (conn_data conn)) test s2 evf ->
  env_WriteFile env (tick s2) (staged_path fl) test perm_0600 = None ->
  env_Run env (S (tick s2)) (flagTimeout fl) cmd
  = ({| Extra := extra0 :: extras |}, None) ->
  map fst (writes (snd (iteration fl env cmd s)))
  = [path.Join [flagDestDir fl; flagFn fl];
     path.Join
       [flagDestDir fl; "crashes";
        hex.EncodeToString (sha1.Sum (List.concat (conn_data conn)))
          ++ ".raw"]%string]
  /\ (plain_dir (flagDestDir fl) ->
      path.Join
        [flagDestDir fl; "crashes";
         hex.EncodeToString (sha1.Sum (List.concat (conn_data conn)))
           ++ ".raw"]%string
      = (flagDestDir fl ++ "/crashes/"
           ++ hex.EncodeToString (sha1.Sum (List.concat (conn_data conn)))
           ++ ".raw")%string).
Proof.
  intros Hd He Hlen Hfix Hw Hrun.
  split; [|intros Hdir; apply Join_crashes;
           [exact Hdir | apply plain_crash_name]].
  rewrite (iteration_fault fl env cmd s conn test s2 evf extra0 extras)
    by assumption.
  pose proof (fix_step_events _ _ _ _ _ Hfix) as Hevf.
  set (fn := (hex.EncodeToString (sha1.Sum (List.concat (conn_data conn)))
                ++ ".raw")%string).
  set (s3 := advance 1 (counted (advance 1 s2))).
  assert (Hsave : map fst (writes (snd (saveTest fl env fn test s3)))
                  = [path.Join [flagDestDir fl; "crashes"; fn]%string]).
  { unfold saveTest, ioutil_WriteFile.
    erewrite bind_val by apply ask_run.
    destruct (env_WriteFile env (tick s3)
                (path.Join [flagDestDir fl; "crashes"; fn]%string) test
                perm_0600); reflexivity. }
  destruct (saveTest fl env fn test s3) as [[o s'] tail].
  cbn [after snd] in *.
  rewrite !writes_app, (writes_fixer_events evf Hevf).
  cbn [writes app map fst]. rewrite Hsave. reflexivity.
Qed.

Lemma crash_record_name_witness :
  map fst
    (writes
       (snd (iteration demo_flags demo_env
               ["target"; "work/.cur_input"]%string fixer_state)))
  = ["work/.cur_input";
     "work/crashes/6dcd4ce23d88e2ee9568ba546c007c63d9131c1b.raw"]%string.
Proof.
  apply (proj1 (crash_record_name demo_flags demo_env
           ["target"; "work/.cur_input"]%string fixer_state
           {| conn_data := [bytes_of "A"]; conn_err := None |}
           (bytes_of "AAAA")
           {| tick := 1; fixReader := Some (mkReader []); count := 0 |}
           [EvConnWrite (bytes_of "1:A,"); EvReadBytes ":"%byte; EvMake 4;
            EvReadFull 4; EvReadByte]
           "SIGSEGV" []
           eq_refl eq_refl ltac:(vm_compute; discriminate)
           (fix_step_fixed (advance 1 fixer_state) (bytes_of "A")
              (mkReader (bytes_of "4:AAAA,")) (mkReader [])
              (bytes_of "AAAA") _ eq_refl eq_refl)
           eq_refl eq_refl)).
Defined.

(** C7. A candidate of more than [MAXLEN] bytes ends the turn of the loop
    when it has been fetched: the only effect of the turn is the connection
    to the generator, so nothing is sent to the fixer, no file is written
    and the target is not run; [count] and the fixer's reader are as
    before; the turn returns, and the loop goes on with its next turn. *)
Theorem oversized_candidate_skipped (fl : Flags) (env : Env)
  (cmd : list string) (s : St) (conn : Conn) :
  env_Dial env (tick s) "tcp" "127.0.0.1:4141" = inl conn ->
  conn_err conn = None ->
  MAXLEN < len (List.concat (conn_data conn)) ->
  iteration fl env cmd s
  = (Val tt, advance 1 s, [EvDial "tcp" "127.0.0.1:4141"])
  /\ count (advance 1 s) = count s
  /\ fixReader (advance 1 s) = fixReader s
  /\ forall n,
       main_loop fl env (S n) cmd s
       = after [EvDial "tcp" "127.0.0.1:4141"]
           (main_loop fl env n cmd (advance 1 s)).
Proof.
  intros Hd He Hlen.
  assert (Hit : iteration fl env cmd s
                = (Val tt, advance 1 s, [EvDial "tcp" "127.0.0.1:4141"])).
  { unfold iteration.
    erewrite bind_val by (apply getTest_ok; eassumption).
    cbv beta iota.
    is_true (len (List.concat (conn_data conn)) >? MAXLEN). reflexivity. }
  split; [exact Hit|].
  split; [reflexivity|]. split; [reflexivity|].
  intros n. cbn [main_loop]. erewrite bind_val by exact Hit. reflexivity.
Qed.

Lemma len_flood : len (List.concat (conn_data flood_conn)) = MAXLEN + 1.
Proof.
  unfold flood_conn. cbn [conn_data List.concat]. rewrite app_nil_r.
  unfold flood. apply len_repeat. discriminate.
Qed.

Lemma oversized_candidate_skipped_witness :
  iteration demo_flags flood_env ["target"; "work/.cur_input"]%string
    fixer_state
  = (Val tt, advance 1 fixer_state, [EvDial "tcp" "127.0.0.1:4141"]).
Proof.
  apply (proj1 (oversized_candidate_skipped demo_flags flood_env
                  ["target"; "work/.cur_input"]%string fixer_state
                  flood_conn eq_refl eq_refl
                  ltac:(rewrite len_flood; lia))).
Defined.

(** ** The address of the generator *)

(** [getTest] dials [127.0.0.1:4141], whatever the flags are. *)
Lemma getTest_dials_local (env : Env) (s : St) :
  exists o tail,
    getTest env s = (o, advance 1 s, EvDial "tcp" "127.0.0.1:4141" :: tail).
Proof.
  unfold getTest, net_Dial. erewrite bind_val by apply ask_run.
  destruct (env_Dial env (tick s) "tcp" "127.0.0.1:4141") as [conn|e].
  - rewrite ReadAll_tee_spec.
    destruct (conn_err conn); eexists _, _; reflexivity.
  - eexists _, _. reflexivity.
Qed.

(** Without [-src], the address that startup checks is that of [-server]. *)
Lemma start_generator_remote (fl : Flags) (env : Env) (s : St) :
  flagSrcDir fl = EmptyString ->
  start_generator fl env s = (Val (flagServer fl), s, []).
Proof. intros H. unfold start_generator. rewrite H. reflexivity. Qed.

(** C8 (what the code does). With [-server 192.168.1.1:4141], when that
    generator is up and nothing listens on this machine, startup connects
    to [192.168.1.1:4141] and finds the generator running, and the first
    turn of the loop dials [127.0.0.1:4141], is refused, and ends the
    process: [getTest] does not connect to the generator that startup
    checked. *)
Theorem getTest_ignores_server :
  main remote_flags remote_env 1 St0
  = (Exit 1, {| tick := 4; fixReader := None; count := 0 |},
     [EvLog ("%s - performing startup checks..." ++ nl) [L_str "terry"];
      EvSleep Millisecond; EvDial "tcp" "192.168.1.1:4141";
      EvLog ("[HAPPY] radamsa server is running..." ++ nl) [];
      EvStat "work";
      EvWriteFile "work/.cur_input" (bytes_of "test") perm_0600;
      EvLog ("[HAPPY] dest dir looks ok..." ++ nl) [];
      EvLog ("[CALM] Will be fuzzing: %s" ++ nl)
        [L_str "target work/.cur_input"];
      EvLog ("[HAPPY] everything looks good. Let's go!" ++ nl) [];
      EvDial "tcp" "127.0.0.1:4141";
      EvLog "[SAD] Unable to connect to radamsa server: %s"
        [L_err (SysError "connection refused")]]).
Proof. vm_compute. reflexivity. Qed.

(** * Further properties *)

(** ** The steps of the decoder, run *)

Lemma cut_some (d : byte) (u line rest : list byte) :
  cut d u = Some (line, rest) ->
  exists hdr,
    line = hdr ++ [d] /\ u = hdr ++ d :: rest
    /\ Forall (fun b => Byte.eqb b d = false) hdr.
Proof.
  revert line. induction u as [|b u IH]; intros line H; [discriminate|].
  cbn [cut] in H. destruct (Byte.eqb b d) eqn:Hb.
  - injection H as <- <-. apply Byte.byte_dec_bl in Hb. subst b.
    exists []. repeat split. constructor.
  - destruct (cut d u) as [[line' rest']|]; [|discriminate].
    injection H as <- <-. destruct (IH line' eq_refl) as (hdr & -> & -> & Hh).
    exists (b :: hdr). repeat split. constructor; assumption.
Qed.

Lemma cut_none (d : byte) (u : list byte) :
  Forall (fun b => Byte.eqb b d = false) u -> cut d u = None.
Proof.
  induction 1 as [|b u Hb _ IH]; [reflexivity|].
  cbn [cut]. rewrite Hb, IH. reflexivity.
Qed.

Lemma ReadBytes_run (d : byte) (r : Reader) :
  ReadBytes d r
  = match cut d (unread r) with
    | Some (line, rest) =>
        (Val (line, None), set_unread r rest, [EvReadBytes d])
    | None =>
        (Val (unread r, Some (at_end r)), set_unread r [], [EvReadBytes d])
    end.
Proof.
  unfold ReadBytes. rewrite bind_get, bind_emit.
  destruct (cut d (unread r)) as [[line rest]|]; rewrite bind_put; reflexivity.
Qed.

Lemma ReadBytes_header (hdr u : list byte) (e : error) :
  no_colon hdr ->
  ReadBytes ":"%byte {| unread := hdr ++ ":"%byte :: u; at_end := e |}
  = (Val (hdr ++ [":"%byte], None), {| unread := u; at_end := e |},
     [EvReadBytes ":"%byte]).
Proof.
  intros Hh. rewrite ReadBytes_run. cbn [unread].
  assert (Hc : cut ":"%byte (hdr ++ ":"%byte :: u)
               = Some (hdr ++ [":"%byte], u)).
  { induction Hh as [|b hdr Hb _ IH]; [reflexivity|].
    cbn [app cut]. rewrite Hb, IH. reflexivity. }
  rewrite Hc. reflexivity.
Qed.

Lemma io_ReadFull_short (buf t : list byte) (e : error) :
  len t < len buf ->
  exists data err,
    io_ReadFull buf {| unread := t; at_end := e |}
    = (Val (data, len t, Some err), {| unread := []; at_end := e |},
       [EvReadFull (len buf)]).
Proof.
  intros Hl. pose proof (len_nonneg t). unfold io_ReadFull.
  rewrite bind_get, bind_emit. cbn [unread].
  is_false (len buf =? 0). is_false (len buf <=? len t).
  rewrite bind_put. eexists _, _. reflexivity.
Qed.

Lemma digit_no_colon (ds : list byte) : Forall is_digit ds -> no_colon ds.
Proof.
  intros H. eapply Forall_impl; [|exact H]. intros b Hb.
  apply digit_not; [exact Hb|]. change (byteZ ":"%byte) with 58. lia.
Qed.

(** The header of a frame whose digits write a length that is accepted. *)
Lemma readNetString_accepts (hdr u : list byte) (e : error) (n : Z) :
  no_colon hdr -> strconv.ParseInt hdr 0 = (n, None) -> n <= MAXLEN ->
  readNetString {| unread := hdr ++ ":"%byte :: u; at_end := e |}
  = after [EvReadBytes ":"%byte]
      (bind (make_bytes n)
         (fun data =>
            '(data, _, err) <- io_ReadFull data ;;
            match err with
            | Some _ => ret ([], Some (Errorf "Error reading data" []))
            | None =>
                '(b, err) <- ReadByte ;;
                match err with
                | Some _ => ret ([], Some (Errorf "Missing terminator" []))
                | None =>
                    if negb (Byte.eqb b ","%byte)
                    then ret ([], Some (Errorf "Missing terminator" []))
                    else ret (data, None)
                end
            end)
         {| unread := u; at_end := e |}).
Proof.
  intros Hh Hp Hn. unfold readNetString.
  erewrite bind_val by (apply ReadBytes_header; exact Hh).
  cbv beta iota. rewrite removelast_last, Hp.
  is_false (n >? MAXLEN). reflexivity.
Qed.

Lemma make_bytes_run {S : Type} (n : Z) (s : S) :
  make_bytes n s
  = if n <? 0 then (Panic "makeslice: len out of range", s, [EvMake n])
    else (Val (repeat x00 (Z.to_nat n)), s, [EvMake n]).
Proof.
  unfold make_bytes. rewrite bind_emit. destruct (n <? 0); reflexivity.
Qed.

Lemma io_ReadFull_run (buf : list byte) (r : Reader) :
  io_ReadFull buf r
  = if len buf =? 0 then (Val (buf, 0, None), r, [EvReadFull (len buf)])
    else if len buf <=? len (unread r) then
      (Val (firstn (List.length buf) (unread r), len buf, None),
       set_unread r (skipn (List.length buf) (unread r)),
       [EvReadFull (len buf)])
    else
      (Val (unread r ++ skipn (List.length (unread r)) buf, len (unread r),
            Some (match unread r, at_end r with
                  | [], e => e
                  | _, io_EOF => io_ErrUnexpectedEOF
                  | _, e => e
                  end)),
       set_unread r [], [EvReadFull (len buf)]).
Proof.
  unfold io_ReadFull. rewrite bind_get, bind_emit.
  destruct (len buf =? 0); [reflexivity|].
  destruct (len buf <=? len (unread r)); rewrite bind_put; reflexivity.
Qed.

Lemma ReadByte_run (r : Reader) :
  ReadByte r
  = match unread r with
    | b :: rest => (Val (b, None), set_unread r rest, [EvReadByte])
    | [] => (Val (x00, Some (at_end r)), r, [EvReadByte])
    end.
Proof.
  unfold ReadByte. rewrite bind_get, bind_emit.
  destruct (unread r); [reflexivity|]. rewrite bind_put. reflexivity.
Qed.

(** ** What the decoder accepts and what it refuses *)

(** X1. Whatever [readNetString] returns without an error was a frame at
    the head of the stream: the bytes before the first colon are read by
    [strconv.ParseInt] as the length of the payload, which is at most
    [MAXLEN]; the payload is followed by a comma; and the reader is left at
    the first byte after that comma. *)
Theorem readNetString_sound (r r' : Reader) (data : list byte)
  (ev : list Event) :
  readNetString r = (Val (data, None), r', ev) ->
  exists hdr,
    unread r = hdr ++ ":"%byte :: data ++ ","%byte :: unread r'
    /\ no_colon hdr
    /\ strconv.ParseInt hdr 0 = (len data, None)
    /\ len data <= MAXLEN
    /\ at_end r' = at_end r
    /\ ev = [EvReadBytes ":"%byte; EvMake (len data); EvReadFull (len data);
             EvReadByte].
Proof.
  intros H. destruct r as [u e]. unfold readNetString in H.
  unfold bind at 1 in H. rewrite ReadBytes_run in H. cbn [unread at_end] in H.
  destruct (cut ":"%byte u) as [[line rest]|] eqn:Hcut; [|discriminate].
  destruct (cut_some _ _ _ _ Hcut) as (hdr & -> & -> & Hh).
  cbv beta iota in H. rewrite removelast_last in H.
  destruct (strconv.ParseInt hdr 0) as [i perr] eqn:Hp.
  destruct (i >? MAXLEN) eqn:Hi; [discriminate|].
  rewrite Z.gtb_ltb in Hi. apply Z.ltb_ge in Hi.
  destruct perr as [pe|]; [discriminate|]. cbn [strconv_error] in H.
  unfold bind in H. rewrite make_bytes_run in H.
  destruct (i <? 0) eqn:Hneg; [discriminate|]. apply Z.ltb_ge in Hneg.
  rewrite io_ReadFull_run in H. cbn [unread at_end set_unread] in H.
  rewrite (len_repeat x00 i Hneg), repeat_length in H.
  unfold set_unread in H. cbn [at_end] in H.
  destruct (i =? 0) eqn:H0.
  - apply Z.eqb_eq in H0. subst i. cbv beta iota in H.
    rewrite ReadByte_run in H. cbn [unread at_end set_unread] in H.
    destruct rest as [|b rest]; [discriminate|].
    unfold set_unread in H. cbv beta iota in H. cbn [at_end] in H.
    destruct (Byte.eqb b ","%byte) eqn:Hb; [|discriminate].
    apply Byte.byte_dec_bl in Hb. subst b. cbn in H.
    injection H as <- <- <-. exists hdr. cbn [unread at_end app].
    change (len (@nil byte)) with 0. repeat split; assumption.
  - destruct (i <=? len rest) eqn:Hle; [|discriminate].
    apply Z.leb_le in Hle. cbv beta iota in H.
    rewrite ReadByte_run in H. cbn [unread at_end] in H.
    destruct (skipn (Z.to_nat i) rest) as [|b rest'] eqn:Hs; [discriminate|].
    unfold set_unread in H. cbv beta iota in H. cbn [at_end] in H.
    destruct (Byte.eqb b ","%byte) eqn:Hb; [|discriminate].
    apply Byte.byte_dec_bl in Hb. subst b. cbn in H.
    injection H as <- <- <-.
    assert (Hlen : len (firstn (Z.to_nat i) rest) = i).
    { unfold len in *. rewrite length_firstn. lia. }
    exists hdr. rewrite Hlen. cbn [unread at_end].
    repeat split; try assumption.
    rewrite <- Hs, firstn_skipn. reflexivity.
Qed.

Lemma readNetString_sound_witness :
  exists hdr,
    bytes_of "5:hello,rest"
    = hdr ++ ":"%byte :: bytes_of "hello" ++ ","%byte :: bytes_of "rest"
    /\ no_colon hdr
    /\ strconv.ParseInt hdr 0 = (5, None).
Proof.
  destruct (readNetString_sound (mkReader (bytes_of "5:hello,rest"))
              (mkReader (bytes_of "rest")) (bytes_of "hello") _ eq_refl)
    as (hdr & H1 & H2 & H3 & _).
  exists hdr. repeat split; assumption.
Defined.

Lemma ParseInt_plus_digits (ds : list byte) :
  ds <> [] -> Forall is_digit ds -> decimal ds < 2 ^ 63 ->
  strconv.ParseInt ("+"%byte :: ds) 0 = (decimal ds, None).
Proof.
  intros Hne Hds Hv.
  pose proof (ParseInt_digits ds Hne Hds) as H.
  destruct ds as [|c0 tl]; [contradiction|].
  pose proof (Forall_inv Hds) as Hc0.
  unfold strconv.ParseInt in *.
  change (Byte.eqb "+"%byte "+"%byte) with true. cbv beta iota.
  rewrite (digit_not c0 "+"%byte Hc0) in H
    by (change (byteZ "+"%byte) with 43; lia).
  rewrite (digit_not c0 "-"%byte Hc0) in H
    by (change (byteZ "-"%byte) with 45; lia).
  cbv beta iota in H. rewrite H.
  is_true (decimal (c0 :: tl) <? 2 ^ 63). reflexivity.
Qed.

(** X2. The decoder does not ask for the shortest way of writing a length:
    digits with zeros in front, and a plus sign before the digits, are read
    as the length they write, and the frame is decoded as usual. *)
Theorem readNetString_lenient (plus : bool) (ds t u : list byte)
  (e : error) :
  ds <> [] -> Forall is_digit ds -> decimal ds = len t -> len t <= MAXLEN ->
  readNetString
    {| unread := (if plus then ["+"%byte] else []) ++ ds
                   ++ ":"%byte :: t ++ ","%byte :: u;
       at_end := e |}
  = (Val (t, None), {| unread := u; at_end := e |},
     [EvReadBytes ":"%byte; EvMake (len t); EvReadFull (len t); EvReadByte]).
Proof.
  intros Hne Hds Hv Hmax. destruct plus; cbn [app].
  - change ("+"%byte :: ds ++ ":"%byte :: t ++ ","%byte :: u)
      with (("+"%byte :: ds) ++ ":"%byte :: t ++ ","%byte :: u).
    rewrite (readNetString_accepts ("+"%byte :: ds) _ e (len t)).
    + erewrite bind_val by (apply make_bytes_ok, len_nonneg).
      erewrite bind_val by (apply io_ReadFull_ok, len_repeat, len_nonneg).
      cbv beta iota. erewrite bind_val by apply ReadByte_cons. reflexivity.
    + constructor; [reflexivity | apply digit_no_colon, Hds].
    + rewrite <- Hv. apply ParseInt_plus_digits; try assumption.
      unfold MAXLEN in Hmax. lia.
    + exact Hmax.
  - apply readNetString_frame; assumption.
Qed.

Lemma readNetString_lenient_witness :
  readNetString (mkReader (bytes_of "+005:hello,rest"))
  = (Val (bytes_of "hello", None), mkReader (bytes_of "rest"),
     [EvReadBytes ":"%byte; EvMake 5; EvReadFull 5; EvReadByte]).
Proof.
  apply (readNetString_lenient true (bytes_of "005") (bytes_of "hello")
           (bytes_of "rest") io_EOF).
  - discriminate.
  - repeat constructor; discriminate.
  - reflexivity.
  - discriminate.
Defined.

(** X3. A frame whose payload is not followed by a comma is refused with
    the error [Missing terminator], whether another byte follows or the
    stream ends there; the payload and the byte after it, if there is one,
    are used up, and nothing of the payload is returned. *)
Theorem readNetString_missing_terminator (ds t u : list byte) (e : error) :
  ds <> [] -> Forall is_digit ds -> decimal ds = len t -> len t <= MAXLEN ->
  hd_error u <> Some ","%byte ->
  readNetString {| unread := ds ++ ":"%byte :: t ++ u; at_end := e |}
  = (Val ([], Some (Errorf "Missing terminator" [])),
     {| unread := tl u; at_end := e |},
     [EvReadBytes ":"%byte; EvMake (len t); EvReadFull (len t); EvReadByte]).
Proof.
  intros Hne Hds Hv Hmax Hu.
  rewrite (readNetString_accepts ds _ e (len t)).
  - erewrite bind_val by (apply make_bytes_ok, len_nonneg).
    erewrite bind_val by (apply io_ReadFull_ok, len_repeat, len_nonneg).
    cbv beta iota. unfold bind. rewrite ReadByte_run. cbn [unread at_end].
    destruct u as [|b u]; [reflexivity|].
    destruct (Byte.eqb b ","%byte) eqn:Hb.
    + apply Byte.byte_dec_bl in Hb. subst b. exfalso. apply Hu. reflexivity.
    + reflexivity.
  - apply digit_no_colon, Hds.
  - rewrite ParseInt_digits, Hv by assumption.
    unfold MAXLEN in Hmax. is_true (len t <? 2 ^ 63). reflexivity.
  - exact Hmax.
Qed.

Lemma readNetString_missing_terminator_witness :
  readNetString (mkReader (bytes_of "5:hello.rest"))
  = (Val ([], Some (Errorf "Missing terminator" [])),
     mkReader (bytes_of "rest"),
     [EvReadBytes ":"%byte; EvMake 5; EvReadFull 5; EvReadByte]).
Proof.
  apply (readNetString_missing_terminator (bytes_of "5") (bytes_of "hello")
           (bytes_of ".rest") io_EOF).
  - discriminate.
  - repeat constructor; discriminate.
  - reflexivity.
  - discriminate.
  - discriminate.
Defined.

(** X4. A frame that declares more bytes than the stream still holds is
    refused with the error [Error reading data]: the buffer is made, what
    is left of the stream is used up, and no terminator is looked for. *)
Theorem readNetString_short_payload (ds t : list byte) (e : error) :
  ds <> [] -> Forall is_digit ds -> len t < decimal ds <= MAXLEN ->
  readNetString {| unread := ds ++ ":"%byte :: t; at_end := e |}
  = (Val ([], Some (Errorf "Error reading data" [])),
     {| unread := []; at_end := e |},
     [EvReadBytes ":"%byte; EvMake (decimal ds); EvReadFull (decimal ds)]).
Proof.
  intros Hne Hds [Hlt Hmax]. pose proof (len_nonneg t) as H0.
  rewrite (readNetString_accepts ds _ e (decimal ds)).
  - erewrite bind_val by (apply make_bytes_ok; lia).
    destruct (io_ReadFull_short (repeat x00 (Z.to_nat (decimal ds))) t e)
      as (data & err & Hr).
    { rewrite len_repeat by lia. exact Hlt. }
    erewrite bind_val by exact Hr. rewrite len_repeat by lia. reflexivity.
  - apply digit_no_colon, Hds.
  - rewrite ParseInt_digits by assumption.
    unfold MAXLEN in Hmax. is_true (decimal ds <? 2 ^ 63). reflexivity.
  - exact Hmax.
Qed.

Lemma readNetString_short_payload_witness :
  readNetString (mkReader (bytes_of "9:hello,"))
  = (Val ([], Some (Errorf "Error reading data" [])), mkReader [],
     [EvReadBytes ":"%byte; EvMake 9; EvReadFull 9]).
Proof.
  apply (readNetString_short_payload (bytes_of "9") (bytes_of "hello,")
           io_EOF).
  - discriminate.
  - repeat constructor; discriminate.
  - split; [reflexivity | discriminate].
Defined.

(** X5. When the stream ends before any colon, and so also when the peer
    has closed the connection and nothing is left, [readNetString] returns
    the error of the stream itself ([io.EOF] after a close), not one of its
    own; nothing is made. *)
Theorem readNetString_no_colon (u : list byte) (e : error) :
  no_colon u ->
  readNetString {| unread := u; at_end := e |}
  = (Val ([], Some e), {| unread := []; at_end := e |},
     [EvReadBytes ":"%byte]).
Proof.
  intros Hu. unfold readNetString, bind. rewrite ReadBytes_run.
  cbn [unread at_end]. rewrite (cut_none _ _ Hu). reflexivity.
Qed.

Lemma readNetString_no_colon_witness :
  readNetString (mkReader (bytes_of "12345"))
  = (Val ([], Some io_EOF), mkReader [], [EvReadBytes ":"%byte]).
Proof.
  apply (readNetString_no_colon (bytes_of "12345") io_EOF).
  repeat constructor.
Defined.

Lemma parseDigits_not_digit (b : byte) (s : list byte) (maxVal : Z) :
  ~ is_digit b ->
  strconv.parseDigits (b :: s) maxVal 0 = (0, Some strconv.ErrSyntax).
Proof.
  intros Hb. unfold is_digit in Hb. cbn [strconv.parseDigits].
  destruct ((48 <=? byteZ b) && (byteZ b <=? 57)) eqn:Hd.
  - apply andb_prop in Hd. destruct Hd as [H1 H2].
    apply Z.leb_le in H1, H2. lia.
  - destruct ((97 <=? strconv.lower (byteZ b))
              && (strconv.lower (byteZ b) <=? 122)) eqn:Hl; [|reflexivity].
    apply andb_prop in Hl. destruct Hl as [H1 _]. apply Z.leb_le in H1.
    is_true (strconv.lower (byteZ b) - 97 + 10 >=? 10). reflexivity.
Qed.

(** X6. A length that is empty, or that starts with a byte that is neither
    a digit nor a sign, is refused with the error [Error Parsing Length],
    which carries the bytes read up to the colon; nothing is made and
    nothing after the colon is read. *)
Theorem readNetString_bad_length (hdr u : list byte) (e : error) :
  no_colon hdr ->
  match hdr with
  | [] => True
  | b :: _ => ~ is_digit b /\ b <> "+"%byte /\ b <> "-"%byte
  end ->
  readNetString {| unread := hdr ++ ":"%byte :: u; at_end := e |}
  = (Val ([], Some (Errorf "Error Parsing Length %#v" [hdr ++ [":"%byte]])),
     {| unread := u; at_end := e |}, [EvReadBytes ":"%byte]).
Proof.
  intros Hh Hb. unfold readNetString.
  erewrite bind_val by (apply ReadBytes_header; exact Hh).
  cbv beta iota. rewrite removelast_last.
  assert (Hp : strconv.ParseInt hdr 0 = (0, Some strconv.ErrSyntax)).
  { destruct hdr as [|b tl]; [reflexivity|].
    destruct Hb as (Hd & Hplus & Hminus). unfold strconv.ParseInt.
    destruct (Byte.eqb b "+"%byte) eqn:E1;
      [apply Byte.byte_dec_bl in E1; contradiction|].
    destruct (Byte.eqb b "-"%byte) eqn:E2;
      [apply Byte.byte_dec_bl in E2; contradiction|].
    unfold strconv.ParseUint. rewrite parseDigits_not_digit by exact Hd.
    reflexivity. }
  rewrite Hp. reflexivity.
Qed.

Lemma readNetString_bad_length_witness :
  readNetString (mkReader (bytes_of "x5:hello,"))
  = (Val ([], Some (Errorf "Error Parsing Length %#v" [bytes_of "x5:"])),
     mkReader (bytes_of "hello,"), [EvReadBytes ":"%byte]).
Proof.
  apply (readNetString_bad_length (bytes_of "x5") (bytes_of "hello,") io_EOF).
  - repeat constructor.
  - repeat split; try discriminate. intros [_ H]. apply H. reflexivity.
Defined.

(** ** The fixer client *)

Lemma fixTest_reply (t a rest : list byte) (e : error) :
  len a <= MAXLEN ->
  fixTest t {| unread := netstring a ++ rest; at_end := e |}
  = (Val (a, None), {| unread := rest; at_end := e |},
     [EvConnWrite (netstring t); EvReadBytes ":"%byte; EvMake (len a);
      EvReadFull (len a); EvReadByte]).
Proof.
  intros Ha. unfold fixTest. rewrite bind_emit.
  erewrite bind_val by (apply readNetString_netstring; exact Ha).
  reflexivity.
Qed.

(** X7. Calls of [fixTest] on the one connection compose: when the fixer
    answers with one frame after the other, the first call returns the
    payload of the first frame and the second call that of the second, each
    after writing its own candidate as a frame, and the reader is left
    after the second frame. *)
Theorem fixTest_twice (t1 t2 a b rest : list byte) (e : error) :
  len a <= MAXLEN -> len b <= MAXLEN ->
  (x <- fixTest t1 ;; y <- fixTest t2 ;; ret (x, y))
    {| unread := netstring a ++ netstring b ++ rest; at_end := e |}
  = (Val ((a, None), (b, None)), {| unread := rest; at_end := e |},
     [EvConnWrite (netstring t1); EvReadBytes ":"%byte; EvMake (len a);
      EvReadFull (len a); EvReadByte;
      EvConnWrite (netstring t2); EvReadBytes ":"%byte; EvMake (len b);
      EvReadFull (len b); EvReadByte]).
Proof.
  intros Ha Hb.
  erewrite bind_val by (apply fixTest_reply; exact Ha).
  erewrite bind_val by (apply fixTest_reply; exact Hb).
  reflexivity.
Qed.

Lemma fixTest_twice_witness :
  (x <- fixTest (bytes_of "A") ;; y <- fixTest (bytes_of "B") ;; ret (x, y))
    (mkReader (bytes_of "2:AA,0:,tail"))
  = (Val ((bytes_of "AA", None), ([], None)), mkReader (bytes_of "tail"),
     [EvConnWrite (bytes_of "1:A,"); EvReadBytes ":"%byte; EvMake 2;
      EvReadFull 2; EvReadByte;
      EvConnWrite (bytes_of "1:B,"); EvReadBytes ":"%byte; EvMake 0;
      EvReadFull 0; EvReadByte]).
Proof.
  apply (fixTest_twice (bytes_of "A") (bytes_of "B") (bytes_of "AA") []
           (bytes_of "tail") io_EOF); discriminate.
Defined.

(** X8. The frames that [fixTest] writes delimit themselves: when the frame
    of one candidate followed by some bytes equals the frame of another
    candidate followed by some bytes, the candidates are the same and so
    are the bytes that follow. *)
Theorem netstring_self_delimiting (a b r1 r2 : list byte) :
  len a <= MAXLEN -> len b <= MAXLEN ->
  netstring a ++ r1 = netstring b ++ r2 -> a = b /\ r1 = r2.
Proof.
  intros Ha Hb H.
  pose proof (readNetString_netstring a r1 io_EOF Ha) as Hra.
  pose proof (readNetString_netstring b r2 io_EOF Hb) as Hrb.
  rewrite H, Hrb in Hra. injection Hra as H1 H2 _. auto.
Qed.

Lemma netstring_self_delimiting_witness :
  bytes_of "ab" = bytes_of "ab" /\ bytes_of "1:c," = bytes_of "1:c,".
Proof.
  apply (netstring_self_delimiting (bytes_of "ab") (bytes_of "ab")
           (bytes_of "1:c,") (bytes_of "1:c,"));
    [discriminate | discriminate | reflexivity].
Defined.

(** ** The connector, when the peer answers *)

Lemma total_sleep_attempts (n : nat) (dest : string) :
  forall zzz,
    total_sleep (attempts n dest zzz) = (2 ^ Z.of_nat n - 1) * zzz.
Proof.
  induction n as [|n IH]; intros zzz; [reflexivity|].
  change (total_sleep (attempts (S n) dest zzz))
    with (zzz + total_sleep (attempts n dest (2 * zzz))).
  rewrite IH, Nat2Z.inj_succ, Z.pow_succ_r by lia. lia.
Qed.

Lemma sleepyConnect_loop_connects (env : Env) (dest : string) (c : Conn) :
  forall (k fuel : nat) (zzz : Z) (s : St),
    0 < zzz -> zzz * 2 ^ Z.of_nat k <= Second -> (k < fuel)%nat ->
    (forall j, (j < k)%nat ->
               exists e, env_Dial env (j + tick s) "tcp" dest = inr e) ->
    env_Dial env (k + tick s) "tcp" dest = inl c ->
    sleepyConnect_loop env fuel dest zzz s
    = (Val (Some c, None), advance (S k) s, attempts (S k) dest zzz).
Proof.
  induction k as [|k IH]; intros fuel zzz s H0 Hz Hfuel Hrefuse Hacc;
    (destruct fuel as [|fuel]; [lia|]).
  - cbn in Hz.
    rewrite (sleepyConnect_loop_accepted env fuel dest zzz s c);
      [reflexivity | lia | exact Hacc].
  - destruct (Hrefuse O ltac:(lia)) as [e He].
    rewrite Nat2Z.inj_succ, Z.pow_succ_r in Hz by lia.
    assert (Hpos : 1 <= 2 ^ Z.of_nat k)
      by (apply Z.pow_le_mono_r with (b := 0); lia).
    rewrite (sleepyConnect_loop_refused env fuel dest zzz s e)
      by (try assumption; nia).
    rewrite (IH fuel (2 * zzz) (advance 1 s)); try lia.
    + cbn [after attempts app]. rewrite advance_advance.
      replace (S k + 1)%nat with (S (S k)) by lia. reflexivity.
    + intros j Hj. destruct (Hrefuse (S j) ltac:(lia)) as [e' He'].
      exists e'. cbn [tick advance].
      replace (j + (1 + tick s))%nat with (S j + tick s)%nat by lia.
      exact He'.
    + cbn [tick advance].
      replace (k + (1 + tick s))%nat with (S k + tick s)%nat by lia.
      exact Hacc.
Qed.

(** X9. When the peer refuses the first [k] attempts, [k] below ten, and
    accepts the next, [sleepyConnect] returns that connection and no error
    after [k+1] attempts, each made after its sleep (1, 2, 4, ... ms), and
    has slept [2^(k+1) - 1] ms in all; it does not dial before the first
    sleep and does not go on after the connection. *)
Theorem sleepyConnect_connects (env : Env) (dest : string) (s : St)
  (k : nat) (c : Conn) :
  (k < 10)%nat ->
  (forall j, (j < k)%nat ->
             exists e, env_Dial env (j + tick s) "tcp" dest = inr e) ->
  env_Dial env (k + tick s) "tcp" dest = inl c ->
  sleepyConnect env dest s
  = (Val (Some c, None), advance (S k) s,
     attempts (S k) dest (1 * Millisecond))
  /\ total_sleep (attempts (S k) dest (1 * Millisecond))
     = (2 ^ Z.of_nat (S k) - 1) * Millisecond.
Proof.
  intros Hk Hrefuse Hacc. split.
  - unfold sleepyConnect.
    assert (2 ^ Z.of_nat k <= 2 ^ 9) by (apply Z.pow_le_mono_r; lia).
    apply sleepyConnect_loop_connects; try assumption;
      unfold Millisecond, Second; lia.
  - rewrite total_sleep_attempts. lia.
Qed.

Lemma sleepyConnect_connects_witness :
  sleepyConnect
    (env_of (fun _ _ => sends (bytes_of "ready")) (fun _ => None) no_crash)
    "127.0.0.1:4141" St0
  = (Val (Some {| conn_data := [bytes_of "ready"]; conn_err := None |}, None),
     advance 1 St0, [EvSleep (1 * Millisecond); EvDial "tcp" "127.0.0.1:4141"]).
Proof.
  apply (proj1 (sleepyConnect_connects
                  (env_of (fun _ _ => sends (bytes_of "ready"))
                     (fun _ => None) no_crash)
                  "127.0.0.1:4141" St0 0
                  {| conn_data := [bytes_of "ready"]; conn_err := None |}
                  ltac:(lia) (fun j Hj => ltac:(lia)) eq_refl)).
Defined.

Lemma sleepyConnect_loop_bounded (env : Env) (dest : string) :
  forall (n fuel : nat) (zzz : Z) (s : St),
    0 < zzz -> Second < zzz * 2 ^ Z.of_nat n ->
    (n <> O -> zzz * 2 ^ (Z.of_nat n - 1) <= Second) ->
    (n < fuel)%nat ->
    exists (k : nat) (r : option Conn * option error),
      (k <= n)%nat
      /\ sleepyConnect_loop env fuel dest zzz s
         = (Val r, advance k s, attempts k dest zzz)
      /\ ((k = n /\ r = timed_out)
          \/ ((1 <= k)%nat /\ exists c, r = (Some c, None))).
Proof.
  induction n as [|n IH]; intros fuel zzz s H0 Hup Hlow Hfuel;
    (destruct fuel as [|fuel]; [lia|]).
  - exists O, timed_out. split; [lia|]. split; [|left; auto].
    rewrite sleepyConnect_loop_timeout by (cbn in Hup; lia).
    destruct s. reflexivity.
  - rewrite Nat2Z.inj_succ in Hup, Hlow.
    replace (Z.succ (Z.of_nat n) - 1) with (Z.of_nat n) in Hlow by lia.
    rewrite Z.pow_succ_r in Hup by lia.
    specialize (Hlow ltac:(discriminate)).
    assert (Hpos : 1 <= 2 ^ Z.of_nat n)
      by (apply Z.pow_le_mono_r with (b := 0); lia).
    destruct (env_Dial env (tick s) "tcp" dest) as [c|e] eqn:Hd.
    + exists 1%nat, (Some c, None). split; [lia|]. split.
      * apply sleepyConnect_loop_accepted; [nia | exact Hd].
      * right. split; [lia | eauto].
    + destruct (IH fuel (2 * zzz) (advance 1 s)) as (k & r & Hk & Hr & Hcase);
        try lia.
      { intros Hn. destruct n as [|n']; [contradiction|].
        rewrite Nat2Z.inj_succ in *.
        replace (Z.succ (Z.of_nat n') - 1) with (Z.of_nat n') by lia.
        rewrite Z.pow_succ_r in Hlow by lia. lia. }
      exists (S k), r. split; [lia|]. split.
      * rewrite (sleepyConnect_loop_refused env fuel dest zzz s e)
          by (try assumption; nia).
        rewrite Hr. cbn [after attempts app]. rewrite advance_advance.
        replace (k + 1)%nat with (S k) by lia. reflexivity.
      * destruct Hcase as [[-> ->] | [Hk1 Hc]]; [left; auto | right].
        split; [lia | exact Hc].
Qed.

(** X10. Whatever the network answers, [sleepyConnect] returns after at
    most ten attempts and at most 1023 ms of sleep, and it returns either a
    connection with no error, or no connection with the error [connection
    to server timed out.] after exactly ten attempts: never both and never
    neither. *)
Theorem sleepyConnect_bounded (env : Env) (dest : string) (s : St) :
  exists (k : nat) (r : option Conn * option error),
    (k <= 10)%nat
    /\ sleepyConnect env dest s
       = (Val r, advance k s, attempts k dest (1 * Millisecond))
    /\ total_sleep (attempts k dest (1 * Millisecond)) <= 1023 * Millisecond
    /\ ((k = 10%nat /\ r = timed_out)
        \/ ((1 <= k)%nat /\ exists c, r = (Some c, None))).
Proof.
  destruct (sleepyConnect_loop_bounded env dest 10 64 (1 * Millisecond) s)
    as (k & r & Hk & Hr & Hcase); try reflexivity; try lia.
  { intros _. discriminate. }
  exists k, r. split; [exact Hk|]. split; [exact Hr|]. split; [|exact Hcase].
  rewrite total_sleep_attempts.
  assert (2 ^ Z.of_nat k <= 2 ^ 10) by (apply Z.pow_le_mono_r; lia).
  unfold Millisecond. lia.
Qed.

(** ** The generator client *)

Lemma length_be_bytes (n : nat) (z : Z) :
  List.length (sha1.be_bytes n z) = n.
Proof.
  unfold sha1.be_bytes. rewrite length_map, length_rev, length_seq.
  reflexivity.
Qed.

Lemma len_sha1_Sum (msg : list byte) : len (sha1.Sum msg) = 20.
Proof.
  unfold sha1.Sum.
  destruct (sha1.block _ sha1.init (sha1.pad msg)) as [[[[h0 h1] h2] h3] h4].
  unfold len. rewrite !length_app, !length_be_bytes. reflexivity.
Qed.

(** X11. What [getTest] returns does not depend on how the stream arrives:
    two connections that deliver the same bytes, cut into reads in any two
    ways, give the same candidate and the same digest, which is the SHA-1
    of all the bytes and has 20 bytes. *)
Theorem getTest_chunking (env1 env2 : Env) (s1 s2 : St) (c1 c2 : Conn) :
  env_Dial env1 (tick s1) "tcp" "127.0.0.1:4141" = inl c1 ->
  env_Dial env2 (tick s2) "tcp" "127.0.0.1:4141" = inl c2 ->
  conn_err c1 = None -> conn_err c2 = None ->
  List.concat (conn_data c1) = List.concat (conn_data c2) ->
  fst (fst (getTest env1 s1)) = fst (fst (getTest env2 s2))
  /\ fst (fst (getTest env1 s1))
     = Val (List.concat (conn_data c1),
            sha1.Sum (List.concat (conn_data c1)))
  /\ len (sha1.Sum (List.concat (conn_data c1))) = 20.
Proof.
  intros H1 H2 E1 E2 Hc.
  rewrite (getTest_ok env1 s1 c1 H1 E1), (getTest_ok env2 s2 c2 H2 E2), Hc.
  repeat split. apply len_sha1_Sum.
Qed.

Lemma getTest_chunking_witness :
  fst (fst (getTest
              (env_of (fun _ _ => inl {| conn_data := [bytes_of "AB";
                                                       bytes_of "CD"];
                                         conn_err := None |})
                 (fun _ => None) no_crash) St0))
  = fst (fst (getTest
                (env_of (fun _ _ => sends (bytes_of "ABCD")) (fun _ => None)
                   no_crash) St0)).
Proof.
  apply (proj1 (getTest_chunking
                  (env_of (fun _ _ => inl {| conn_data := [bytes_of "AB";
                                                           bytes_of "CD"];
                                             conn_err := None |})
                     (fun _ => None) no_crash)
                  (env_of (fun _ _ => sends (bytes_of "ABCD"))
                     (fun _ => None) no_crash)
                  St0 St0
                  {| conn_data := [bytes_of "AB"; bytes_of "CD"];
                     conn_err := None |}
                  {| conn_data := [bytes_of "ABCD"]; conn_err := None |}
                  eq_refl eq_refl eq_refl eq_refl eq_refl)).
Defined.

Lemma getTest_dial_fails (env : Env) (s : St) (e : error) :
  env_Dial env (tick s) "tcp" "127.0.0.1:4141" = inr e ->
  getTest env s
  = (Exit 1, advance 1 s,
     [EvDial "tcp" "127.0.0.1:4141";
      EvLog "[SAD] Unable to connect to radamsa server: %s" [L_err e]]).
Proof.
  intros Hd. unfold getTest, net_Dial.
  erewrite bind_val by apply ask_run. rewrite Hd. reflexivity.
Qed.

Lemma getTest_read_fails (env : Env) (s : St) (conn : Conn) (e : error) :
  env_Dial env (tick s) "tcp" "127.0.0.1:4141" = inl conn ->
  conn_err conn = Some e ->
  getTest env s
  = (Exit 1, advance 1 s,
     [EvDial "tcp" "127.0.0.1:4141";
      EvLog "[SAD] Error reading from server: %s" [L_err e]]).
Proof.
  intros Hd He. unfold getTest, net_Dial.
  erewrite bind_val by apply ask_run. rewrite Hd. cbv beta iota.
  rewrite ReadAll_tee_spec, He. reflexivity.
Qed.

(** ** The ways a turn of the loop ends *)

(** X12. In the loop a failure of the generator is final: when the dial is
    refused, or when the stream ends with an error after any number of
    bytes, the process exits with status 1 at once; there is no second
    attempt as at startup, and the bytes that had arrived are not staged. *)
Theorem generator_failure_is_fatal (fl : Flags) (env : Env)
  (cmd : list string) (s : St) (e : error) (format : string) (n : nat) :
  (env_Dial env (tick s) "tcp" "127.0.0.1:4141" = inr e
   /\ format = "[SAD] Unable to connect to radamsa server: %s"%string)
  \/ (exists conn,
         env_Dial env (tick s) "tcp" "127.0.0.1:4141" = inl conn
         /\ conn_err conn = Some e
         /\ format = "[SAD] Error reading from server: %s"%string) ->
  main_loop fl env (S n) cmd s
  = (Exit 1, advance 1 s,
     [EvDial "tcp" "127.0.0.1:4141"; EvLog format [L_err e]]).
Proof.
  intros H. apply main_loop_stops. unfold iteration. apply bind_exit.
  destruct H as [[Hd ->] | (conn & Hd & He & ->)].
  - apply getTest_dial_fails. exact Hd.
  - eapply getTest_read_fails; eassumption.
Qed.

Lemma generator_failure_is_fatal_witness :
  main_loop remote_flags
    (env_of (fun _ _ => inl {| conn_data := [bytes_of "partial"];
                               conn_err := Some (SysError "reset by peer") |})
       (fun _ => None) no_crash)
    3 ["target"; "work/.cur_input"]%string St0
  = (Exit 1, advance 1 St0,
     [EvDial "tcp" "127.0.0.1:4141";
      EvLog "[SAD] Error reading from server: %s"
        [L_err (SysError "reset by peer")]]).
Proof.
  apply (generator_failure_is_fatal remote_flags _ _ St0
           (SysError "reset by peer") _ 2).
  right. eexists. repeat split.
Defined.

(** The turn up to the staging, for a candidate that is fetched, is not too
    long, and passes the fixer's block. *)
Ltac to_staging Hd He Hlen Hfix :=
  unfold iteration;
  erewrite bind_val by (apply getTest_ok; eassumption);
  cbv beta iota;
  match type of Hlen with
  | len ?raw <= MAXLEN => is_false (len raw >? MAXLEN)
  end;
  rewrite bind_bind, bind_get, bind_ret;
  erewrite bind_val by (apply fix_block; exact Hfix).

Lemma fix_step_state (s s2 : St) (raw test : list byte) (evf : list Event) :
  fix_step s raw test s2 evf -> tick s2 = tick s /\ count s2 = count s.
Proof. intros [Hnone | r r' fixed evf' Hsome Hfix]; auto. Qed.

(** X13. When the fixer's answer cannot be decoded, or the fixer has closed
    the connection, the process exits with status 1 and the line [failed to
    fix test]: the candidate has been written to the fixer, but nothing is
    staged, the target is not run, and [count] stays. *)
Theorem fixer_failure_is_fatal (fl : Flags) (env : Env) (cmd : list string)
  (s : St) (conn : Conn) (r r' : Reader) (x : list byte) (e : error)
  (evf : list Event) (n : nat) :
  env_Dial env (tick s) "tcp" "127.0.0.1:4141" = inl conn ->
  conn_err conn = None ->
  len (List.concat (conn_data conn)) <= MAXLEN ->
  fixReader s = Some r ->
  fixTest (List.concat (conn_data conn)) r = (Val (x, Some e), r', evf) ->
  main_loop fl env (S n) cmd s
  = (Exit 1,
     {| tick := S (tick s); fixReader := Some r'; count := count s |},
     [EvDial "tcp" "127.0.0.1:4141"] ++ evf
       ++ [EvLog "[SAD] failed to fix test: %s" [L_err e]]).
Proof.
  intros Hd He Hlen Hr Hfix. apply main_loop_stops. unfold iteration.
  erewrite bind_val by (apply getTest_ok; eassumption).
  cbv beta iota.
  is_false (len (List.concat (conn_data conn)) >? MAXLEN).
  rewrite bind_bind, bind_get, bind_ret.
  cbn [fixReader advance]. rewrite Hr.
  assert (Hw : with_fixReader (fixTest (List.concat (conn_data conn)))
                 (advance 1 s)
               = (Val (x, Some e),
                  {| tick := S (tick s); fixReader := Some r';
                     count := count s |}, evf)).
  { unfold with_fixReader. cbn [fixReader advance]. rewrite Hr, Hfix.
    reflexivity. }
  rewrite bind_bind. erewrite bind_val by exact Hw. cbv beta iota.
  unfold log_Fatalf. rewrite !bind_bind, bind_emit. cbn. reflexivity.
Qed.

Lemma fixer_failure_is_fatal_witness :
  main_loop demo_flags demo_env 2 ["target"; "work/.cur_input"]%string
    {| tick := 0; fixReader := Some (mkReader []); count := 0 |}
  = (Exit 1, {| tick := 1; fixReader := Some (mkReader []); count := 0 |},
     [EvDial "tcp" "127.0.0.1:4141"]
       ++ [EvConnWrite (bytes_of "1:A,"); EvReadBytes ":"%byte]
       ++ [EvLog "[SAD] failed to fix test: %s" [L_err io_EOF]]).
Proof.
  apply (fixer_failure_is_fatal demo_flags demo_env _
           {| tick := 0; fixReader := Some (mkReader []); count := 0 |}
           {| conn_data := [bytes_of "A"]; conn_err := None |}
           (mkReader []) (mkReader []) [] io_EOF
           [EvConnWrite (bytes_of "1:A,"); EvReadBytes ":"%byte] 1
           eq_refl eq_refl ltac:(vm_compute; discriminate) eq_refl eq_refl).
Defined.

(** ** Invariants of computations *)

Lemma keeps_ret {A : Type} (I : St -> Prop) (P : Event -> Prop)
  (Q : A -> Prop) (a : A) :
  Q a -> keeps I P Q (ret a).
Proof.
  intros HQ s Hs. cbn. repeat split; [assumption | constructor|].
  intros a' [= <-]. exact HQ.
Qed.

Lemma keeps_bind {A B : Type} (I : St -> Prop) (P : Event -> Prop)
  (Q1 : A -> Prop) (Q2 : B -> Prop) (m : M St A) (k : A -> M St B) :
  keeps I P Q1 m -> (forall a, Q1 a -> keeps I P Q2 (k a)) ->
  keeps I P Q2 (bind m k).
Proof.
  intros Hm Hk s Hs. unfold bind. specialize (Hm s Hs).
  destruct (m s) as [[[a| | |] s1] ev1]; cbn in Hm;
    destruct Hm as (HI & Hev & Hval); cbn;
    try (repeat split; [assumption | assumption | discriminate]).
  specialize (Hk a (Hval a eq_refl) s1 HI).
  destruct (k a s1) as [[o s2] ev2]. cbn in Hk |- *.
  destruct Hk as (HI2 & Hev2 & Hv2).
  repeat split; [assumption | apply Forall_app; split; assumption | assumption].
Qed.

Lemma keeps_seq {A B : Type} (I : St -> Prop) (P : Event -> Prop)
  (Q : B -> Prop) (m : M St A) (k : A -> M St B) :
  keeps I P (fun _ => True) m -> (forall a, keeps I P Q (k a)) ->
  keeps I P Q (bind m k).
Proof. intros Hm Hk. eapply keeps_bind; [exact Hm | intros a _; apply Hk]. Qed.

Lemma keeps_weaken {A : Type} (I : St -> Prop) (P P' : Event -> Prop)
  (Q Q' : A -> Prop) (m : M St A) :
  (forall e, P e -> P' e) -> (forall a, Q a -> Q' a) ->
  keeps I P Q m -> keeps I P' Q' m.
Proof.
  intros HP HQ Hm s Hs. destruct (Hm s Hs) as (HI & Hev & Hval).
  repeat split; [assumption | eapply Forall_impl; eassumption|].
  intros a Ha. apply HQ, Hval, Ha.
Qed.

Lemma keeps_emit (I : St -> Prop) (P : Event -> Prop) (e : Event) :
  P e -> keeps I P (fun _ => True) (emit e).
Proof. intros HP s Hs. cbn. repeat split; [assumption|]. repeat constructor. exact HP. Qed.

Lemma keeps_get (I : St -> Prop) (P : Event -> Prop) :
  keeps I P I get.
Proof.
  intros s Hs. cbn. repeat split; [assumption | constructor|].
  intros a [= <-]. exact Hs.
Qed.

Lemma keeps_exit {A : Type} (I : St -> Prop) (P : Event -> Prop)
  (Q : A -> Prop) (c : Z) :
  keeps I P Q (os_Exit c).
Proof. intros s Hs. cbn. repeat split; [assumption | constructor | discriminate]. Qed.

Lemma keeps_panic {A : Type} (I : St -> Prop) (P : Event -> Prop)
  (Q : A -> Prop) (r : string) :
  keeps I P Q (panic r).
Proof. intros s Hs. cbn. repeat split; [assumption | constructor | discriminate]. Qed.

Lemma keeps_Printf (I : St -> Prop) (P : Event -> Prop) (f : string)
  (a : list LogArg) :
  P (EvLog f a) -> keeps I P (fun _ => True) (log_Printf f a).
Proof. apply keeps_emit. Qed.

Lemma keeps_Fatalf {A : Type} (I : St -> Prop) (P : Event -> Prop)
  (Q : A -> Prop) (f : string) (a : list LogArg) :
  P (EvLog f a) -> keeps I P Q (log_Fatalf f a).
Proof.
  intros HP. unfold log_Fatalf.
  apply keeps_seq; [apply keeps_emit, HP | intros; apply keeps_exit].
Qed.

(** A call to the outside keeps what does not depend on [tick]. *)
Lemma keeps_ask {A : Type} (I : St -> Prop) (P : Event -> Prop)
  (answer : nat -> A) (e : Event) :
  (forall s, I s -> I (advance 1 s)) -> P e ->
  keeps I P (fun _ => True) (ask answer e).
Proof.
  intros HI HP s Hs. cbn. repeat split; [apply (HI s Hs)|].
  repeat constructor. exact HP.
Qed.

Lemma keeps_getTest (env : Env) (I : St -> Prop) (P : Event -> Prop) :
  (forall s, I s -> I (advance 1 s)) ->
  P (EvDial "tcp" "127.0.0.1:4141") -> (forall f a, P (EvLog f a)) ->
  keeps I P (fun _ => True) (getTest env).
Proof.
  intros HI HD HL. unfold getTest, net_Dial.
  apply keeps_seq; [apply keeps_ask; [exact HI | exact HD]|].
  intros [conn|e].
  - destruct (ReadAll_tee (conn_data conn) sha1.New []) as [raw hsh].
    destruct (conn_err conn);
      [apply keeps_Fatalf; apply HL | apply keeps_ret; trivial].
  - apply keeps_Fatalf. apply HL.
Qed.

Lemma keeps_stageTest (fl : Flags) (env : Env) (raw : list byte)
  (I : St -> Prop) (P : Event -> Prop) :
  (forall s, I s -> I (advance 1 s)) ->
  (forall name data perm, P (EvWriteFile name data perm)) ->
  (forall f a, P (EvLog f a)) ->
  keeps I P (fun _ => True) (stageTest fl env raw).
Proof.
  intros HI HW HL. unfold stageTest, ioutil_WriteFile.
  apply keeps_seq; [apply keeps_ask; [exact HI | apply HW]|].
  intros [e|]; [apply keeps_Fatalf; apply HL|].
  apply keeps_ret. trivial.
Qed.

Lemma keeps_saveTest (fl : Flags) (env : Env) (fn : string)
  (raw : list byte) (I : St -> Prop) (P : Event -> Prop) :
  (forall s, I s -> I (advance 1 s)) ->
  (forall name data perm, P (EvWriteFile name data perm)) ->
  (forall f a, P (EvLog f a)) ->
  keeps I P (fun _ => True) (saveTest fl env fn raw).
Proof.
  intros HI HW HL. unfold saveTest, ioutil_WriteFile.
  apply keeps_seq; [apply keeps_ask; [exact HI | apply HW]|].
  intros [e|]; [|apply keeps_ret; trivial].
  apply keeps_seq; [apply keeps_Printf; apply HL|].
  intros _. apply keeps_Fatalf. apply HL.
Qed.

Lemma keeps_sleepyConnect_loop (env : Env) (dest : string)
  (I : St -> Prop) (P : Event -> Prop) (fuel : nat) :
  (forall s, I s -> I (advance 1 s)) ->
  (forall d, P (EvSleep d)) -> P (EvDial "tcp" dest) ->
  forall zzz,
    keeps I P (fun _ => True) (sleepyConnect_loop env fuel dest zzz).
Proof.
  intros HI HS HD. induction fuel as [|fuel IH]; intros zzz;
    cbn [sleepyConnect_loop].
  - intros s Hs. cbn. repeat split; [assumption | constructor].
  - destruct (zzz >? 1 * Second); [apply keeps_ret; trivial|].
    apply keeps_seq; [apply keeps_emit, HS|]. intros _.
    unfold net_Dial.
    apply keeps_seq; [apply keeps_ask; [exact HI | exact HD]|].
    intros [c|e]; [apply keeps_ret; trivial | apply IH].
Qed.

Lemma keeps_start_generator (fl : Flags) (env : Env) (I : St -> Prop)
  (P : Event -> Prop) :
  (forall s, I s -> I (advance 1 s)) ->
  (forall name, P (EvStat name)) -> (forall pat, P (EvGlob pat)) ->
  (forall cmd, P (EvStart cmd)) -> (forall f a, P (EvLog f a)) ->
  keeps I P (fun _ => True) (start_generator fl env).
Proof.
  intros HI HStat HGlob HStart HL. unfold start_generator.
  destruct (len (list_byte_of_string (flagSrcDir fl)) >? 0);
    [|apply keeps_ret; trivial].
  unfold os_Stat, filepath_Glob, exec_Start.
  apply keeps_seq; [apply keeps_ask; [exact HI | apply HStat]|].
  intros [fi|e]; [|apply keeps_Fatalf, HL].
  destruct (negb (IsDir fi)); [apply keeps_Fatalf, HL|].
  apply keeps_seq; [apply keeps_ask; [exact HI | apply HGlob]|].
  intros files. apply keeps_seq.
  { destruct (len files <? 1);
      [apply keeps_Printf, HL | apply keeps_ret; trivial]. }
  intros _. apply keeps_seq; [apply keeps_Printf, HL|]. intros _.
  apply keeps_seq; [apply keeps_ask; [exact HI | apply HStart]|].
  intros [e|]; [apply keeps_Fatalf, HL | apply keeps_ret; trivial].
Qed.

Lemma keeps_check_generator (env : Env) (srvAddr : string)
  (I : St -> Prop) (P : Event -> Prop) :
  (forall s, I s -> I (advance 1 s)) ->
  (forall d, P (EvSleep d)) -> P (EvDial "tcp" srvAddr) ->
  (forall f a, P (EvLog f a)) ->
  keeps I P (fun _ => True) (check_generator env srvAddr).
Proof.
  intros HI HS HD HL. unfold check_generator, sleepyConnect.
  apply keeps_seq; [apply keeps_sleepyConnect_loop; assumption|].
  intros [conn err]. destruct err as [e|]; [apply keeps_Fatalf, HL|].
  destruct conn as [c|]; [|apply keeps_panic].
  destruct (ioutil_ReadAll c) as [data [e|]];
    [apply keeps_Fatalf, HL | apply keeps_Printf, HL].
Qed.

Lemma keeps_check_dest (fl : Flags) (env : Env) (I : St -> Prop)
  (P : Event -> Prop) :
  (forall s, I s -> I (advance 1 s)) ->
  (forall name, P (EvStat name)) ->
  (forall name perm, P (EvMkdirAll name perm)) ->
  (forall name data perm, P (EvWriteFile name data perm)) ->
  (forall f a, P (EvLog f a)) ->
  keeps I P (fun _ => True) (check_dest fl env).
Proof.
  intros HI HStat HM HW HL. unfold check_dest, os_Stat, os_MkdirAll,
    ioutil_WriteFile.
  apply keeps_seq; [apply keeps_ask; [exact HI | apply HStat]|].
  intros r. apply keeps_seq.
  { destruct r as [fi|e].
    - destruct (negb (IsDir fi));
        [apply keeps_Fatalf, HL | apply keeps_ret; trivial].
    - apply keeps_seq; [apply keeps_ask; [exact HI | apply HM]|].
      intros [e'|]; [apply keeps_Fatalf, HL | apply keeps_ret; trivial]. }
  intros _. apply keeps_seq; [apply keeps_ask; [exact HI | apply HW]|].
  intros [e|]; [apply keeps_Fatalf, HL | apply keeps_Printf, HL].
Qed.

(** [main] is its startup steps, one after another, and then the loop. *)
Lemma keeps_main (fl : Flags) (env : Env) (n : nat) (I : St -> Prop)
  (P : Event -> Prop) :
  (forall f a, P (EvLog f a)) ->
  keeps I P (fun _ => True) (start_generator fl env) ->
  (forall srvAddr, keeps I P (fun _ => True) (check_generator env srvAddr)) ->
  keeps I P (fun _ => True) (check_dest fl env) ->
  keeps I P (fun _ => True) (dial_fixer fl env) ->
  (snd (substitute fl (args fl)) <> 0 ->
   keeps I P (fun _ => True)
     (main_loop fl env n (fst (substitute fl (args fl))))) ->
  keeps I P (fun _ => True) (main fl env n).
Proof.
  intros HL Hgen Hcheck Hdest Hfix Hloop. unfold main.
  apply keeps_seq; [apply keeps_Printf, HL|]. intros _.
  destruct (len (args fl) <? 2); [apply keeps_Fatalf, HL|].
  destruct (negb (len (list_byte_of_string (flagServer fl)) =? 0)
            && negb (len (list_byte_of_string (flagSrcDir fl)) =? 0));
    [apply keeps_Fatalf, HL|].
  destruct ((len (list_byte_of_string (flagServer fl)) =? 0)
            && (len (list_byte_of_string (flagSrcDir fl)) =? 0));
    [apply keeps_Fatalf, HL|].
  apply keeps_seq; [exact Hgen|]. intros srvAddr.
  apply keeps_seq; [apply Hcheck|]. intros _.
  apply keeps_seq; [exact Hdest|]. intros _.
  destruct (substitute fl (args fl)) as [testCmd sub]. cbn [fst snd] in Hloop.
  destruct (sub =? 0) eqn:Hsub; [apply keeps_Fatalf, HL|].
  apply Z.eqb_neq in Hsub.
  apply keeps_seq; [apply keeps_Printf, HL|]. intros _.
  apply keeps_seq; [exact Hfix|]. intros _.
  apply keeps_seq; [apply keeps_Printf, HL|]. intros _.
  apply Hloop, Hsub.
Qed.

(** ** Turns of the loop that end before, or without, a crash record *)

(** X14. When the staged file cannot be written the process exits with
    status 1 and the line [failed to create test file]: the target is not
    run on what an earlier turn staged, and [count] stays. *)
Theorem stage_failure_is_fatal (fl : Flags) (env : Env) (cmd : list string)
  (s : St) (conn : Conn) (test : list byte) (s2 : St) (evf : list Event)
  (e : error) (n : nat) :
  env_Dial env (tick s) "tcp" "127.0.0.1:4141" = inl conn ->
  conn_err conn = None ->
  len (List.concat (conn_data conn)) <= MAXLEN ->
  fix_step (advance 1 s) (List.concat (conn_data conn)) test s2 evf ->
  env_WriteFile env (tick s2) (staged_path fl) test perm_0600 = Some e ->
  main_loop fl env (S n) cmd s
  = (Exit 1, advance 1 s2,
     [EvDial "tcp" "127.0.0.1:4141"] ++ evf
       ++ [EvWriteFile (staged_path fl) test perm_0600;
           EvLog "[SAD] failed to create test file: %s" [L_err e]])
  /\ count (advance 1 s2) = count s.
Proof.
  intros Hd He Hlen Hfix Hw. split.
  - apply main_loop_stops. to_staging Hd He Hlen Hfix.
    unfold stageTest, ioutil_WriteFile. rewrite bind_bind.
    erewrite bind_val by apply ask_run.
    fold (staged_path fl). rewrite Hw. cbv beta iota.
    unfold log_Fatalf. rewrite !bind_bind, bind_emit. cbn.
    reflexivity.
  - destruct (fix_step_state _ _ _ _ _ Hfix) as [_ Hc]. cbn. exact Hc.
Qed.

Lemma stage_failure_is_fatal_witness :
  main_loop demo_flags
    (env_of (fun _ _ => sends (bytes_of "A"))
       (fun _ => Some (SysError "read-only file system")) no_crash) 3 ["target"; "work/.cur_input"]%string St0
  = (Exit 1, advance 1 (advance 1 St0),
     [EvDial "tcp" "127.0.0.1:4141"] ++ []
       ++ [EvWriteFile (staged_path demo_flags) (bytes_of "A") perm_0600;
           EvLog "[SAD] failed to create test file: %s"
             [L_err (SysError "read-only file system")]])
  /\ count (advance 1 (advance 1 St0)) = count St0.
Proof.
  apply (stage_failure_is_fatal demo_flags
           (env_of (fun _ _ => sends (bytes_of "A"))
              (fun _ => Some (SysError "read-only file system")) no_crash)
           _ St0
           {| conn_data := [bytes_of "A"]; conn_err := None |}
           (bytes_of "A") (advance 1 St0) [] (SysError "read-only file system") 2
           eq_refl eq_refl ltac:(vm_compute; discriminate)
           (fix_step_none (advance 1 St0) (bytes_of "A") eq_refl) eq_refl).
Defined.

(** X15. A turn in which the target is reported not to have crashed (the
    engine returns an error) stages the candidate, runs the target once and
    writes nothing else: no crash record and no log line. The loop goes on
    with [count] one more, whatever the engine put in its report. *)
Theorem quiet_turn (fl : Flags) (env : Env) (cmd : list string) (s : St)
  (conn : Conn) (test : list byte) (s2 : St) (evf : list Event)
  (ci : Info) (e : error) (n : nat) :
  env_Dial env (tick s) "tcp" "127.0.0.1:4141" = inl conn ->
  conn_err conn = None ->
  len (List.concat (conn_data conn)) <= MAXLEN ->
  fix_step (advance 1 s) (List.concat (conn_data conn)) test s2 evf ->
  env_WriteFile env (tick s2) (staged_path fl) test perm_0600 = None ->
  env_Run env (S (tick s2)) (flagTimeout fl) cmd = (ci, Some e) ->
  main_loop fl env (S n) cmd s
  = after
      ([EvDial "tcp" "127.0.0.1:4141"] ++ evf
         ++ [EvWriteFile (staged_path fl) test perm_0600;
             EvRun (flagTimeout fl) cmd])
      (main_loop fl env n cmd (advance 1 (counted (advance 1 s2)))).
Proof.
  intros Hd He Hlen Hfix Hw Hrun. cbn [main_loop].
  assert (Hit : iteration fl env cmd s
                = (Val tt, advance 1 (counted (advance 1 s2)),
                   [EvDial "tcp" "127.0.0.1:4141"] ++ evf
                     ++ [EvWriteFile (staged_path fl) test perm_0600;
                         EvRun (flagTimeout fl) cmd])).
  { to_staging Hd He Hlen Hfix.
    erewrite bind_val by (apply stageTest_ok; eassumption).
    erewrite bind_val by apply incr_count_run.
    unfold francis_Run. erewrite bind_val by apply ask_run.
    cbn [tick counted advance Nat.add]. rewrite Hrun. cbn. reflexivity. }
  erewrite bind_val by exact Hit. reflexivity.
Qed.

Lemma quiet_turn_witness :
  main_loop remote_flags
    (env_of (fun _ _ => sends (bytes_of "A")) (fun _ => None) no_crash)
    1 ["target"; "work/.cur_input"]%string St0
  = after
      ([EvDial "tcp" "127.0.0.1:4141"] ++ []
         ++ [EvWriteFile (staged_path remote_flags) (bytes_of "A") perm_0600;
             EvRun (flagTimeout remote_flags)
               ["target"; "work/.cur_input"]%string])
      (main_loop remote_flags
         (env_of (fun _ _ => sends (bytes_of "A")) (fun _ => None) no_crash)
         0 ["target"; "work/.cur_input"]%string
         (advance 1 (counted (advance 1 (advance 1 St0))))).
Proof.
  apply (quiet_turn remote_flags
           (env_of (fun _ _ => sends (bytes_of "A")) (fun _ => None) no_crash)
           _ St0 {| conn_data := [bytes_of "A"]; conn_err := None |}
           (bytes_of "A") (advance 1 St0) [] {| Extra := [] |}
           (SysError "no crash detected") 0
           eq_refl eq_refl ltac:(vm_compute; discriminate)
           (fix_step_none (advance 1 St0) (bytes_of "A") eq_refl)
           eq_refl eq_refl).
Defined.

(** X16. A crash reported with no [Extra] line is lost: the turn stages the
    candidate and runs the target, then the index [ci.Extra[0]] of the log
    line panics, before [saveTest] is reached, and no crash record is
    written. *)
Theorem crash_without_extra_is_lost (fl : Flags) (env : Env)
  (cmd : list string) (s : St) (conn : Conn) (test : list byte) (s2 : St)
  (evf : list Event) (n : nat) :
  env_Dial env (tick s) "tcp" "127.0.0.1:4141" = inl conn ->
  conn_err conn = None ->
  len (List.concat (conn_data conn)) <= MAXLEN ->
  fix_step (advance 1 s) (List.concat (conn_data conn)) test s2 evf ->
  env_WriteFile env (tick s2) (staged_path fl) test perm_0600 = None ->
  env_Run env (S (tick s2)) (flagTimeout fl) cmd = ({| Extra := [] |}, None) ->
  main_loop fl env (S n) cmd s
  = (Panic "index out of range", advance 1 (counted (advance 1 s2)),
     [EvDial "tcp" "127.0.0.1:4141"] ++ evf
       ++ [EvWriteFile (staged_path fl) test perm_0600;
           EvRun (flagTimeout fl) cmd]).
Proof.
  intros Hd He Hlen Hfix Hw Hrun. cbn [main_loop]. apply bind_panic.
  to_staging Hd He Hlen Hfix.
  erewrite bind_val by (apply stageTest_ok; eassumption).
  erewrite bind_val by apply incr_count_run.
  unfold francis_Run. erewrite bind_val by apply ask_run.
  cbn [tick counted advance Nat.add]. rewrite Hrun. cbn. reflexivity.
Qed.

Lemma crash_without_extra_is_lost_witness :
  main_loop remote_flags
    (env_of (fun _ _ => sends (bytes_of "A")) (fun _ => None)
       ({| Extra := [] |}, None))
    2 ["target"; "work/.cur_input"]%string St0
  = (Panic "index out of range",
     advance 1 (counted (advance 1 (advance 1 St0))),
     [EvDial "tcp" "127.0.0.1:4141"] ++ []
       ++ [EvWriteFile (staged_path remote_flags) (bytes_of "A") perm_0600;
           EvRun (flagTimeout remote_flags)
             ["target"; "work/.cur_input"]%string]).
Proof.
  apply (crash_without_extra_is_lost remote_flags
           (env_of (fun _ _ => sends (bytes_of "A")) (fun _ => None)
              ({| Extra := [] |}, None))
           _ St0 {| conn_data := [bytes_of "A"]; conn_err := None |}
           (bytes_of "A") (advance 1 St0) [] 1
           eq_refl eq_refl ltac:(vm_compute; discriminate)
           (fix_step_none (advance 1 St0) (bytes_of "A") eq_refl)
           eq_refl eq_refl).
Defined.

(** ** What every turn of the loop does *)

Lemma runs_app (a b : list Event) : runs (a ++ b) = (runs a + runs b)%nat.
Proof.
  induction a as [|e a IH]; [reflexivity|].
  destruct e; cbn; rewrite IH; reflexivity.
Qed.

Lemma runs_not_run (evs : list Event) : Forall not_run evs -> runs evs = O.
Proof.
  induction 1 as [|e evs He _ IH]; [reflexivity|].
  destruct e; cbn in *; try assumption. contradiction.
Qed.

Lemma fixer_event_not_run (e : Event) : fixer_event e -> not_run e.
Proof. destruct e; cbn; tauto. Qed.

Lemma quiet_with_fixReader {A : Type} (Q : A -> Prop) (m : M Reader A) :
  sat fixer_event Q m -> quiet (with_fixReader m).
Proof.
  intros Hm c s Hs. unfold with_fixReader. destruct (fixReader s) as [r|].
  - destruct (Hm r) as [Hev _]. destruct (m r) as [[o r'] ev]. cbn in *.
    repeat split; [assumption|].
    eapply Forall_impl; [apply fixer_event_not_run | exact Hev].
  - cbn. repeat split; [assumption | constructor].
Qed.

Lemma turn_like_quiet (fl : Flags) (cmd : list string) (m : M St unit) :
  quiet m -> turn_like fl cmd m.
Proof.
  intros Hm s. left. destruct (Hm (count s) s eq_refl) as (Hc & Hev & _).
  split; [apply runs_not_run, Hev | exact Hc].
Qed.

Lemma turn_like_bind {A : Type} (fl : Flags) (cmd : list string)
  (m : M St A) (k : A -> M St unit) :
  quiet m -> (forall a, turn_like fl cmd (k a)) ->
  turn_like fl cmd (bind m k).
Proof.
  intros Hm Hk s. destruct (Hm (count s) s eq_refl) as (Hc & Hev & _).
  apply runs_not_run in Hev. unfold bind.
  destruct (m s) as [[[a| | |] s1] ev1]; cbn in Hc, Hev |- *;
    try (left; split; assumption).
  specialize (Hk a s1). destruct (k a s1) as [[o s2] ev2]. cbn in Hk |- *.
  destruct Hk as [[Hr Hc2] | (pre & test & tail & Hev2 & Hp & Ht & Hc2)].
  - left. rewrite runs_app, Hev, Hr, Hc2, Hc. split; reflexivity.
  - right. exists (ev1 ++ pre), test, tail. rewrite Hev2, <- app_assoc.
    rewrite runs_app, Hev, Hp, Hc2, Hc. repeat split; assumption.
Qed.

(** The end of a turn, from staging on. *)
Lemma turn_like_run (fl : Flags) (env : Env) (cmd : list string)
  (test : list byte) (K : Info * option error -> M St unit) :
  (forall x, quiet (K x)) ->
  turn_like fl cmd
    (bind (stageTest fl env test)
       (fun _ => bind incr_count
          (fun _ => bind (francis_Run env (flagTimeout fl) cmd) K))).
Proof.
  intros HK s. unfold stageTest, ioutil_WriteFile. rewrite bind_bind.
  erewrite bind_val by apply ask_run. fold (staged_path fl).
  destruct (env_WriteFile env (tick s) (staged_path fl) test perm_0600)
    as [e|].
  - left. cbn. split; reflexivity.
  - right. rewrite bind_ret. erewrite bind_val by apply incr_count_run.
    unfold francis_Run. erewrite bind_val by apply ask_run.
    set (x := env_Run env _ _ _). set (s3 := advance 1 (counted _)).
    destruct (HK x (count s3) s3 eq_refl) as (Hc & Hev & _).
    apply runs_not_run in Hev.
    destruct (K x s3) as [[o s4] ev4]. cbn in Hc, Hev |- *.
    exists [], test, ev4. repeat split; [exact Hev | exact Hc].
Qed.

Lemma iteration_turn_like (fl : Flags) (env : Env) (cmd : list string) :
  turn_like fl cmd (iteration fl env cmd).
Proof.
  unfold iteration.
  apply turn_like_bind.
  { intros c. apply keeps_getTest; [intros s Hs; exact Hs | exact I|].
    intros; exact I. }
  intros [test sha].
  destruct (len test >? MAXLEN).
  { apply turn_like_quiet. intros c. apply keeps_ret. exact I. }
  apply turn_like_bind.
  { intros c. eapply keeps_bind; [apply keeps_get|].
    intros s _. apply keeps_ret. exact I. }
  intros fixConn. apply turn_like_bind.
  { destruct fixConn as [r|].
    - intros c. eapply keeps_bind.
      + apply (quiet_with_fixReader _ _ (sat_fixTest test)).
      + intros [fixed err] _. destruct err as [e|];
          [apply keeps_Fatalf; exact I | apply keeps_ret; exact I].
    - intros c. apply keeps_ret. exact I. }
  intros test'. apply turn_like_run.
  intros [ci err] c. destruct err as [e|]; [apply keeps_ret; exact I|].
  destruct (Extra ci) as [|extra0 extras]; [apply keeps_panic|].
  apply keeps_seq; [apply keeps_Printf; exact I|].
  intros _. apply keeps_saveTest; [intros s Hs; exact Hs | |];
    intros; exact I.
Qed.

Lemma wrap_int64_small (z : Z) :
  - 2 ^ 63 <= z < 2 ^ 63 -> strconv.wrap_int64 z = z.
Proof.
  intros Hz. unfold strconv.wrap_int64.
  rewrite Z.mod_small by lia. lia.
Qed.

(** X17. [count] counts the runs of the target: after any number of turns,
    however the run of them ends, it has grown by the number of times the
    target was run, which is at most the number of turns. *)
Theorem count_tracks_runs (fl : Flags) (env : Env) (cmd : list string)
  (n : nat) (s : St) :
  0 <= count s -> count s + Z.of_nat n < 2 ^ 63 ->
  (runs (snd (main_loop fl env n cmd s)) <= n)%nat
  /\ count (snd (fst (main_loop fl env n cmd s)))
     = count s + Z.of_nat (runs (snd (main_loop fl env n cmd s))).
Proof.
  revert s. induction n as [|n IH]; intros s H0 Hn.
  - cbn. split; [lia | lia].
  - cbn [main_loop]. unfold bind.
    pose proof (iteration_turn_like fl env cmd s) as Hit.
    destruct (iteration fl env cmd s) as [[o s1] ev1]. cbn in Hit.
    assert (Hturn : (runs ev1 <= 1)%nat
                    /\ count s1 = count s + Z.of_nat (runs ev1)).
    { destruct Hit as [[Hr Hc] | (pre & test & tail & Hev & Hp & Ht & Hc)].
      - rewrite Hr, Hc. split; lia.
      - rewrite Hev, runs_app, Hp. cbn. rewrite Ht, Hc.
        rewrite wrap_int64_small by lia. split; lia. }
    destruct Hturn as [Hr1 Hc1].
    destruct o as [[]| | |]; cbn; try (split; lia).
    destruct (IH s1) as [Hr2 Hc2]; [lia | lia|].
    destruct (main_loop fl env n cmd s1) as [[o2 s2] ev2]. cbn in *.
    rewrite runs_app. split; lia.
Qed.

Lemma count_tracks_runs_witness :
  (runs (snd (main_loop demo_flags demo_env 3
                ["target"; "work/.cur_input"]%string St0)) <= 3)%nat
  /\ count (snd (fst (main_loop demo_flags demo_env 3
                        ["target"; "work/.cur_input"]%string St0)))
     = count St0
       + Z.of_nat (runs (snd (main_loop demo_flags demo_env 3
                                ["target"; "work/.cur_input"]%string St0))).
Proof.
  apply (count_tracks_runs demo_flags demo_env _ 3 St0);
    [discriminate | reflexivity].
Defined.

Lemma runs_follow_quiet (p : string) (evs : list Event) :
  runs evs = O -> forall prev, runs_follow p prev evs.
Proof.
  induction evs as [|e evs IH]; intros Hr prev; [exact I|].
  destruct e; cbn in Hr |- *; try discriminate; split; auto.
Qed.

Lemma runs_follow_app (p : string) (a b : list Event) :
  (forall prev, runs_follow p prev b) ->
  forall prev, runs_follow p prev a -> runs_follow p prev (a ++ b).
Proof.
  intros Hb. induction a as [|e a IH]; intros prev Ha; [apply Hb|].
  cbn [app runs_follow] in Ha |- *. destruct Ha as [He Ha].
  split; [exact He | apply IH, Ha].
Qed.

Lemma runs_follow_turn (fl : Flags) (cmd : list string) (m : M St unit)
  (s : St) :
  turn_like fl cmd m ->
  forall prev, runs_follow (staged_path fl) prev (snd (m s)).
Proof.
  intros Hm prev.
  destruct (Hm s) as [[Hr _] | (pre & test & tail & Hev & Hp & Ht & _)].
  - apply runs_follow_quiet, Hr.
  - rewrite Hev. apply runs_follow_app; [|apply runs_follow_quiet, Hp].
    intros prev'. cbn [runs_follow]. repeat split.
    apply runs_follow_quiet, Ht.
Qed.

Lemma main_loop_runs_follow (fl : Flags) (env : Env) (cmd : list string)
  (n : nat) (s : St) (prev : option Event) :
  runs_follow (staged_path fl) prev (snd (main_loop fl env n cmd s)).
Proof.
  revert s prev. induction n as [|n IH]; intros s prev; [exact I|].
  cbn [main_loop]. unfold bind.
  pose proof (fun prev => runs_follow_turn fl cmd _ s
                (iteration_turn_like fl env cmd) prev) as Hit.
  destruct (iteration fl env cmd s) as [[o s1] ev1]. cbn in Hit.
  destruct o as [[]| | |]; cbn; try apply Hit.
  specialize (IH s1).
  destruct (main_loop fl env n cmd s1) as [[o2 s2] ev2]. cbn in IH |- *.
  apply runs_follow_app; [exact IH | apply Hit].
Qed.

Lemma runs_follow_split (p : string) (pre post : list Event) (t : Z)
  (c : list string) (prev : option Event) :
  runs_follow p prev (pre ++ EvRun t c :: post) ->
  (pre = [] /\ exists data perm, prev = Some (EvWriteFile p data perm))
  \/ (exists pre' data perm, pre = pre' ++ [EvWriteFile p data perm]).
Proof.
  revert prev. induction pre as [|e pre IH]; intros prev H.
  - left. cbn in H. destruct H as [H _].
    destruct prev as [[]|]; try contradiction. subst. eauto.
  - right. cbn [app runs_follow] in H. destruct H as [_ H].
    destruct (IH _ H) as [[-> (data & perm & [= ->])]
                         | (pre' & data & perm & ->)].
    + exists [], data, perm. reflexivity.
    + exists (e :: pre'), data, perm. reflexivity.
Qed.

(** X18. The target is only ever run right after the staged file was
    written: in the effects of any number of turns, whatever the environment
    does, each run of the target comes directly after a write of the staged
    file, with nothing in between. So no turn runs the target without
    staging first, and the target is never run twice on one write. *)
Theorem run_follows_stage (fl : Flags) (env : Env) (cmd : list string)
  (n : nat) (s : St) (pre post : list Event) (t : Z) (c : list string) :
  snd (main_loop fl env n cmd s) = pre ++ EvRun t c :: post ->
  exists pre' data perm,
    pre = pre' ++ [EvWriteFile (staged_path fl) data perm].
Proof.
  intros Hev.
  pose proof (main_loop_runs_follow fl env cmd n s None) as H.
  rewrite Hev in H. apply runs_follow_split in H.
  destruct H as [[_ (data & perm & [=])] | H]. exact H.
Qed.

Lemma run_follows_stage_witness :
  exists pre' data perm,
    [EvDial "tcp" "127.0.0.1:4141";
     EvWriteFile "work/.cur_input" (bytes_of "A") perm_0600]
    = pre' ++ [EvWriteFile (staged_path remote_flags) data perm].
Proof.
  apply (run_follows_stage remote_flags
           (env_of (fun _ _ => sends (bytes_of "A")) (fun _ => None) no_crash)
           ["target"; "work/.cur_input"]%string 1 St0
           [EvDial "tcp" "127.0.0.1:4141";
            EvWriteFile "work/.cur_input" (bytes_of "A") perm_0600]
           [] (-1) ["target"; "work/.cur_input"]%string).
  vm_compute. reflexivity.
Defined.

(** ** What the whole of [main] does and never does *)

Lemma keeps_iteration (fl : Flags) (env : Env) (cmd : list string)
  (I : St -> Prop) (P : Event -> Prop) :
  (forall s, I s -> I (advance 1 s)) ->
  (forall s, I s -> I (counted s)) ->
  (forall s, I s -> fixReader s = None)
  \/ ((forall e, fixer_event e -> P e)
      /\ forall s r, I s ->
           I {| tick := tick s; fixReader := Some r; count := count s |}) ->
  P (EvDial "tcp" "127.0.0.1:4141") ->
  (forall name data perm, P (EvWriteFile name data perm)) ->
  P (EvRun (flagTimeout fl) cmd) ->
  (forall f a, P (EvLog f a)) ->
  keeps I P (fun _ => True) (iteration fl env cmd).
Proof.
  intros HI Hcount Hfixer HD HW HR HL. unfold iteration.
  apply keeps_seq; [apply keeps_getTest; assumption|].
  intros [test sha].
  destruct (len test >? MAXLEN); [apply keeps_ret; trivial|].
  apply keeps_bind
    with (Q1 := fun fixConn : option Reader =>
                  match fixConn with
                  | Some _ => (forall e, fixer_event e -> P e)
                              /\ forall s r, I s ->
                                   I {| tick := tick s; fixReader := Some r;
                                        count := count s |}
                  | None => True
                  end).
  { intros s Hs. cbn. repeat split; [assumption | constructor|].
    intros a [= <-]. destruct (fixReader s) as [r|] eqn:Hr; [|exact Logic.I].
    destruct Hfixer as [Hnone | Hsome]; [|exact Hsome].
    rewrite (Hnone s Hs) in Hr. discriminate. }
  intros fixConn HfixConn. apply keeps_seq.
  { destruct fixConn as [r0|]; [|apply keeps_ret; trivial].
    destruct HfixConn as [HF HIr].
    apply keeps_seq.
    - intros s Hs. unfold with_fixReader. destruct (fixReader s) as [r|].
      + destruct (sat_fixTest test r) as [Hev _].
        destruct (fixTest test r) as [[o r'] ev]. cbn in *.
        repeat split; [apply HIr, Hs|].
        eapply Forall_impl; [exact HF | exact Hev].
      + cbn. repeat split; [assumption | constructor].
    - intros [fixed err]. destruct err as [e|];
        [apply keeps_Fatalf, HL | apply keeps_ret; trivial]. }
  intros test'. apply keeps_seq; [apply keeps_stageTest; assumption|].
  intros _. apply keeps_seq.
  { intros s Hs. cbn. repeat split; [apply (Hcount s Hs) | constructor]. }
  intros _. unfold francis_Run.
  apply keeps_seq; [apply keeps_ask; [exact HI | exact HR]|].
  intros [ci err]. destruct err as [e|]; [apply keeps_ret; trivial|].
  destruct (Extra ci) as [|extra0 extras]; [apply keeps_panic|].
  apply keeps_seq; [apply keeps_Printf, HL|].
  intros _. apply keeps_saveTest; assumption.
Qed.

Lemma keeps_main_loop (fl : Flags) (env : Env) (cmd : list string)
  (I : St -> Prop) (P : Event -> Prop) (n : nat) :
  keeps I P (fun _ => True) (iteration fl env cmd) ->
  keeps I P (fun _ => True) (main_loop fl env n cmd).
Proof.
  intros Hit. induction n as [|n IH]; cbn [main_loop].
  - apply keeps_ret. trivial.
  - apply keeps_seq; [exact Hit | intros _; exact IH].
Qed.

Lemma keeps_dial_fixer (fl : Flags) (env : Env) (P : Event -> Prop) :
  P (EvDial "unix" (flagFix fl)) -> (forall f a, P (EvLog f a)) ->
  keeps (fun _ => True) P (fun _ => True) (dial_fixer fl env).
Proof.
  intros HD HL. unfold dial_fixer.
  destruct (negb (flagFix fl =? "")%string); [|apply keeps_ret; trivial].
  unfold net_Dial. apply keeps_seq; [apply keeps_ask; [trivial | exact HD]|].
  intros [c|e]; [|apply keeps_Fatalf, HL].
  apply keeps_seq; [apply keeps_get|]. intros s0 s _. cbn.
  repeat split; constructor.
Qed.

Lemma substitute_spec (fl : Flags) (testCmd : list string) :
  substitute fl testCmd
  = (substituted fl testCmd,
     Z.of_nat (count_occ string_dec testCmd "@@"%string)).
Proof.
  induction testCmd as [|elem testCmd IH]; [reflexivity|].
  cbn [substitute substituted map count_occ]. rewrite IH.
  fold (staged_path fl). fold (substituted fl testCmd).
  destruct (String.eqb_spec elem "@@") as [->|Hne].
  - destruct (string_dec "@@" "@@") as [_|Hc]; [|contradiction].
    f_equal. lia.
  - destruct (string_dec elem "@@") as [Hc|_]; [contradiction|].
    reflexivity.
Qed.

(** X19. Without [-fix] the fixer is never contacted: in the whole of
    [main], startup and any number of turns, no socket is dialled on the
    network [unix] and nothing is written to or read from a fixer, whatever
    the environment does. *)
Theorem no_fix_flag_no_fixer (fl : Flags) (env : Env) (n : nat) (s : St) :
  flagFix fl = ""%string -> fixReader s = None ->
  Forall (fun e => ~ fixer_contact e) (snd (main fl env n s)).
Proof.
  intros Hflag Hs.
  assert (HI : forall s0, fixReader s0 = None ->
                          fixReader (advance 1 s0) = None) by (intros; assumption).
  assert (Hmain : keeps (fun s => fixReader s = None)
                    (fun e => ~ fixer_contact e) (fun _ => True)
                    (main fl env n)).
  { apply keeps_main.
    - intros f a H. exact H.
    - apply keeps_start_generator; try exact HI; intros; intros H; exact H.
    - intros srvAddr. apply keeps_check_generator; try exact HI;
        try (intros; intros H; exact H). cbn. discriminate.
    - apply keeps_check_dest; try exact HI; intros; intros H; exact H.
    - unfold dial_fixer. rewrite Hflag. apply keeps_ret. trivial.
    - intros _. apply keeps_main_loop. apply keeps_iteration; try exact HI.
      + left. intros s0 H0. exact H0.
      + cbn. discriminate.
      + intros name data perm H. exact H.
      + intros H. exact H.
      + intros f a H. exact H. }
  apply (Hmain s Hs).
Qed.

Lemma no_fix_flag_no_fixer_witness :
  Forall (fun e => ~ fixer_contact e) (snd (main remote_flags remote_env 2 St0)).
Proof.
  apply (no_fix_flag_no_fixer remote_flags remote_env 2 St0 eq_refl eq_refl).
Defined.

(** X20. The target is only ever run with the timeout of [-t] and the
    command given after the flags in which each marker is the path of the
    staged file and every other element is as given: in the whole of
    [main], every run is that one. *)
Theorem main_runs_substituted_command (fl : Flags) (env : Env) (n : nat)
  (s : St) :
  Forall (runs_target fl) (snd (main fl env n s)).
Proof.
  assert (Hmain : keeps (fun _ => True) (runs_target fl) (fun _ => True)
                    (main fl env n)).
  { apply keeps_main.
    - intros f a. exact I.
    - apply keeps_start_generator; intros; exact I.
    - intros srvAddr. apply keeps_check_generator; intros; exact I.
    - apply keeps_check_dest; intros; exact I.
    - apply keeps_dial_fixer; intros; exact I.
    - intros _. apply keeps_main_loop.
      apply keeps_iteration; try (intros; exact I).
      + right. split; [intros [] H; try contradiction; exact I | trivial].
      + rewrite substitute_spec. cbn. split; reflexivity. }
  apply (Hmain s I).
Qed.

(** X21. Without a marker in the command the target is never run: [main]
    does its startup checks, which write the test file, and stops at the
    count of the markers. *)
Theorem no_marker_no_run (fl : Flags) (env : Env) (n : nat) (s : St) :
  ~ In "@@"%string (args fl) ->
  runs (snd (main fl env n s)) = O
  /\ fst (fst (main fl env n s)) <> Val tt.
Proof.
  intros Hno.
  assert (Hsub : snd (substitute fl (args fl)) = 0).
  { rewrite substitute_spec. cbn [snd].
    rewrite (proj1 (count_occ_not_In string_dec _ _) Hno). reflexivity. }
  split.
  - apply runs_not_run.
    assert (Hmain : keeps (fun _ => True) not_run (fun _ => True)
                      (main fl env n)).
    { apply keeps_main.
      - intros f a. exact I.
      - apply keeps_start_generator; intros; exact I.
      - intros srvAddr. apply keeps_check_generator; intros; exact I.
      - apply keeps_check_dest; intros; exact I.
      - apply keeps_dial_fixer; intros; exact I.
      - intros H. contradiction. }
    apply (Hmain s I).
  - assert (Hmain : keeps (fun _ => True) (fun _ => True) (fun _ => False)
                      (main fl env n)).
    { unfold main.
      apply keeps_seq; [apply keeps_Printf; exact I|]. intros _.
      destruct (len (args fl) <? 2); [apply keeps_Fatalf; exact I|].
      destruct (negb (len (list_byte_of_string (flagServer fl)) =? 0)
                && negb (len (list_byte_of_string (flagSrcDir fl)) =? 0));
        [apply keeps_Fatalf; exact I|].
      destruct ((len (list_byte_of_string (flagServer fl)) =? 0)
                && (len (list_byte_of_string (flagSrcDir fl)) =? 0));
        [apply keeps_Fatalf; exact I|].
      apply keeps_seq;
        [apply keeps_start_generator; intros; exact I|]. intros srvAddr.
      apply keeps_seq;
        [apply keeps_check_generator; intros; exact I|]. intros _.
      apply keeps_seq; [apply keeps_check_dest; intros; exact I|]. intros _.
      destruct (substitute fl (args fl)) as [testCmd sub]. cbn [snd] in Hsub.
      subst sub. cbn. apply keeps_Fatalf. exact I. }
    intros Hval. destruct (Hmain s I) as (_ & _ & H). apply (H tt Hval).
Qed.

Lemma no_marker_no_run_witness :
  runs (snd (main
               {| prog := "terry"; flagFn := ".cur_input";
                  flagDestDir := "work"; flagSrcDir := "";
                  flagServer := "192.168.1.1:4141"; flagFix := "";
                  flagTimeout := -1;
                  args := ["target"; "-infile"]%string |}
               remote_env 2 St0)) = O
  /\ fst (fst (main
                 {| prog := "terry"; flagFn := ".cur_input";
                    flagDestDir := "work"; flagSrcDir := "";
                    flagServer := "192.168.1.1:4141"; flagFix := "";
                    flagTimeout := -1;
                    args := ["target"; "-infile"]%string |}
                 remote_env 2 St0)) <> Val tt.
Proof.
  apply (no_marker_no_run
           {| prog := "terry"; flagFn := ".cur_input";
              flagDestDir := "work"; flagSrcDir := "";
              flagServer := "192.168.1.1:4141"; flagFix := "";
              flagTimeout := -1;
              args := ["target"; "-infile"]%string |}
           remote_env 2 St0).
  cbn. intros [H | [H | []]]; discriminate.
Defined.

(** ** Startup *)

Lemma len_string_zero (x : string) :
  (len (list_byte_of_string x) =? 0) = String.eqb x "".
Proof.
  destruct x as [|c x]; [reflexivity|].
  unfold list_byte_of_string. cbn [list_ascii_of_string map].
  rewrite len_cons.
  pose proof (len_nonneg (map byte_of_ascii (list_ascii_of_string x))).
  cbn [String.eqb]. apply Z.eqb_neq. lia.
Qed.

(** X22. A command line that cannot work is refused before anything
    outside the process is touched: fewer than two words of target command,
    both [-src] and [-server], or neither of them, end [main] with status 1
    after the greeting and one line that says why; no file is looked up or
    written, no process started and no connection made. *)
Theorem bad_command_line_touches_nothing (fl : Flags) (env : Env) (n : nat)
  (s : St) :
  len (args fl) < 2
  \/ (flagServer fl <> ""%string /\ flagSrcDir fl <> ""%string)
  \/ (flagServer fl = ""%string /\ flagSrcDir fl = ""%string) ->
  exists msg,
    main fl env n s
    = (Exit 1, s,
       [EvLog ("%s - performing startup checks..." ++ nl) [L_str (prog fl)];
        EvLog msg []]).
Proof.
  intros H. unfold main, log_Printf, log_Fatalf. rewrite bind_emit.
  destruct (len (args fl) <? 2) eqn:Hargs.
  { eexists. rewrite bind_emit. reflexivity. }
  apply Z.ltb_ge in Hargs. rewrite !len_string_zero.
  destruct H as [H | [[Hsrv Hsrc] | [Hsrv Hsrc]]]; [lia| |].
  - apply String.eqb_neq in Hsrv, Hsrc. rewrite Hsrv, Hsrc. cbn [negb andb].
    eexists. rewrite bind_emit. reflexivity.
  - rewrite Hsrv, Hsrc. cbn [String.eqb negb andb].
    eexists. rewrite bind_emit. reflexivity.
Qed.

Lemma bad_command_line_touches_nothing_witness :
  exists msg,
    main {| prog := "terry"; flagFn := ".cur_input"; flagDestDir := "work";
            flagSrcDir := "corpus"; flagServer := "192.168.1.1:4141";
            flagFix := ""; flagTimeout := -1;
            args := ["target"; "@@"]%string |} demo_env 5 St0
    = (Exit 1, St0,
       [EvLog ("%s - performing startup checks..." ++ nl) [L_str "terry"];
        EvLog msg []]).
Proof.
  apply (bad_command_line_touches_nothing
           {| prog := "terry"; flagFn := ".cur_input"; flagDestDir := "work";
              flagSrcDir := "corpus"; flagServer := "192.168.1.1:4141";
              flagFix := ""; flagTimeout := -1;
              args := ["target"; "@@"]%string |} demo_env 5 St0).
  right. left. split; discriminate.
Defined.

(** X23. With [-server] and a generator that cannot be reached, [main]
    gives up after the ten attempts of [sleepyConnect] and exits with status
    1: its effects are the greeting, the ten sleeps and dials, and the line
    that reports the timeout. The destination directory is not looked at
    and nothing is written. *)
Theorem unreachable_server_is_fatal (fl : Flags) (env : Env) (n : nat)
  (s : St) :
  2 <= len (args fl) ->
  flagSrcDir fl = ""%string -> flagServer fl <> ""%string ->
  (forall k, exists e, env_Dial env k "tcp" (flagServer fl) = inr e) ->
  main fl env n s
  = (Exit 1, advance 10 s,
     EvLog ("%s - performing startup checks..." ++ nl) [L_str (prog fl)]
       :: attempts 10 (flagServer fl) Millisecond
       ++ [EvLog "[SAD] Unable to connect to radamsa server: %s"
             [L_err (Errorf "connection to server timed out." [])]]).
Proof.
  intros Hargs Hsrc Hsrv Hrefuse. unfold main, log_Printf. rewrite bind_emit.
  is_false (len (args fl) <? 2). rewrite !len_string_zero.
  apply String.eqb_neq in Hsrv. rewrite Hsrv, Hsrc.
  cbn [String.eqb negb andb].
  erewrite bind_val by (apply start_generator_remote; exact Hsrc).
  assert (Hconn : sleepyConnect env (flagServer fl) s
                  = (Val timed_out, advance 10 s,
                     attempts 10 (flagServer fl) Millisecond)).
  { unfold sleepyConnect.
    apply (sleepyConnect_loop_refused_all env (flagServer fl) Hrefuse 10 64);
      unfold Millisecond, Second; cbn; lia. }
  unfold check_generator. rewrite bind_bind.
  erewrite bind_val by exact Hconn. unfold timed_out. cbv beta iota.
  unfold log_Fatalf. rewrite !bind_bind, bind_emit.
  erewrite bind_exit by reflexivity. reflexivity.
Qed.

Lemma unreachable_server_is_fatal_witness :
  main remote_flags refusing_env 3 St0
  = (Exit 1, advance 10 St0,
     EvLog ("%s - performing startup checks..." ++ nl)
       [L_str (prog remote_flags)]
       :: attempts 10 (flagServer remote_flags) Millisecond
       ++ [EvLog "[SAD] Unable to connect to radamsa server: %s"
             [L_err (Errorf "connection to server timed out." [])]]).
Proof.
  apply (unreachable_server_is_fatal remote_flags refusing_env 3 St0).
  - vm_compute. discriminate.
  - reflexivity.
  - discriminate.
  - intros k. eexists. reflexivity.
Defined.

Lemma keeps_ask_val {A : Type} (I : St -> Prop) (P : Event -> Prop)
  (Q : A -> Prop) (answer : nat -> A) (e : Event) :
  (forall s, I s -> I (advance 1 s)) -> P e -> (forall k, Q (answer k)) ->
  keeps I P Q (ask answer e).
Proof.
  intros HI HP HQ s Hs. cbn. repeat split; [apply (HI s Hs)| |].
  - repeat constructor. exact HP.
  - intros a [= <-]. apply HQ.
Qed.

Lemma check_dest_no_mkdir (fl : Flags) (env : Env) :
  (forall k, exists fi, env_Stat env k (flagDestDir fl) = inl fi) ->
  keeps (fun _ => True) not_mkdir (fun _ => True) (check_dest fl env).
Proof.
  intros Hstat. unfold check_dest, os_Stat, ioutil_WriteFile.
  eapply keeps_bind.
  { apply keeps_ask_val
      with (Q := fun r : FileInfo + error => exists fi, r = inl fi);
      [trivial | exact I | exact Hstat]. }
  intros r [fi ->]. apply keeps_seq.
  { destruct (negb (IsDir fi));
      [apply keeps_Fatalf; exact I | apply keeps_ret; trivial]. }
  intros _. apply keeps_seq; [apply keeps_ask; [trivial | exact I]|].
  intros [e|]; [apply keeps_Fatalf; exact I | apply keeps_Printf; exact I].
Qed.

(** X24. The directory [crashes] is made only when the destination does not
    exist: when [os.Stat] finds the destination, [main] creates no
    directory at all, at startup or later, so a destination that is there
    without a [crashes] in it stays without one. *)
Theorem existing_dest_no_mkdir (fl : Flags) (env : Env) (n : nat) (s : St) :
  (forall k, exists fi, env_Stat env k (flagDestDir fl) = inl fi) ->
  Forall not_mkdir (snd (main fl env n s)).
Proof.
  intros Hstat.
  assert (Hmain : keeps (fun _ => True) not_mkdir (fun _ => True)
                    (main fl env n)).
  { apply keeps_main.
    - intros f a. exact I.
    - apply keeps_start_generator; intros; exact I.
    - intros srvAddr. apply keeps_check_generator; intros; exact I.
    - apply check_dest_no_mkdir, Hstat.
    - apply keeps_dial_fixer; intros; exact I.
    - intros _. apply keeps_main_loop.
      apply keeps_iteration; try (intros; exact I).
      right. split; [intros [] H; try contradiction; exact I | trivial]. }
  apply (Hmain s I).
Qed.

Lemma existing_dest_no_mkdir_witness :
  Forall not_mkdir (snd (main demo_flags readonly_env 2 St0)).
Proof.
  apply (existing_dest_no_mkdir demo_flags readonly_env 2 St0).
  intros k. eexists. reflexivity.
Defined.
